(** * cogito: the Star Wars screenplay RAG pipeline

    A shallow embedding of the four pipeline scripts
    ([01_ingest.py], [02_chunk.py], [03_embed_index.py], [04_query.py])
    and the properties their specification states about them.

    Conventions of the embedding.
    - A Python [str] is a Rocq [string]: a sequence of 8-bit code points
      (the Latin-1 range).  Character classes ([str.isspace], the regex
      classes [\s] and [\d]) are Python's classification of those code
      points.
    - A Python [float] is a primitive binary64 [float]; comparisons and
      subtraction are the IEEE operations Python performs.
    - A Python [int] is a [Z]; positions and lengths are [nat].
    - A Python [dict] with a fixed key set is a record; a ChromaDB
      collection (entries keyed by id) is a [gmap string _].
    - External capabilities (the sentence-transformers model, the text
      splitter, the vector search, the language model) are records of
      functions, passed where the scripts pass the objects. *)

From Stdlib Require Import ZArith String Ascii List Sorted Floats.
From Stdlib Require Import DecimalString DecimalZ DecimalPos.
From stdpp Require Import gmap strings list fin_maps sorting.

Set Warnings "-inexact-float,-clear-no-such-hyp".

(* ===================================================================== *)
(** * Part I: the model *)
(* ===================================================================== *)

(** ** Python built-ins used by the scripts *)

Module Py.

(** [str.isspace] on one code point below 256: TAB..CR, FS..US, SPACE,
    NEL (0x85) and NBSP (0xA0). *)
Definition isspace (c : ascii) : bool :=
  let n := nat_of_ascii c in
  ((9 <=? n) && (n <=? 13)) || ((28 <=? n) && (n <=? 32))
  || (n =? 133) || (n =? 160).

(** The regex class [\d] (decimal digits): ['0'..'9'] below 256. *)
Definition isdecimal (c : ascii) : bool :=
  let n := nat_of_ascii c in (48 <=? n) && (n <=? 57).

Definition newline : ascii := ascii_of_nat 10.

Definition is_newline (c : ascii) : bool := Ascii.eqb c newline.

(** [len(s)] *)
Definition len (s : string) : nat := String.length s.

(** [s[i:]] for [0 <= i] *)
Fixpoint drop (i : nat) (s : string) : string :=
  match i, s with
  | O, _ => s
  | S i', EmptyString => EmptyString
  | S i', String _ s' => drop i' s'
  end.

(** [s[:n]] for [0 <= n] *)
Fixpoint take (n : nat) (s : string) : string :=
  match n, s with
  | O, _ => EmptyString
  | S n', EmptyString => EmptyString
  | S n', String c s' => String c (take n' s')
  end.

(** [s[a:b]] for non-negative [a], [b]: empty when [b <= a], clamped to
    the string's end. *)
Definition slice (s : string) (a b : nat) : string := take (b - a) (drop a s).

(** [s.lstrip()] *)
Fixpoint lstrip (s : string) : string :=
  match s with
  | EmptyString => EmptyString
  | String c s' => if isspace c then lstrip s' else s
  end.

(** [s.rstrip()] *)
Fixpoint rstrip (s : string) : string :=
  match s with
  | EmptyString => EmptyString
  | String c s' =>
      match rstrip s' with
      | EmptyString => if isspace c then EmptyString else String c EmptyString
      | r => String c r
      end
  end.

(** [s.strip()] *)
Definition strip (s : string) : string := rstrip (lstrip s).

(** [str(n)] for an [int] *)
Definition str_of_int (n : Z) : string := NilZero.string_of_int (Z.to_int n).

(** ["".join(parts)] *)
Definition join (parts : list string) : string :=
  fold_right String.append EmptyString parts.

(** [sep.join(parts)] *)
Fixpoint join_with (sep : string) (parts : list string) : string :=
  match parts with
  | [] => EmptyString
  | [p] => p
  | p :: rest => p +:+ sep +:+ join_with sep rest
  end.

(** [zip(xs, ys, zs)]: stops at the shortest argument. *)
Fixpoint zip3 {A B C} (xs : list A) (ys : list B) (zs : list C)
  : list (A * B * C) :=
  match xs, ys, zs with
  | x :: xs', y :: ys', z :: zs' => (x, y, z) :: zip3 xs' ys' zs'
  | _, _, _ => []
  end.

(** [round(x, 4)] on a float.  CPython rounds the exact binary value of
    [x] to four decimal places, ties to even, and returns the double
    nearest to that decimal; NaN, the infinities and the zeros are
    returned unchanged. *)
Definition round_half_even_div (a b : Z) : Z :=
  let q := (a / b)%Z in
  let r := (a mod b)%Z in
  match (2 * r ?= b)%Z with
  | Lt => q
  | Gt => (q + 1)%Z
  | Eq => if Z.even q then q else (q + 1)%Z
  end.

Definition scaled_magnitude (m : positive) (e : Z) : Z :=
  match e with
  | Zneg p => round_half_even_div (Zpos m * 10000) (2 ^ Zpos p)
  | _ => (Zpos m * 2 ^ e * 10000)%Z
  end.

Definition round4 (x : float) : float :=
  match Prim2SF x with
  | S754_finite s m e =>
      match scaled_magnitude m e with
      | Zpos n =>
          SF2Prim (SFdiv prec emax (S754_finite s n 0)
                                   (S754_finite false 10000 0))
      | _ => SF2Prim (S754_zero s)
      end
  | _ => x
  end.

(** The line boundaries of [str.splitlines] below 256: LF, VT, FF, CR,
    FS, GS, RS and NEL (0x85). *)
Definition is_linebreak (c : ascii) : bool :=
  let n := nat_of_ascii c in
  ((10 <=? n) && (n <=? 13)) || ((28 <=? n) && (n <=? 30)) || (n =? 133).

Definition carriage_return : ascii := ascii_of_nat 13.

(** [s.splitlines()]: the lines without their boundaries; CR LF is one
    boundary, and a boundary at the very end opens no further line. *)
Fixpoint splitlines (s : string) : list string :=
  match s with
  | EmptyString => []
  | String c s' =>
      if is_linebreak c then
        EmptyString ::
        (if Ascii.eqb c carriage_return then
           match s' with
           | String c' s'' =>
               if Ascii.eqb c' newline then splitlines s'' else splitlines s'
           | EmptyString => []
           end
         else splitlines s')
      else
        match splitlines s' with
        | [] => [String c EmptyString]
        | line :: lines => String c line :: lines
        end
  end.

(** [s.endswith(suffix)] *)
Definition endswith (s suffix : string) : bool :=
  String.eqb (drop (len s - len suffix) s) suffix.

(** [sorted(names)] on strings: code point by code point. *)
Definition sorted (names : list string) : list string :=
  merge_sort (fun a b => String.leb a b) names.

End Py.

(** ** The fragment of Python's [re] that [scene_pattern] and
    [clean_script] use

    A backtracking matcher in continuation-passing style: alternatives
    are tried left to right, [?] and [+] are greedy, [+?] is lazy, and
    the first successful path is the match, as in Python's engine. *)

Module Regex.

Inductive regex : Type :=
| Lit (c : ascii)                 (* one literal character *)
| Class (p : ascii -> bool)       (* one character of a class *)
| Bol                             (* [^] under re.MULTILINE *)
| Eol                             (* [$] under re.MULTILINE *)
| Seq (r1 r2 : regex)             (* r1 r2 *)
| Alt (r1 r2 : regex)             (* r1|r2 *)
| Opt (r : regex)                 (* (?:r)? *)
| Plus (p : ascii -> bool)        (* c+ over a one-character class *)
| PlusLazy (p : ascii -> bool)    (* c+? over a one-character class *)
| Group (r : regex).              (* capture group 1 *)

(** Matcher state: the position reached, the character just before it
    (for [^]), the text still to read, and the span of group 1. *)
Record mstate := {
  pos : nat;
  prev : option ascii;
  rest : string;
  g1 : option (nat * nat)
}.

Definition advance (st : mstate) (a : ascii) (s' : string) : mstate :=
  {| pos := S (pos st); prev := Some a; rest := s'; g1 := g1 st |}.

Definition set_group (start : nat) (st : mstate) : mstate :=
  {| pos := pos st; prev := prev st; rest := rest st;
     g1 := Some (start, pos st) |}.

Definition orelse {A} (x y : option A) : option A :=
  match x with Some _ => x | None => y end.

(** [c+]: one character of the class, then as many more as possible
    before trying the continuation. *)
Fixpoint plus_greedy (p : ascii -> bool) (s : string) (ps : nat)
    (g : option (nat * nat)) (k : mstate -> option mstate) : option mstate :=
  match s with
  | String a s' =>
      if p a then
        orelse (plus_greedy p s' (S ps) g k)
               (k {| pos := S ps; prev := Some a; rest := s'; g1 := g |})
      else None
  | EmptyString => None
  end.

(** [c+?]: one character of the class, then the continuation is tried
    before any further character is taken. *)
Fixpoint plus_lazy (p : ascii -> bool) (s : string) (ps : nat)
    (g : option (nat * nat)) (k : mstate -> option mstate) : option mstate :=
  match s with
  | String a s' =>
      if p a then
        orelse (k {| pos := S ps; prev := Some a; rest := s'; g1 := g |})
               (plus_lazy p s' (S ps) g k)
      else None
  | EmptyString => None
  end.

Fixpoint run (r : regex) (st : mstate) (k : mstate -> option mstate)
  : option mstate :=
  match r with
  | Lit c =>
      match rest st with
      | String a s' => if Ascii.eqb a c then k (advance st a s') else None
      | EmptyString => None
      end
  | Class p =>
      match rest st with
      | String a s' => if p a then k (advance st a s') else None
      | EmptyString => None
      end
  | Bol =>
      match prev st with
      | None => k st
      | Some a => if Py.is_newline a then k st else None
      end
  | Eol =>
      match rest st with
      | EmptyString => k st
      | String a _ => if Py.is_newline a then k st else None
      end
  | Seq r1 r2 => run r1 st (fun st' => run r2 st' k)
  | Alt r1 r2 => orelse (run r1 st k) (run r2 st k)
  | Opt r1 => orelse (run r1 st k) (k st)
  | Plus p => plus_greedy p (rest st) (pos st) (g1 st) k
  | PlusLazy p => plus_lazy p (rest st) (pos st) (g1 st) k
  | Group r1 => run r1 st (fun st' => k (set_group (pos st) st'))
  end.

(** [pattern.match] anchored at position [ps] of the text, whose
    remaining part is [s] and whose previous character is [pv]. *)
Definition match_at (r : regex) (ps : nat) (pv : option ascii) (s : string)
  : option mstate :=
  run r {| pos := ps; prev := pv; rest := s; g1 := None |} Some.

(** A match object: [m.start()], [m.end()] and the span of group 1. *)
Record Match := {
  m_start : nat;
  m_end : nat;
  m_group1 : option (nat * nat)
}.

(** [pattern.finditer(text)], scanning left to right.  [skip] counts the
    characters of the previous match still to be passed over; a new
    match is attempted at every position after them.  An empty match
    (which [scene_pattern] cannot produce) is recorded and the scan
    moves on by one character. *)
Fixpoint finditer_from (r : regex) (skip ps : nat) (pv : option ascii)
    (s : string) : list Match :=
  match skip with
  | S n =>
      match s with
      | String a s' => finditer_from r n (S ps) (Some a) s'
      | EmptyString => []
      end
  | O =>
      match match_at r ps pv s with
      | Some st =>
          {| m_start := ps; m_end := pos st; m_group1 := g1 st |} ::
          match s with
          | String a s' => finditer_from r (pos st - ps - 1) (S ps) (Some a) s'
          | EmptyString => []
          end
      | None =>
          match s with
          | String a s' => finditer_from r 0 (S ps) (Some a) s'
          | EmptyString => []
          end
      end
  end.

Definition finditer (r : regex) (text : string) : list Match :=
  finditer_from r 0 0 None text.

(** A literal word [c w], character by character. *)
Fixpoint word (c : ascii) (w : string) : regex :=
  match w with
  | EmptyString => Lit c
  | String c' w' => Seq (Lit c) (word c' w')
  end.

(** The empty pattern and the starred forms over a one-character
    class, written with the forms above: [c*] is [(?:c+)?], and [c*?]
    tries the continuation first and a lazy [c+?] after it. *)
Definition Empty : regex := Opt (Class (fun _ => false)).
Definition Star (p : ascii -> bool) : regex := Opt (Plus p).
Definition StarLazy (p : ascii -> bool) : regex := Alt Empty (PlusLazy p).

(** [re.sub(pattern, repl, text)] for a [repl] without group
    references: the text between the matches, with [repl] in place of
    every match.  [i] is the end of the previous match. *)
Fixpoint splice (repl text : string) (i : nat) (ms : list Match) : string :=
  match ms with
  | [] => Py.drop i text
  | m :: ms' =>
      (Py.slice text i (m_start m) +:+ repl
       +:+ splice repl text (m_end m) ms')%string
  end.

Definition sub (r : regex) (repl text : string) : string :=
  splice repl text 0 (finditer r text).

End Regex.

(** ** [01_ingest.py]: film titles and scene segmentation *)

Module Ingest.

(** [s.rfind(c)] for a one-character [c]: the last index, or -1. *)
Fixpoint rfind_from (c : ascii) (s : string) (i : Z) (found : Z) : Z :=
  match s with
  | EmptyString => found
  | String a s' => rfind_from c s' (i + 1) (if Ascii.eqb a c then i else found)
  end.

Definition rfind (c : ascii) (s : string) : Z := rfind_from c s 0 (-1).

(** The [while filenameIndex < dotIndex] loop of [genericpath._splitext]:
    [true] when some character of [p] in [filenameIndex, dotIndex) is
    not a dot.  [n] is the number of iterations left. *)
Fixpoint has_non_dot (p : string) (filenameIndex : nat) (n : nat) : bool :=
  match n with
  | O => false
  | S n' =>
      if negb (String.eqb (Py.slice p filenameIndex (filenameIndex + 1)) ".")
      then true
      else has_non_dot p (filenameIndex + 1) n'
  end.

(** [os.path.splitext(p)] (posixpath: separator [/], extension
    separator [.], no alternative separator). *)
Definition splitext (p : string) : string * string :=
  let sepIndex := rfind "/" p in
  let dotIndex := rfind "." p in
  if (sepIndex <? dotIndex)%Z then
    let filenameIndex := (sepIndex + 1)%Z in
    if has_non_dot p (Z.to_nat filenameIndex)
                     (Z.to_nat (dotIndex - filenameIndex))
    then (Py.take (Z.to_nat dotIndex) p, Py.drop (Z.to_nat dotIndex) p)
    else (p, EmptyString)
  else (p, EmptyString).

(** [s.replace(a, b)] for one-character [a] and [b]. *)
Fixpoint replace (a b : ascii) (s : string) : string :=
  match s with
  | EmptyString => EmptyString
  | String c s' => String (if Ascii.eqb c a then b else c) (replace a b s')
  end.

(** Case mapping of [str.title()] and [str.lower()] on the code points
    below 256.  Cased are the ASCII letters, the Latin-1 letters
    (0xC0..0xD6, 0xD8..0xF6, 0xF8..0xFF) and the three signs 0xAA,
    0xB5 and 0xBA.  The lower-case form of an upper-case letter lies 32
    further; the title-case form of a lower-case letter lies 32
    before, save that of 0xDF (sharp s), which is the two letters
    [Ss].  The title-case forms of 0xB5 (micro sign) and 0xFF lie above
    255, outside the strings of this embedding: [to_title] leaves these
    two as they are, and what is proved of the value of a title is
    proved for names without them ([title_in_range]). *)
Definition is_upper (c : ascii) : bool :=
  let n := nat_of_ascii c in
  ((65 <=? n) && (n <=? 90)) || ((192 <=? n) && (n <=? 214))
  || ((216 <=? n) && (n <=? 222)).
Definition is_lower (c : ascii) : bool :=
  let n := nat_of_ascii c in
  ((97 <=? n) && (n <=? 122)) || ((223 <=? n) && (n <=? 246))
  || ((248 <=? n) && (n <=? 255))
  || (n =? 170) || (n =? 181) || (n =? 186).
Definition is_cased (c : ascii) : bool := is_upper c || is_lower c.
Definition to_lower (c : ascii) : ascii :=
  if is_upper c then ascii_of_nat (nat_of_ascii c + 32) else c.
Definition to_title (c : ascii) : string :=
  let n := nat_of_ascii c in
  if n =? 223 then "Ss"%string
  else if ((97 <=? n) && (n <=? 122)) || ((224 <=? n) && (n <=? 246))
          || ((248 <=? n) && (n <=? 254))
  then String (ascii_of_nat (n - 32)) EmptyString
  else String c EmptyString.


(** [s.title()]: a character that follows a cased character is
    lower-cased, any other is title-cased. *)
Fixpoint title_from (previous_is_cased : bool) (s : string) : string :=
  match s with
  | EmptyString => EmptyString
  | String c s' =>
      ((if previous_is_cased then String (to_lower c) EmptyString
        else to_title c)
       +:+ title_from (is_cased c) s')%string
  end.

Definition title (s : string) : string := title_from false s.

Definition derive_film_title (filename : string) : string :=
  let name := fst (splitext filename) in
  title (replace "-" " " name).

(** A scene Document. *)
Record Document := {
  film : string;
  scene_id : Z;
  heading : string;
  text : string
}.

Import Regex.

Definition dot_or_space (c : ascii) : bool := Ascii.eqb c "." || Py.isspace c.
Definition not_newline (c : ascii) : bool := negb (Py.is_newline c).

(** [(?m)^(?:\d+\s+)?((?:INT|EXT|INT\/EXT|I\/E)[\.\s].+?)$] *)
Definition scene_pattern : regex :=
  Seq Bol
 (Seq (Opt (Seq (Plus Py.isdecimal) (Plus Py.isspace)))
 (Seq (Group
        (Seq (Alt (word "I" "NT")
             (Alt (word "E" "XT")
             (Alt (word "I" "NT/EXT")
                  (word "I" "/E"))))
        (Seq (Class dot_or_space)
             (PlusLazy not_newline))))
      Eol)).

(** [m.group(1)] of a match of [scene_pattern] in [text]. *)
Definition group1 (text : string) (m : Match) : string :=
  match m_group1 m with
  | Some (a, b) => Py.slice text a b
  | None => EmptyString
  end.

(** [[(m.start(), m.group(1).strip()) for m in scene_pattern.finditer(text)]] *)
Definition find_headers (cleaned_text : string) : list (nat * string) :=
  map (fun m => (m_start m, Py.strip (group1 cleaned_text m)))
      (finditer scene_pattern cleaned_text).

(** [enumerate(xs)] *)
Definition enumerate {A} (xs : list A) : list (nat * A) :=
  combine (seq 0 (length xs)) xs.

(** [headers[i + 1][0] if i + 1 < len(headers) else len(cleaned_text)] *)
Definition scene_end (cleaned_text : string) (headers : list (nat * string))
    (i : nat) : nat :=
  match headers !! (i + 1) with
  | Some (start, _) => start
  | None => Py.len cleaned_text
  end.

(** The body of the [for i, (start, heading) in enumerate(headers)] loop. *)
Definition scene_step (cleaned_text film_title : string)
    (headers : list (nat * string)) (scenes : list Document)
    (it : nat * (nat * string)) : list Document :=
  let '(i, (start, heading)) := it in
  let end_ := scene_end cleaned_text headers i in
  let scene_text := Py.strip (Py.slice cleaned_text start end_) in
  if Py.len scene_text <? 30 then scenes
  else scenes ++ [ {| film := film_title;
                      scene_id := Z.of_nat i + 1;
                      heading := heading;
                      text := scene_text |} ].

Definition full_script (cleaned_text film_title : string) : Document :=
  {| film := film_title; scene_id := 0;
     heading := "FULL SCRIPT"; text := cleaned_text |}.

Definition extract_scenes (cleaned_text film_title : string) : list Document :=
  let headers := find_headers cleaned_text in
  match headers with
  | [] => [ full_script cleaned_text film_title ]
  | _ => fold_left (scene_step cleaned_text film_title headers)
                   (enumerate headers) []
  end.

(** *** [clean_script] *)

(** One literal character under [re.IGNORECASE]. *)
Definition icase (l : ascii) : regex :=
  Class (fun c => Ascii.eqb (to_lower c) (to_lower l)).

(** A literal word [c w] under [re.IGNORECASE]. *)
Fixpoint iword (c : ascii) (w : string) : regex :=
  match w with
  | EmptyString => icase c
  | String c' w' => Seq (icase c) (iword c' w')
  end.

(** [(?m)^\s*\d+\.\s*$] *)
Definition page_number : regex :=
  Seq Bol
 (Seq (Star Py.isspace)
 (Seq (Plus Py.isdecimal)
 (Seq (Lit ".")
 (Seq (Star Py.isspace)
      Eol)))).

(** [(?m)^\s*Page\s+\d+\s*$] under [re.IGNORECASE] *)
Definition page_word : regex :=
  Seq Bol
 (Seq (Star Py.isspace)
 (Seq (iword "P" "age")
 (Seq (Plus Py.isspace)
 (Seq (Plus Py.isdecimal)
 (Seq (Star Py.isspace)
      Eol))))).

(** [\(CONT\'D\)] under [re.IGNORECASE] *)
Definition contd : regex := iword "(" "CONT'D)".

(** [\(a\.b\.?\)] under [re.IGNORECASE], for [(V.O.)], [(O.S.)] and
    [(O.C.)] *)
Definition annotation (a b : ascii) : regex :=
  Seq (Lit "(")
 (Seq (icase a)
 (Seq (Lit ".")
 (Seq (icase b)
 (Seq (Opt (Lit "."))
      (Lit ")"))))).

(** [(?m)^\s*\(.*?\)\s*$] *)
Definition stage_direction : regex :=
  Seq Bol
 (Seq (Star Py.isspace)
 (Seq (Lit "(")
 (Seq (StarLazy not_newline)
 (Seq (Lit ")")
 (Seq (Star Py.isspace)
      Eol))))).

(** [\n{3,}] *)
Definition blank_lines : regex :=
  Seq (Lit Py.newline) (Seq (Lit Py.newline) (Plus Py.is_newline)).

Definition nl : string := String Py.newline EmptyString.

Definition clean_script (raw_text : string) : string :=
  let text := sub page_number "" raw_text in
  let text := sub page_word "" text in
  let text := sub contd "" text in
  let text := sub (annotation "V" "O") "" text in
  let text := sub (annotation "O" "S") "" text in
  let text := sub (annotation "O" "C") "" text in
  let text := sub stage_direction "" text in
  let text := sub blank_lines (nl +:+ nl) text in
  let text := Py.join_with nl (map Py.rstrip (Py.splitlines text)) in
  let text := Py.join_with nl (map Py.lstrip (Py.splitlines text)) in
  Py.strip text.

(** *** [load_and_process_scripts] *)

(** The file system as the script sees it: [os.listdir] and the text
    that [open(path, encoding="utf-8", errors="replace").read()]
    returns; [None] when the call raises. *)
Record FileSystem := {
  listdir : string -> option (list string);
  read_text : string -> option string
}.

(** [os.path.join(a, b)] (posixpath) *)
Definition path_join (a b : string) : string :=
  if String.prefix "/" b then b
  else if String.eqb a "" || Py.endswith a "/" then (a +:+ b)%string
  else (a +:+ "/" +:+ b)%string.

(** The body of the [for filename in txt_files] loop. *)
Definition script_step (fs : FileSystem) (scripts_dir : string)
    (all_docs : list Document) (filename : string) : option (list Document) :=
  let filepath := path_join scripts_dir filename in
  let film_title := derive_film_title filename in
  raw_text ← read_text fs filepath;
  let cleaned := clean_script raw_text in
  let scenes := extract_scenes cleaned film_title in
  Some (all_docs ++ scenes).

Fixpoint script_loop (fs : FileSystem) (scripts_dir : string)
    (txt_files : list string) (all_docs : list Document)
  : option (list Document) :=
  match txt_files with
  | [] => Some all_docs
  | filename :: rest =>
      all_docs' ← script_step fs scripts_dir all_docs filename;
      script_loop fs scripts_dir rest all_docs'
  end.

(** [load_and_process_scripts]: the Documents, or [None] when it
    raises (no [.txt] file, or a failing file-system call). *)
Definition load_and_process_scripts (fs : FileSystem) (scripts_dir : string)
  : option (list Document) :=
  names ← listdir fs scripts_dir;
  let txt_files :=
    Py.sorted (List.filter (fun f => Py.endswith f ".txt") names) in
  match txt_files with
  | [] => None
  | _ => script_loop fs scripts_dir txt_files []
  end.

Definition SCRIPTS_DIR : string := "scripts".

(** What a run of the script's main block leaves: the content written
    to the output file, if the run got that far, and whether the run
    reached its end without an exception. *)
Record Run := {
  output_file : option (list Document);
  completed : bool
}.

(** The main block: the Documents are written before the preview, and
    the preview reads [docs[0]]. *)
Definition main (fs : FileSystem) : Run :=
  match load_and_process_scripts fs SCRIPTS_DIR with
  | None => {| output_file := None; completed := false |}
  | Some docs =>
      {| output_file := Some docs;
         completed := match docs with [] => false | _ :: _ => true end |}
  end.

End Ingest.

(** ** [02_chunk.py]: chunking scenes *)

Module Chunker.

Definition CHUNK_SIZE : nat := 500.
Definition CHUNK_OVERLAP : nat := 100.

(** The [RecursiveCharacterTextSplitter] object: [splitter.split_text]. *)
Record TextSplitter := {
  split_text : string -> list string
}.

Record Chunk := {
  chunk_id : Z;
  film : string;
  scene_id : Z;
  heading : string;
  chunk_index : Z;
  total_chunks : Z;
  text : string
}.

(** The body of the inner [for i, chunk_text in enumerate(splits)] loop;
    the state is [(all_chunks, chunk_counter)]. *)
Definition chunk_step (doc : Ingest.Document) (splits : list string)
    (acc : list Chunk * Z) (it : nat * string) : list Chunk * Z :=
  let '(all_chunks, chunk_counter) := acc in
  let '(i, chunk_text) := it in
  (all_chunks ++ [ {| chunk_id := chunk_counter;
                      film := Ingest.film doc;
                      scene_id := Ingest.scene_id doc;
                      heading := Ingest.heading doc;
                      chunk_index := Z.of_nat i;
                      total_chunks := Z.of_nat (length splits);
                      text := chunk_text |} ],
   (chunk_counter + 1)%Z).

(** The body of the outer [for doc in docs] loop. *)
Definition doc_step (splitter : TextSplitter) (acc : list Chunk * Z)
    (doc : Ingest.Document) : list Chunk * Z :=
  let text := Ingest.text doc in
  let splits := split_text splitter text in
  fold_left (chunk_step doc splits) (Ingest.enumerate splits) acc.

Definition chunk_documents (splitter : TextSplitter)
    (docs : list Ingest.Document) : list Chunk :=
  fst (fold_left (doc_step splitter) docs ([], 0%Z)).

(** *** [print_stats] and the script's main block *)

(** [sum(xs)] *)
Definition py_sum (xs : list nat) : nat := fold_left Nat.add xs 0.

(** [min(xs)] and [max(xs)]: a ValueError on the empty list. *)
Definition py_min (xs : list nat) : option nat :=
  match xs with
  | [] => None
  | x :: rest => Some (fold_left Nat.min rest x)
  end.

Definition py_max (xs : list nat) : option nat :=
  match xs with
  | [] => None
  | x :: rest => Some (fold_left Nat.max rest x)
  end.

(** [a // b]: a ZeroDivisionError when [b] is 0. *)
Definition floordiv (a b : nat) : option nat :=
  if b =? 0 then None else Some (a / b).

(** [by_film.setdefault(c["film"], []).append(len(c["text"]))] *)
Definition setdefault_append (by_film : gmap string (list nat)) (c : Chunk)
  : gmap string (list nat) :=
  <[film c := default [] (by_film !! film c) ++ [Py.len (text c)]]> by_film.

(** [sorted(by_film.items())]: the keys of a dict are distinct, so the
    items are ordered by film name, code point by code point. *)
Definition sorted_items (by_film : gmap string (list nat))
  : list (string * list nat) :=
  merge_sort (fun a b => String.leb a.1 b.1) (map_to_list by_film).

(** One line of the per-film summary: the film, its number of chunks
    and their average length. *)
Record FilmLine := {
  line_film : string;
  line_chunks : nat;
  line_avg : nat
}.

Definition film_line (item : string * list nat) : option FilmLine :=
  let '(film_, lens) := item in
  avg ← floordiv (py_sum lens) (length lens);
  Some {| line_film := film_; line_chunks := length lens; line_avg := avg |}.

(** The values that [print_stats] prints. *)
Record Stats := {
  stats_total : nat;
  stats_avg : nat;
  stats_min : nat;
  stats_max : nat;
  stats_by_film : list FilmLine
}.

(** [print_stats]: what it prints, or [None] when it raises. *)
Definition print_stats (chunks : list Chunk) : option Stats :=
  let lengths := map (fun c => Py.len (text c)) chunks in
  let by_film := fold_left setdefault_append chunks ∅ in
  avg ← floordiv (py_sum lengths) (length lengths);
  mn ← py_min lengths;
  mx ← py_max lengths;
  lines ← mapM film_line (sorted_items by_film);
  Some {| stats_total := length chunks; stats_avg := avg;
          stats_min := mn; stats_max := mx; stats_by_film := lines |}.

(** The script's main block: [docs] is the content of the input file;
    the result is the content written to the output file, or [None]
    when the script stops on an exception before writing it. *)
Definition main (splitter : TextSplitter) (docs : list Ingest.Document)
  : option (list Chunk) :=
  let chunks := chunk_documents splitter docs in
  _ ← print_stats chunks;
  Some chunks.

End Chunker.

(** ** [03_embed_index.py]: the Indexer and the ChromaDB client it drives *)

Module Index.

Definition Embedding : Type := list float.

(** The metadata dict stored with every indexed chunk. *)
Record Metadata := {
  meta_film : string;
  meta_scene_id : Z;
  meta_heading : string;
  meta_chunk_index : Z;
  meta_total_chunks : Z
}.

(** One indexed entry; a collection keys its entries by id. *)
Record Entry := {
  document : string;
  embedding : Embedding;
  metadata : Metadata
}.

Record StoredCollection := {
  coll_metadata : list (string * string);
  entries : gmap string Entry
}.

(** What the persistent client keeps on disk: collections by name. *)
Abbreviation Store := (gmap string StoredCollection).

(** The SentenceTransformer object: [model.encode(text)] for one string
    and [model.encode(texts)] for a list of strings. *)
Record SentenceTransformer := {
  encode : string -> Embedding;
  encode_batch : list string -> list Embedding
}.

Definition COLLECTION_NAME : string := "starwars"%string.
Definition BATCH_SIZE : nat := 64.
Definition MIN_CHUNK_LENGTH : nat := 10.

(** What [client.list_collections()] returns depends on the chromadb
    release, which the scripts do not pin: release 0.6 returns the
    collection names, the releases before and after it return
    Collection objects. *)
Inductive ListApi : Type :=
| ListsNames
| ListsCollections.

(** One element of the list that [client.list_collections()] returns:
    a name, or the Collection object of that name. *)
Inductive Listed : Type :=
| ListedName (name : string)
| ListedCollection (name : string).

(** [client.list_collections()] *)
Definition list_collections (api : ListApi) (st : Store) : list Listed :=
  map (match api with
       | ListsNames => ListedName
       | ListsCollections => ListedCollection
       end)
      (elements (dom st)).

(** [name in existing] for a [str]: equal to a listed name that reads
    the same, and to no Collection object. *)
Definition name_in (name : string) (existing : list Listed) : bool :=
  existsb (fun x => match x with
                    | ListedName n => String.eqb name n
                    | ListedCollection _ => false
                    end)
          existing.

(** [client.delete_collection(name)]: an error when there is none. *)
Definition delete_collection (name : string) (st : Store) : option Store :=
  match st !! name with
  | Some _ => Some (delete name st)
  | None => None
  end.

(** [client.create_collection(name, metadata)]: an error when the name
    is taken, else an empty collection. *)
Definition create_collection (name : string) (md : list (string * string))
    (st : Store) : option Store :=
  match st !! name with
  | Some _ => None
  | None => Some (<[name := {| coll_metadata := md; entries := ∅ |}]> st)
  end.

(** [zip] of the four argument lists of [collection.add]. *)
Fixpoint zip_records (ids docs : list string) (embs : list Embedding)
    (metas : list Metadata) : list (string * Entry) :=
  match ids, docs, embs, metas with
  | i :: ids', d :: docs', e :: embs', m :: metas' =>
      (i, {| document := d; embedding := e; metadata := m |})
      :: zip_records ids' docs' embs' metas'
  | _, _, _, _ => []
  end.

(** An id that the collection already holds is ignored. *)
Definition add_record (es : gmap string Entry) (r : string * Entry)
  : gmap string Entry :=
  match es !! r.1 with
  | Some _ => es
  | None => <[r.1 := r.2]> es
  end.

(** [collection.add(ids, documents, embeddings, metadatas)] on the
    collection called [name]: an error when the collection is gone,
    when [ids] is empty or repeats an id, or when the four lists differ
    in length. *)
Definition collection_add (name : string) (ids docs : list string)
    (embs : list Embedding) (metas : list Metadata) (st : Store)
  : option Store :=
  c ← st !! name;
  if bool_decide (ids ≠ [] ∧ NoDup ids
                  ∧ length docs = length ids
                  ∧ length embs = length ids
                  ∧ length metas = length ids)
  then Some (<[name := {| coll_metadata := coll_metadata c;
                          entries := fold_left add_record
                                       (zip_records ids docs embs metas)
                                       (entries c) |}]> st)
  else None.


(** [load_chunks]: the chunk file's content, without the chunks whose
    text is shorter than [MIN_CHUNK_LENGTH]. *)
Definition load_chunks (file : list Chunker.Chunk) : list Chunker.Chunk :=
  let short_chunks :=
    filter (fun c => Py.len (Chunker.text c) < MIN_CHUNK_LENGTH) file in
  let chunks :=
    filter (fun c => MIN_CHUNK_LENGTH ≤ Py.len (Chunker.text c)) file in
  chunks.

(** [xs[a:b]] on a list. *)
Definition list_slice {A} (xs : list A) (a b : nat) : list A :=
  take (b - a) (drop a xs).

Definition chunk_metadata (c : Chunker.Chunk) : Metadata :=
  {| meta_film := Chunker.film c;
     meta_scene_id := Chunker.scene_id c;
     meta_heading := Chunker.heading c;
     meta_chunk_index := Chunker.chunk_index c;
     meta_total_chunks := Chunker.total_chunks c |}.

(** The body of the [for batch_num in range(total_batches)] loop. *)
Definition batch_step (chunks : list Chunker.Chunk)
    (model : SentenceTransformer) (st : Store) (batch_num : nat)
  : option Store :=
  let batch :=
    list_slice chunks (batch_num * BATCH_SIZE) ((batch_num + 1) * BATCH_SIZE) in
  let texts := map Chunker.text batch in
  let ids := map (fun c => Py.str_of_int (Chunker.chunk_id c)) batch in
  let metadatas := map chunk_metadata batch in
  let embeddings := encode_batch model texts in
  collection_add COLLECTION_NAME ids texts embeddings metadatas st.

(** A [for] loop whose body may raise. *)
Fixpoint for_each {A S} (body : S -> A -> option S) (xs : list A) (st : S)
  : option S :=
  match xs with
  | [] => Some st
  | x :: xs' => st' ← body st x; for_each body xs' st'
  end.

(** [build_chroma_collection], with the client of a release that lists
    collections as [api] says: the store after the run, and the name of
    the collection that the returned handle denotes. *)
Definition build_chroma_collection (api : ListApi)
    (chunks : list Chunker.Chunk) (model : SentenceTransformer) (st : Store)
  : option (Store * string) :=
  let existing := list_collections api st in
  st1 ← (if name_in COLLECTION_NAME existing
         then delete_collection COLLECTION_NAME st
         else Some st);
  st2 ← create_collection COLLECTION_NAME
          [("hnsw:space"%string, "cosine"%string)] st1;
  let total_batches := (length chunks + BATCH_SIZE - 1) / BATCH_SIZE in
  st3 ← for_each (batch_step chunks model) (seq 0 total_batches) st2;
  Some (st3, COLLECTION_NAME).

(** *** What [load_chunks] prints *)

(** The values printed for one filtered-out chunk: its [chunk_id],
    [film], [heading] and [text]. *)
Record ShortChunk := {
  short_chunk_id : Z;
  short_film : string;
  short_heading : string;
  short_text : string
}.

(** The report of [load_chunks]: nothing when no chunk is filtered out,
    else [len(short_chunks)] and the values printed for each of them,
    in order. *)
Definition load_chunks_report (file : list Chunker.Chunk)
  : option (nat * list ShortChunk) :=
  let short_chunks :=
    filter (fun c => Py.len (Chunker.text c) < MIN_CHUNK_LENGTH) file in
  match short_chunks with
  | [] => None
  | _ =>
      Some (length short_chunks,
            map (fun c => {| short_chunk_id := Chunker.chunk_id c;
                             short_film := Chunker.film c;
                             short_heading := Chunker.heading c;
                             short_text := Chunker.text c |})
                short_chunks)
  end.

End Index.

(** ** [04_query.py]: retrieval, the gate, generation and the query log *)

Module Query.

Import Index.

(** The row of [collection.query(...)] for the single query embedding:
    [results["documents"][0]], [results["metadatas"][0]] and
    [results["distances"][0]]. *)
Record QueryResult := {
  documents : list string;
  metadatas : list Metadata;
  distances : list float
}.

(** The collection object at query time:
    [collection.query(query_embeddings=[e], n_results=k, include=...)]. *)
Record Collection := {
  query : Embedding -> nat -> QueryResult
}.

(** One message of a chat request. *)
Record Message := {
  role : string;
  content : string
}.

(** [ollama.chat(model=..., messages=..., stream=True)], read to its
    end: the [chunk["message"]["content"]] of every streamed chunk. *)
Record Ollama := {
  chat : string -> list Message -> list string
}.

Definition TOP_K : nat := 5.
Definition MIN_SIMILARITY : float := 0.45%float.
Definition OLLAMA_MODEL : string := "llama3.2"%string.

Definition nl : string := String Py.newline EmptyString.
Definition dq : string := String (ascii_of_nat 34) EmptyString.

Definition SYSTEM_PROMPT : string :=
  Py.join_with nl [
    "You are a research assistant with access ONLY to excerpts ";
    "from the Star Wars original trilogy screenplays — A New Hope, The Empire ";
    "Strikes Back, and Return of the Jedi.";
    "";
    "STRICT RULES:";
    "- Answer using ONLY information present in the provided context chunks.";
    "- If the context does not contain enough information, respond with exactly:";
    "  " +:+ dq +:+ "The original trilogy screenplays don't contain enough information to answer this." +:+ dq;
    "- NEVER use outside knowledge, expanded universe material, or anything ";
    "  not explicitly stated in the provided context.";
    "- NEVER speculate or infer beyond what the text directly supports.";
    "- When quoting dialogue, attribute it to the correct character.";
    "- Keep answers concise and grounded in the provided text."
  ]%string.

(** One retrieved result dict. *)
Record Retrieved := {
  text : string;
  film : string;
  heading : string;
  similarity : float
}.

(** One element of an entry's [chunks_retrieved]. *)
Record LoggedChunk := {
  log_film : string;
  log_heading : string;
  log_similarity : float
}.

(** One entry of the query log, before [json.dumps]. *)
Record LogEntry := {
  timestamp : string;
  entry_query : string;
  outcome : string;
  top_similarity : option float;
  chunks_retrieved : list LoggedChunk;
  answer : option string
}.

(** The part of the world that a query changes or reads: the lines of
    [data/query_log.jsonl], one entry per line, and what
    [datetime.now().isoformat()] returns.  Console output is not
    modelled. *)
Record World := {
  log_file : list LogEntry;
  wall_clock : string
}.

Definition log_query (q : string) (chunks : list Retrieved)
    (outcome_ : string) (answer_ : option string) (w : World) : World :=
  let entry :=
    {| timestamp := wall_clock w;
       entry_query := q;
       outcome := outcome_;
       top_similarity :=
         match chunks with
         | c :: _ => Some (similarity c)
         | [] => None
         end;
       chunks_retrieved :=
         map (fun c => {| log_film := film c;
                          log_heading := heading c;
                          log_similarity := Py.round4 (similarity c) |})
             chunks;
       answer := answer_ |} in
  {| log_file := log_file w ++ [entry]; wall_clock := wall_clock w |}.

(** The body of the [for doc, meta, dist in zip(...)] loop. *)
Definition retrieve_step (chunks : list Retrieved)
    (row : string * Metadata * float) : list Retrieved :=
  let '(doc, meta, dist) := row in
  let similarity := (1 - dist)%float in
  if (MIN_SIMILARITY <=? similarity)%float then
    chunks ++ [ {| text := doc; film := meta_film meta;
                   heading := meta_heading meta; similarity := similarity |} ]
  else chunks.

Definition retrieve (q : string) (model : SentenceTransformer)
    (collection : Collection) : list Retrieved :=
  let query_embedding := encode model q in
  let results := query collection query_embedding TOP_K in
  fold_left retrieve_step
    (Py.zip3 (documents results) (metadatas results) (distances results))
    [].

Definition rejected_no_chunks : string := "rejected_no_chunks"%string.
Definition rejected_low_similarity : string := "rejected_low_similarity"%string.
Definition answered : string := "answered"%string.

Definition is_context_sufficient (chunks : list Retrieved) : bool * string :=
  match chunks with
  | [] => (false, rejected_no_chunks)
  | c :: _ =>
      if (similarity c <? MIN_SIMILARITY)%float
      then (false, rejected_low_similarity)
      else (true, answered)
  end.

(** [format_context]; [fmt2] is the float format [:.2f]. *)
Definition format_part (fmt2 : float -> string) (it : nat * Retrieved)
  : string :=
  let '(i, c) := it in
  ("[Source " +:+ Py.str_of_int (Z.of_nat i) +:+ ": " +:+ film c +:+ " — "
   +:+ heading c +:+ " (relevance: " +:+ fmt2 (similarity c) +:+ ")]" +:+ nl
   +:+ text c)%string.

Definition format_context (fmt2 : float -> string) (chunks : list Retrieved)
  : string :=
  let parts :=
    fold_left (fun parts it => parts ++ [format_part fmt2 it])
              (combine (seq 1 (length chunks)) chunks) [] in
  Py.join_with (nl +:+ nl +:+ "---" +:+ nl +:+ nl)%string parts.

(** The [messages] list that [ask] sends to the language model. *)
Definition ask_messages (fmt2 : float -> string) (q : string)
    (chunks : list Retrieved) : list Message :=
  let context := format_context fmt2 chunks in
  [ {| role := "system"; content := SYSTEM_PROMPT |};
    {| role := "user";
       content := ("Context from the screenplays:" +:+ nl +:+ nl
                   +:+ context +:+ nl +:+ nl +:+ "Question: " +:+ q)%string |} ].

(** [ask], for a query whose generation stream is read to its end. *)
Definition ask (q : string) (model : SentenceTransformer)
    (collection : Collection) (llm : Ollama) (fmt2 : float -> string)
    (w : World) : World :=
  let chunks := retrieve q model collection in
  let '(sufficient, outcome_) := is_context_sufficient chunks in
  if negb sufficient then
    log_query q chunks outcome_ None w
  else
    let messages := ask_messages fmt2 q chunks in
    let stream := chat llm OLLAMA_MODEL messages in
    let full_answer := fold_left (fun acc token => acc ++ [token]) stream [] in
    log_query q chunks outcome_ (Some (Py.join full_answer)) w.

(** *** The log summary and the interactive loop *)

(** [s.lower()] on the code points below 256. *)
Fixpoint lower (s : string) : string :=
  match s with
  | EmptyString => EmptyString
  | String c s' => String (Ingest.to_lower c) (lower s')
  end.

(** [s.startswith(p)] *)
Definition startswith (s p : string) : bool := String.prefix p s.

(** [sum(1 for e in entries if test(e))] *)
Definition count_if {A} (test : A -> bool) (entries : list A) : nat :=
  fold_left (fun n e => if test e then n + 1 else n) entries 0.

(** The numbers that [print_log_summary] prints. *)
Record LogSummary := {
  summary_total : nat;
  summary_answered : nat;
  summary_rejected : nat
}.

(** [print_log_summary]: nothing when the log file is missing or holds
    no entry, else the three numbers of its one line. *)
Definition print_log_summary (w : World) : option LogSummary :=
  let entries := log_file w in
  match entries with
  | [] => None
  | _ =>
      let answered_ :=
        count_if (fun e => String.eqb (outcome e) "answered") entries in
      let rejected_ :=
        count_if (fun e => startswith (outcome e) "rejected") entries in
      Some {| summary_total := length entries;
              summary_answered := answered_;
              summary_rejected := rejected_ |}
  end.

(** One turn at the prompt: a line typed (as [input] returns it) with
    what the clock reads when its log entry is written, or an
    interrupt (KeyboardInterrupt, EOFError).  The end of the list of
    turns is the end of the input. *)
Inductive Turn : Type :=
| Typed (line : string) (now : string)
| Interrupted.

Definition set_clock (now : string) (w : World) : World :=
  {| log_file := log_file w; wall_clock := now |}.

(** The [while True] loop of [main]. *)
Fixpoint main_loop (turns : list Turn) (model : SentenceTransformer)
    (collection : Collection) (llm : Ollama) (fmt2 : float -> string)
    (w : World) : World :=
  match turns with
  | [] => w
  | Interrupted :: _ => w
  | Typed line now :: rest =>
      let query_ := Py.strip line in
      if String.eqb query_ "" then
        main_loop rest model collection llm fmt2 w
      else if String.eqb (lower query_) "quit"
              || String.eqb (lower query_) "exit" then w
      else
        main_loop rest model collection llm fmt2
          (ask query_ model collection llm fmt2 (set_clock now w))
  end.

(** [main], once [load_resources] has returned the model and the
    collection: the summary printed at start-up and the world after
    the loop. *)
Definition main (turns : list Turn) (model : SentenceTransformer)
    (collection : Collection) (llm : Ollama) (fmt2 : float -> string)
    (w : World) : option LogSummary * World :=
  (print_log_summary w, main_loop turns model collection llm fmt2 w).

End Query.

(* ===================================================================== *)
(** * Part II: properties *)
(* ===================================================================== *)

(** ** Facts about binary64 comparison *)

Module FloatFacts.

Lemma SFcompare_antisym (a b : spec_float) :
  SFcompare b a = CompOpp <$> SFcompare a b.
Proof.
  destruct a as [sa| sa | |sa ma ea], b as [sb|sb| |sb mb eb]; simpl;
    try reflexivity;
    try (destruct sa; reflexivity); try (destruct sb; reflexivity);
    try (destruct sa, sb; reflexivity).
  destruct sa, sb; simpl; try reflexivity;
    rewrite (Z.compare_antisym ea eb);
    destruct (ea ?= eb)%Z eqn:He; simpl; try reflexivity;
    change (Pos.compare_cont Eq mb ma) with (Pos.compare mb ma);
    change (Pos.compare_cont Eq ma mb) with (Pos.compare ma mb);
    rewrite (Pos.compare_antisym ma mb); try reflexivity.
Qed.

(** [a <= b] excludes [b < a]. *)
Lemma leb_not_ltb (a b : float) :
  (a <=? b)%float = true -> (b <? a)%float = false.
Proof.
  rewrite leb_spec, ltb_spec. unfold SFleb, SFltb.
  rewrite (SFcompare_antisym (Prim2SF a) (Prim2SF b)).
  destruct (SFcompare (Prim2SF a) (Prim2SF b)) as [[]|]; simpl; congruence.
Qed.

(** [a < b] excludes [b <= a]. *)
Lemma ltb_not_leb (a b : float) :
  (a <? b)%float = true -> (b <=? a)%float = false.
Proof.
  rewrite leb_spec, ltb_spec. unfold SFleb, SFltb.
  rewrite (SFcompare_antisym (Prim2SF a) (Prim2SF b)).
  destruct (SFcompare (Prim2SF a) (Prim2SF b)) as [[]|]; simpl; congruence.
Qed.

End FloatFacts.

(** ** Retrieval and the gate *)

Module QueryProps.

Import Index Query.

(** Whether the loop keeps a row, and the result dict it builds. *)
Definition keeps (row : string * Metadata * float) : bool :=
  (MIN_SIMILARITY <=? 1 - row.2)%float.

Definition result_of (row : string * Metadata * float) : Retrieved :=
  {| text := row.1.1; film := meta_film row.1.2;
     heading := meta_heading row.1.2; similarity := (1 - row.2)%float |}.

Lemma retrieve_step_spec chunks row :
  retrieve_step chunks row =
  if keeps row then chunks ++ [result_of row] else chunks.
Proof. destruct row as [[doc meta] dist]. reflexivity. Qed.

(** The loop of [retrieve] is a filter followed by a map. *)
Lemma retrieve_loop rows acc :
  fold_left retrieve_step rows acc =
  acc ++ map result_of (List.filter keeps rows).
Proof.
  revert acc. induction rows as [|row rows IH]; intros acc; simpl.
  - by rewrite app_nil_r.
  - rewrite IH, retrieve_step_spec. destruct (keeps row); simpl.
    + by rewrite <- app_assoc.
    + done.
Qed.

Definition rows_of (q : string) (model : SentenceTransformer)
    (collection : Collection) : list (string * Metadata * float) :=
  let results := query collection (encode model q) TOP_K in
  Py.zip3 (documents results) (metadatas results) (distances results).

Lemma retrieve_filter q model collection :
  retrieve q model collection =
  map result_of (List.filter keeps (rows_of q model collection)).
Proof. unfold retrieve. by rewrite retrieve_loop. Qed.

Lemma zip3_distance {A B C} (xs : list A) (ys : list B) (zs : list C) row :
  In row (Py.zip3 xs ys zs) -> In row.2 zs.
Proof.
  revert ys zs. induction xs as [|x xs IH]; intros [|y ys] [|z zs]; simpl;
    try tauto.
  intros [<- | H]; [by left | right; eauto].
Qed.

(** What [retrieve] keeps: results built from a returned distance whose
    similarity passed the test of the loop. *)
Lemma retrieve_kept q model collection c :
  In c (retrieve q model collection) ->
  exists dist,
    In dist (distances (query collection (encode model q) TOP_K))
    /\ similarity c = (1 - dist)%float
    /\ (MIN_SIMILARITY <=? 1 - dist)%float = true.
Proof.
  rewrite retrieve_filter. intros Hc.
  apply in_map_iff in Hc as (row & <- & Hrow).
  apply filter_In in Hrow as [Hin Hkeep].
  exists row.2. split; [by apply zip3_distance in Hin|]. by split.
Qed.

(** C4: every result that [retrieve] returns carries a similarity
    [1 - distance], for a distance the index returned, that is greater
    than or equal to [MIN_SIMILARITY]; none is below it. *)
Theorem retrieve_never_below_threshold q model collection :
  Forall (fun c =>
            (MIN_SIMILARITY <=? similarity c)%float = true
            /\ (similarity c <? MIN_SIMILARITY)%float = false
            /\ exists dist,
                 In dist (distances (query collection (encode model q) TOP_K))
                 /\ similarity c = (1 - dist)%float)
         (retrieve q model collection).
Proof.
  apply List.Forall_forall. intros c Hc.
  apply retrieve_kept in Hc as (dist & Hin & -> & Hkeep).
  split; [exact Hkeep|]. split.
  - by apply FloatFacts.leb_not_ltb.
  - by exists dist.
Qed.

(** C2: the gate answers [rejected_no_chunks] exactly on the empty
    list, [rejected_low_similarity] exactly on a non-empty list whose
    first similarity is below [MIN_SIMILARITY], and [(True, answered)]
    in every other case. *)
Theorem gate_decision chunks :
  (is_context_sufficient chunks = (false, rejected_no_chunks)
     <-> chunks = [])
  /\ (is_context_sufficient chunks = (false, rejected_low_similarity)
     <-> exists c rest, chunks = c :: rest
                        /\ (similarity c <? MIN_SIMILARITY)%float = true)
  /\ (is_context_sufficient chunks = (true, answered)
     <-> exists c rest, chunks = c :: rest
                        /\ (similarity c <? MIN_SIMILARITY)%float = false).
Proof.
  destruct chunks as [|c rest]; simpl.
  - repeat split; try done; intros (c & rest & H & _); done.
  - destruct (similarity c <? MIN_SIMILARITY)%float eqn:Hlt.
    + repeat split; try done; try (intros (c' & rest' & [= <- <-] & H); congruence).
      intros _. by exists c, rest.
    + repeat split; try done; try (intros (c' & rest' & [= <- <-] & H); congruence).
      intros _. by exists c, rest.
Qed.

(** C3: on the output of [retrieve] the gate never takes its
    [rejected_low_similarity] branch: it answers [rejected_no_chunks]
    when nothing was kept and [(True, answered)] otherwise. *)
Theorem low_similarity_unreachable q model collection :
  is_context_sufficient (retrieve q model collection)
    <> (false, rejected_low_similarity)
  /\ (is_context_sufficient (retrieve q model collection)
        = (false, rejected_no_chunks)
      \/ is_context_sufficient (retrieve q model collection)
        = (true, answered)).
Proof.
  pose proof (retrieve_kept q model collection) as H.
  destruct (retrieve q model collection) as [|c rest]; simpl.
  - split; [done | by left].
  - destruct (H c (or_introl eq_refl)) as (dist & _ & -> & Hkeep).
    rewrite (FloatFacts.leb_not_ltb _ _ Hkeep). split; [done | by right].
Qed.

(** When every neighbour the index returns is below the threshold,
    [retrieve] keeps nothing and the gate sees an empty list. *)
Lemma all_below_threshold_dropped q model collection :
  Forall (fun dist => (1 - dist <? MIN_SIMILARITY)%float = true)
         (distances (query collection (encode model q) TOP_K)) ->
  retrieve q model collection = []
  /\ is_context_sufficient (retrieve q model collection)
     = (false, rejected_no_chunks).
Proof.
  intros Hlow.
  assert (List.filter keeps (rows_of q model collection) = []) as E.
  { assert (Forall (fun row => keeps row = false)
                   (rows_of q model collection)) as Hrows.
    { apply List.Forall_forall. intros row Hin. apply zip3_distance in Hin.
      rewrite List.Forall_forall in Hlow. specialize (Hlow _ Hin).
      unfold keeps. by apply FloatFacts.ltb_not_leb. }
    induction Hrows as [|row rows Hrow _ IH]; [done|]. simpl. by rewrite Hrow. }
  by rewrite retrieve_filter, E.
Qed.

(** *** The query log *)

Lemma collect_tokens (stream acc : list string) :
  fold_left (fun acc token => acc ++ [token]) stream acc = acc ++ stream.
Proof.
  revert acc. induction stream as [|t stream IH]; intros acc; simpl.
  - by rewrite app_nil_r.
  - by rewrite IH, <- app_assoc.
Qed.

(** What [log_query] writes for one retrieved result. *)
Definition logged (c : Retrieved) : LoggedChunk :=
  {| log_film := film c; log_heading := heading c;
     log_similarity := Py.round4 (similarity c) |}.

(** The answer [ask] records: the concatenated stream when the gate
    lets the query through, [None] when it rejects it. *)
Definition final_answer (q : string) (chunks : list Retrieved) (llm : Ollama)
    (fmt2 : float -> string) : option string :=
  if (is_context_sufficient chunks).1
  then Some (Py.join (chat llm OLLAMA_MODEL (ask_messages fmt2 q chunks)))
  else None.

(** The claim as the specification words it: one entry is appended and
    it holds every retrieved similarity as retrieved. *)
Definition logs_verbatim (q : string) (model : SentenceTransformer)
    (collection : Collection) (llm : Ollama) (fmt2 : float -> string)
    (w : World) : Prop :=
  let chunks := retrieve q model collection in
  exists e,
    log_file (ask q model collection llm fmt2 w) = log_file w ++ [e]
    /\ entry_query e = q
    /\ outcome e = (is_context_sufficient chunks).2
    /\ top_similarity e = similarity <$> head chunks
    /\ map (fun l => (log_film l, log_heading l, log_similarity l))
           (chunks_retrieved e)
       = map (fun c => (film c, heading c, similarity c)) chunks
    /\ answer e = final_answer q chunks llm fmt2.

(** Concrete collaborators for the evaluations below. *)
Definition demo_model : SentenceTransformer :=
  {| encode := fun _ => [0%float]; encode_batch := map (fun _ => [0%float]) |}.

Definition demo_metadata : Metadata :=
  {| meta_film := "A New Hope"; meta_scene_id := 1;
     meta_heading := "INT. DEATH STAR"; meta_chunk_index := 0;
     meta_total_chunks := 1 |}.

(** An index that returns a single neighbour at distance [d]. *)
Definition one_neighbour (d : float) : Collection :=
  {| query := fun _ _ =>
       {| documents := ["That's no moon."%string];
          metadatas := [demo_metadata];
          distances := [d] |} |}.

Definition demo_llm : Ollama :=
  {| chat := fun _ _ => ["It is "; "a space station."]%string |}.

Definition demo_fmt2 (x : float) : string := "0.00"%string.

Definition demo_world : World :=
  {| log_file := []; wall_clock := "2025-01-01T00:00:00"%string |}.

(** C1 (the scenario of the specification): the index returns one
    neighbour at distance 0.70, so the best similarity is 0.30, below
    the threshold 0.45.  [retrieve] drops it, the gate sees an empty
    list, and the query is logged as [rejected_no_chunks], not as
    [rejected_low_similarity]. *)
Theorem low_similarity_logged_as_no_chunks :
  let collection := one_neighbour 0.70%float in
  let q := "Who is Rey?"%string in
  (1 - 0.70 <? MIN_SIMILARITY)%float = true
  /\ retrieve q demo_model collection = []
  /\ is_context_sufficient (retrieve q demo_model collection)
     = (false, rejected_no_chunks)
  /\ map outcome (log_file (ask q demo_model collection demo_llm demo_fmt2
                                demo_world))
     = [rejected_no_chunks]
  /\ rejected_no_chunks <> rejected_low_similarity.
Proof. vm_compute. repeat split; try reflexivity. discriminate. Qed.

(** C7 as stated fails: a result retrieved with similarity
    [1 - 0.123456] is logged with similarity 0.8765. *)
Lemma log_rounds_similarity :
  ~ logs_verbatim "Is it a moon?"%string demo_model
      (one_neighbour 0.123456%float) demo_llm demo_fmt2 demo_world.
Proof.
  intros (e & Hlog & _ & _ & _ & Hsim & _).
  apply app_inj_tail in Hlog as [_ <-].
  apply (f_equal (fun l => match l with
                           | (_, _, x) :: _ => (x =? 1 - 0.123456)%float
                           | [] => true
                           end)) in Hsim.
  vm_compute in Hsim. discriminate.
Qed.

(** C7 (amended): [ask] appends exactly one entry to the log, whatever
    the gate decides.  The entry holds the query, the gate's outcome,
    the first retrieved similarity as retrieved ([None] when nothing
    was retained), the film and heading of every retrieved result with
    its similarity rounded to four decimal places, and the answer
    ([None] when the query was rejected). *)
Theorem ask_appends_one_entry q model collection llm fmt2 w :
  let chunks := retrieve q model collection in
  log_file (ask q model collection llm fmt2 w) =
  log_file w ++
  [ {| timestamp := wall_clock w;
       entry_query := q;
       outcome := (is_context_sufficient chunks).2;
       top_similarity := similarity <$> head chunks;
       chunks_retrieved := map logged chunks;
       answer := final_answer q chunks llm fmt2 |} ].
Proof.
  intros chunks. unfold ask, final_answer. fold chunks.
  destruct chunks as [|c rest] eqn:E; simpl.
  - reflexivity.
  - destruct (similarity c <? MIN_SIMILARITY)%float; simpl.
    + reflexivity.
    + by rewrite collect_tokens.
Qed.

End QueryProps.

(** ** Film titles and scene segmentation *)

Module IngestProps.

Import Regex Ingest.

(** C8 (the example of the docstring and of the claim): only hyphens
    are replaced by spaces, so the underscores of ['a_new_hope.txt']
    survive and the title is ['A_New_Hope'], not ['A New Hope'].  The
    hyphenated name does map to ['A New Hope']. *)
Theorem underscores_survive_in_title :
  derive_film_title "a_new_hope.txt" = "A_New_Hope"%string
  /\ derive_film_title "a_new_hope.txt" <> "A New Hope"%string
  /\ derive_film_title "a-new-hope.txt" = "A New Hope"%string.
Proof. vm_compute. repeat split; try reflexivity. discriminate. Qed.

(** *** The scene loop *)

(** The Document that one header contributes, if its span is kept. *)
Definition scene_of (cleaned_text film_title : string)
    (headers : list (nat * string)) (it : nat * (nat * string))
  : option Document :=
  let scene_text :=
    Py.strip (Py.slice cleaned_text it.2.1
                (scene_end cleaned_text headers it.1)) in
  if Py.len scene_text <? 30 then None
  else Some {| film := film_title; scene_id := Z.of_nat it.1 + 1;
               heading := it.2.2; text := scene_text |}.

Lemma scene_step_spec cleaned_text film_title headers scenes it :
  scene_step cleaned_text film_title headers scenes it =
  match scene_of cleaned_text film_title headers it with
  | Some d => scenes ++ [d]
  | None => scenes
  end.
Proof.
  destruct it as [i [start hd]]. unfold scene_step, scene_of; simpl.
  by destruct (_ <? 30).
Qed.

Lemma scene_loop cleaned_text film_title headers its scenes :
  fold_left (scene_step cleaned_text film_title headers) its scenes =
  scenes ++ omap (scene_of cleaned_text film_title headers) its.
Proof.
  revert scenes. induction its as [|it its IH]; intros scenes; simpl.
  - by rewrite app_nil_r.
  - rewrite IH, scene_step_spec.
    destruct (scene_of _ _ _ it); simpl; [by rewrite <- app_assoc | done].
Qed.

Lemma extract_scenes_headers cleaned_text film_title :
  find_headers cleaned_text <> [] ->
  extract_scenes cleaned_text film_title =
  omap (scene_of cleaned_text film_title (find_headers cleaned_text))
       (enumerate (find_headers cleaned_text)).
Proof.
  intros Hne. unfold extract_scenes.
  destruct (find_headers cleaned_text) as [|h hs] eqn:E; [done|].
  by rewrite scene_loop.
Qed.

Lemma extract_scenes_fallback cleaned_text film_title :
  find_headers cleaned_text = [] ->
  extract_scenes cleaned_text film_title =
  [ full_script cleaned_text film_title ].
Proof. intros E. unfold extract_scenes. by rewrite E. Qed.

(** The ids handed out over [combine (seq k n) hs] rise strictly and
    stay above [k]. *)
Lemma scene_ids_from cleaned_text film_title headers k (hs : list (nat * string)) :
  let docs := omap (scene_of cleaned_text film_title headers)
                   (combine (seq k (length hs)) hs) in
  StronglySorted Z.lt (map scene_id docs)
  /\ Forall (fun d => (Z.of_nat k < scene_id d)%Z) docs.
Proof.
  revert k. induction hs as [|h hs IH]; intros k; simpl.
  - split; constructor.
  - destruct (IH (S k)) as [Hs Hb].
    destruct (scene_of cleaned_text film_title headers (k, h)) as [d|] eqn:Ed.
    + assert (scene_id d = (Z.of_nat k + 1)%Z) as Hd.
      { unfold scene_of in Ed. destruct (_ <? 30); [done|].
        by injection Ed as <-. }
      split.
      * simpl. constructor; [exact Hs|].
        rewrite Hd. apply Forall_map. eapply Forall_impl; [exact Hb|].
        simpl. intros; lia.
      * constructor; [lia|]. eapply Forall_impl; [exact Hb|].
        simpl. intros; lia.
    + split; [exact Hs|]. eapply Forall_impl; [exact Hb|].
      simpl. intros; lia.
Qed.

Lemma sorted_lt_nodup (l : list Z) : StronglySorted Z.lt l -> NoDup l.
Proof.
  induction 1 as [|x l Hs IH Hx]; constructor; [|exact IH].
  intros Hin. rewrite Forall_forall in Hx. specialize (Hx x Hin). lia.
Qed.

Lemma enumerate_lookup {A} (xs : list A) k i x :
  In (i, x) (combine (seq k (length xs)) xs) -> xs !! (i - k) = Some x /\ k <= i.
Proof.
  revert k. induction xs as [|y xs IH]; intros k; simpl; [tauto|].
  intros [[= <- <-]|H].
  - by rewrite Nat.sub_diag.
  - apply IH in H as [H ?]. split; [|lia].
    replace (i - k) with (S (i - S k)) by lia. exact H.
Qed.

(** Every kept scene comes from a header: its id is that header's
    position plus one, its heading that header's. *)
Lemma scene_of_header cleaned_text film_title headers d :
  In d (omap (scene_of cleaned_text film_title headers) (enumerate headers)) ->
  film d = film_title
  /\ exists i h, headers !! i = Some h
                 /\ scene_id d = (Z.of_nat i + 1)%Z /\ heading d = h.2.
Proof.
  rewrite <- list_elem_of_In, list_elem_of_omap.
  intros ([i h] & Hin & Hd). rewrite list_elem_of_In in Hin.
  apply enumerate_lookup in Hin as [Hh _]. rewrite Nat.sub_0_r in Hh.
  unfold scene_of in Hd. destruct (_ <? 30); [done|]. injection Hd as <-.
  simpl. split; [done|]. by exists i, h.
Qed.

(** C9: the scene ids of the Documents that [extract_scenes] returns
    rise strictly in header order (each is its header's position plus
    one), hence are unique for the film.  When no header is detected
    the output is the single Document with id 0 and heading
    ["FULL SCRIPT"] holding the whole text; when a header is detected
    every id is at least 1, so id 0 occurs in the fallback only. *)
Theorem scene_ids_unique_increasing cleaned_text film_title :
  let docs := extract_scenes cleaned_text film_title in
  StronglySorted Z.lt (map scene_id docs)
  /\ NoDup (map scene_id docs)
  /\ Forall (fun d => film d = film_title) docs
  /\ match find_headers cleaned_text with
     | [] => docs = [ {| film := film_title; scene_id := 0;
                         heading := "FULL SCRIPT"; text := cleaned_text |} ]
     | headers =>
         Forall (fun d => (1 <= scene_id d)%Z
                          /\ exists i h, headers !! i = Some h
                               /\ scene_id d = (Z.of_nat i + 1)%Z
                               /\ heading d = h.2) docs
     end.
Proof.
  intros docs. subst docs.
  destruct (find_headers cleaned_text) as [|h hs] eqn:E.
  - rewrite extract_scenes_fallback by done. simpl.
    repeat split; repeat constructor; set_solver.
  - rewrite extract_scenes_headers by (rewrite E; done). rewrite E.
    pose proof (scene_ids_from cleaned_text film_title (h :: hs) 0 (h :: hs))
      as [Hs Hb].
    fold (enumerate (h :: hs)) in Hs, Hb.
    split; [exact Hs|]. split; [by apply sorted_lt_nodup|].
    split.
    + apply List.Forall_forall. intros d Hd.
      by apply scene_of_header in Hd as [? _].
    + apply List.Forall_forall. intros d Hd. split.
      * rewrite List.Forall_forall in Hb. specialize (Hb d Hd). simpl in Hb. lia.
      * by apply scene_of_header in Hd as [_ ?].
Qed.

(** *** Matches of [scene_pattern] are never empty *)

(** The least number of characters that a match of [r] spans. *)
Fixpoint min_len (r : regex) : nat :=
  match r with
  | Lit _ | Class _ | Plus _ | PlusLazy _ => 1
  | Bol | Eol | Opt _ => 0
  | Seq r1 r2 => min_len r1 + min_len r2
  | Alt r1 r2 => Nat.min (min_len r1) (min_len r2)
  | Group r1 => min_len r1
  end.

Lemma orelse_some {A} (a b : option A) x :
  orelse a b = Some x -> a = Some x \/ b = Some x.
Proof. destruct a; simpl; auto. Qed.

Lemma plus_greedy_progress p s ps g k x :
  plus_greedy p s ps g k = Some x ->
  exists st, k st = Some x /\ ps + 1 <= pos st.
Proof.
  revert ps. induction s as [|a s IH]; intros ps; simpl; [done|].
  destruct (p a); [|done]. intros [H|H]%orelse_some.
  - apply IH in H as (st & ? & ?). exists st. split; [done | lia].
  - eexists. split; [exact H|]. simpl. lia.
Qed.

Lemma plus_lazy_progress p s ps g k x :
  plus_lazy p s ps g k = Some x ->
  exists st, k st = Some x /\ ps + 1 <= pos st.
Proof.
  revert ps. induction s as [|a s IH]; intros ps; simpl; [done|].
  destruct (p a); [|done]. intros [H|H]%orelse_some.
  - eexists. split; [exact H|]. simpl. lia.
  - apply IH in H as (st & ? & ?). exists st. split; [done | lia].
Qed.

(** A successful run hands its continuation a state at least
    [min_len r] characters further on. *)
Lemma run_progress r :
  forall st k x,
    run r st k = Some x ->
    exists st', k st' = Some x /\ pos st + min_len r <= pos st'.
Proof.
  induction r as [c|p| | |r1 IH1 r2 IH2|r1 IH1 r2 IH2|r1 IH1|p|p|r1 IH1];
    intros st k x; simpl.
  - destruct (rest st) as [|a s']; [done|]. destruct (Ascii.eqb a c); [|done].
    intros H. eexists. split; [exact H|]. simpl. lia.
  - destruct (rest st) as [|a s']; [done|]. destruct (p a); [|done].
    intros H. eexists. split; [exact H|]. simpl. lia.
  - intros H. exists st. split; [|lia].
    destruct (prev st) as [a|]; [|done]. by destruct (Py.is_newline a).
  - intros H. exists st. split; [|lia].
    destruct (rest st) as [|a ?]; [done|]. by destruct (Py.is_newline a).
  - intros H. apply IH1 in H as (st1 & H & ?).
    apply IH2 in H as (st2 & H & ?). exists st2. split; [done | lia].
  - intros [H|H]%orelse_some.
    + apply IH1 in H as (st' & ? & ?). exists st'. split; [done | lia].
    + apply IH2 in H as (st' & ? & ?). exists st'. split; [done | lia].
  - intros [H|H]%orelse_some.
    + apply IH1 in H as (st' & ? & ?). exists st'. split; [done | lia].
    + exists st. split; [done | lia].
  - intros H. apply plus_greedy_progress in H as (st' & ? & ?). by exists st'.
  - intros H. apply plus_lazy_progress in H as (st' & ? & ?). by exists st'.
  - intros H. apply IH1 in H as (st' & H & ?). eexists. split; [exact H|].
    simpl. lia.
Qed.

(** A match of [scene_pattern] spans at least five characters, so the
    empty-match case of [finditer_from] never arises for it. *)
Lemma scene_match_nonempty ps pv s st :
  match_at scene_pattern ps pv s = Some st -> ps + 5 <= pos st.
Proof.
  intros H. apply run_progress in H as (st' & [= ->] & H). exact H.
Qed.

(** *** Scene spans *)

Lemma append_cons (c : ascii) (a b : string) :
  (String c a +:+ b)%string = String c (a +:+ b).
Proof. reflexivity. Qed.

Lemma append_empty_r (a : string) : (a +:+ EmptyString)%string = a.
Proof. induction a as [|c a IH]; [done|]. by rewrite append_cons, IH. Qed.

Lemma str_take_drop (n : nat) (s : string) : (Py.take n s +:+ Py.drop n s)%string = s.
Proof.
  revert s. induction n as [|n IH]; intros [|c s]; simpl; try done.
  by rewrite append_cons, IH.
Qed.

Lemma str_drop_drop (a b : nat) (s : string) :
  Py.drop a (Py.drop b s) = Py.drop (b + a) s.
Proof.
  revert s. induction b as [|b IH]; intros [|c s]; simpl; try done.
  by destruct a.
Qed.

Lemma str_len_drop (n : nat) (s : string) : Py.len (Py.drop n s) = Py.len s - n.
Proof.
  revert s. induction n as [|n IH]; intros [|c s]; simpl; done.
Qed.

Lemma str_take_all (n : nat) (s : string) : Py.len s <= n -> Py.take n s = s.
Proof.
  revert s. induction n as [|n IH]; intros [|c s]; simpl; try done.
  - unfold Py.len; simpl; lia.
  - unfold Py.len; simpl. intros H. rewrite IH; [done|]. unfold Py.len; lia.
Qed.

(** Two adjacent slices glue into the rest of the text. *)
Lemma slice_then_drop (s : string) (a b : nat) :
  a <= b -> (Py.slice s a b +:+ Py.drop b s)%string = Py.drop a s.
Proof.
  intros Hab. unfold Py.slice.
  replace (Py.drop b s) with (Py.drop (b - a) (Py.drop a s))
    by (rewrite str_drop_drop; f_equal; lia).
  apply str_take_drop.
Qed.

Lemma slice_to_end (s : string) (a : nat) :
  Py.slice s a (Py.len s) = Py.drop a s.
Proof. unfold Py.slice. apply str_take_all. rewrite str_len_drop. lia. Qed.

(** The match positions that [finditer] reports rise strictly and lie
    inside the text. *)
Lemma finditer_from_starts r s :
  forall skip ps pv,
    StronglySorted lt (map m_start (finditer_from r skip ps pv s))
    /\ Forall (fun m => ps <= m_start m <= ps + Py.len s)
              (finditer_from r skip ps pv s).
Proof.
  induction s as [|a s IH]; intros skip ps pv.
  - destruct skip; simpl; [|split; constructor].
    destruct (match_at r ps pv ""); simpl; split; repeat constructor; simpl; lia.
  - assert (forall n pv',
              StronglySorted lt (map m_start (finditer_from r n (S ps) pv' s))
              /\ Forall (fun m => ps < m_start m <= ps + Py.len (String a s))
                        (finditer_from r n (S ps) pv' s)) as Hrec.
    { intros n pv'. destruct (IH n (S ps) pv') as [Hs Hb]. split; [done|].
      eapply Forall_impl; [exact Hb|]. unfold Py.len; simpl. intros; lia. }
    destruct skip; simpl.
    + destruct (match_at r ps pv (String a s)) as [st|].
      * destruct (Hrec (pos st - ps - 1) (Some a)) as [Hs Hb]. split.
        -- simpl. constructor; [done|]. apply Forall_map.
           eapply Forall_impl; [exact Hb|]. simpl; intros; lia.
        -- constructor; [unfold Py.len; simpl; lia|].
           eapply Forall_impl; [exact Hb|]. simpl; intros; lia.
      * destruct (Hrec 0 (Some a)) as [Hs Hb]. split; [done|].
        eapply Forall_impl; [exact Hb|]. simpl; intros; lia.
    + destruct (Hrec skip (Some a)) as [Hs Hb]. split; [done|].
      eapply Forall_impl; [exact Hb|]. simpl; intros; lia.
Qed.

Lemma header_starts cleaned_text :
  StronglySorted lt (map fst (find_headers cleaned_text))
  /\ Forall (fun a => a <= Py.len cleaned_text)
            (map fst (find_headers cleaned_text)).
Proof.
  unfold find_headers, finditer. rewrite map_map. simpl.
  destruct (finditer_from_starts scene_pattern cleaned_text 0 0 None) as [Hs Hb].
  split; [exact Hs|]. apply Forall_map.
  eapply Forall_impl; [exact Hb|]. simpl; intros; lia.
Qed.

(** The text cut at the positions [starts]: each piece runs to the next
    position, the last one to the end of the text. *)
Fixpoint cut (cleaned_text : string) (starts : list nat) : list string :=
  match starts with
  | [] => []
  | a :: rest =>
      Py.slice cleaned_text a (hd (Py.len cleaned_text) rest)
      :: cut cleaned_text rest
  end.

Lemma cut_join cleaned_text starts :
  StronglySorted lt starts ->
  Forall (fun a => a <= Py.len cleaned_text) starts ->
  Py.join (cut cleaned_text starts) =
  match starts with
  | [] => EmptyString
  | a :: _ => Py.drop a cleaned_text
  end.
Proof.
  induction 1 as [|a rest Hs IH Ha]; intros Hb; [done|].
  apply Forall_cons in Hb as [Hlen Hb]. simpl. specialize (IH Hb).
  unfold Py.join in *. rewrite IH. destruct rest as [|b rest]; simpl.
  - rewrite slice_to_end. apply append_empty_r.
  - apply slice_then_drop. apply Forall_cons in Ha as [Hab _]. lia.
Qed.

(** The span of the text that belongs to a header: from its start to
    the start of the next header, or to the end of the text. *)
Definition span_of (cleaned_text : string) (headers : list (nat * string))
    (it : nat * (nat * string)) : string :=
  Py.slice cleaned_text it.2.1 (scene_end cleaned_text headers it.1).

Definition raw_spans (cleaned_text : string) : list string :=
  let headers := find_headers cleaned_text in
  map (span_of cleaned_text headers) (enumerate headers).

Lemma spans_cut cleaned_text (pre suf : list (nat * string)) :
  map (span_of cleaned_text (pre ++ suf))
      (combine (seq (length pre) (length suf)) suf)
  = cut cleaned_text (map fst suf).
Proof.
  revert pre. induction suf as [|h suf IH]; intros pre; [done|].
  simpl. f_equal.
  - unfold span_of, scene_end; simpl. f_equal.
    rewrite lookup_app_r by lia.
    replace (length pre + 1 - length pre) with 1 by lia. simpl.
    by destruct suf as [|[b ?] ?].
  - specialize (IH (pre ++ [h])). rewrite <- app_assoc in IH. simpl in IH.
    rewrite length_app in IH. simpl in IH.
    by replace (length pre + 1) with (S (length pre)) in IH by lia.
Qed.

Lemma raw_spans_cut cleaned_text :
  raw_spans cleaned_text = cut cleaned_text (map fst (find_headers cleaned_text)).
Proof. apply (spans_cut cleaned_text []). Qed.

Lemma kept_texts cleaned_text film_title headers its :
  map text (omap (scene_of cleaned_text film_title headers) its) =
  List.filter (fun t => negb (Py.len t <? 30))
    (map Py.strip (map (span_of cleaned_text headers) its)).
Proof.
  induction its as [|it its IH]; [done|]. simpl. rewrite <- IH.
  unfold scene_of at 1. fold (span_of cleaned_text headers it).
  by destruct (Py.len _ <? 30).
Qed.

(** *** Reconstruction of the text from the scenes *)

Definition line (s : string) : string := (s +:+ String Py.newline EmptyString)%string.

(** Two scenes, each longer than 30 characters. *)
Definition two_scenes : string :=
  (line "INT. DEATH STAR - CONTROL ROOM" +:+ line "Vader enters."
   +:+ line "EXT. TATOOINE - DESERT - DAY" +:+ "Luke watches the suns.")%string.

(** The scenario of the specification:
    ["INT. X - DAY\nHello\nEXT. Y - NIGHT\nWorld"]. *)
Definition short_scenes : string :=
  (line "INT. X - DAY" +:+ line "Hello" +:+ line "EXT. Y - NIGHT" +:+ "World")%string.

(** Where the first detected header starts. *)
Definition first_start (cleaned_text : string) : nat :=
  match find_headers cleaned_text with
  | (a, _) :: _ => a
  | [] => 0
  end.

(** C5 as stated fails.  In [two_scenes] both headers are detected and
    both scenes are returned, but trimmed: the line break between them
    is gone from the concatenation.  In [short_scenes] both headers are
    detected and no Document is returned at all, both spans being
    shorter than 30 characters. *)
Lemma scenes_do_not_rebuild_text :
  (find_headers two_scenes <> []
   /\ Py.join (map text (extract_scenes two_scenes "A New Hope")) <> two_scenes)
  /\ (find_headers short_scenes <> []
      /\ extract_scenes short_scenes "A New Hope" = []
      /\ Py.join (map text (extract_scenes short_scenes "A New Hope"))
         <> short_scenes).
Proof.
  vm_compute. repeat split; try discriminate.
Qed.

(** C5 (amended): when at least one header is detected, the spans that
    run from each header's start to the next header's start (the last
    one to the end of the text), concatenated in header order, rebuild
    the cleaned text from the first header on; and the texts of the
    Documents that [extract_scenes] returns are, in order, those spans
    trimmed of surrounding whitespace, without the ones that trim to
    fewer than 30 characters. *)
Theorem scenes_are_trimmed_spans cleaned_text film_title :
  find_headers cleaned_text <> [] ->
  (Py.take (first_start cleaned_text) cleaned_text
     +:+ Py.join (raw_spans cleaned_text))%string = cleaned_text
  /\ map text (extract_scenes cleaned_text film_title)
     = List.filter (fun t => negb (Py.len t <? 30))
         (map Py.strip (raw_spans cleaned_text)).
Proof.
  intros Hne. split.
  - rewrite raw_spans_cut.
    destruct (header_starts cleaned_text) as [Hs Hb].
    rewrite (cut_join _ _ Hs Hb). unfold first_start.
    destruct (find_headers cleaned_text) as [|[a hd] hs]; [done|].
    apply str_take_drop.
  - rewrite extract_scenes_headers by done. apply kept_texts.
Qed.

Lemma scenes_are_trimmed_spans_witness :
  find_headers two_scenes <> []
  /\ ((Py.take (first_start two_scenes) two_scenes
         +:+ Py.join (raw_spans two_scenes))%string = two_scenes
      /\ map text (extract_scenes two_scenes "A New Hope")
         = List.filter (fun t => negb (Py.len t <? 30))
             (map Py.strip (raw_spans two_scenes))).
Proof.
  split.
  - vm_compute. discriminate.
  - apply (scenes_are_trimmed_spans two_scenes "A New Hope").
    vm_compute. discriminate.
Defined.

End IngestProps.

(** ** Chunk numbering *)

Module ChunkerProps.

Import Chunker.

(** The chunks that the inner loop emits for the pieces [xs] of one
    Document, the first of them with id [c] and index [i]. *)
Fixpoint emit (doc : Ingest.Document) (total : nat) (c : Z) (i : nat)
    (xs : list string) : list Chunk :=
  match xs with
  | [] => []
  | t :: xs' =>
      {| chunk_id := c; film := Ingest.film doc;
         scene_id := Ingest.scene_id doc; heading := Ingest.heading doc;
         chunk_index := Z.of_nat i; total_chunks := Z.of_nat total;
         text := t |} :: emit doc total (c + 1) (S i) xs'
  end.

(** The chunks of one Document, the first with id [c]. *)
Definition doc_chunks (splitter : TextSplitter) (c : Z)
    (doc : Ingest.Document) : list Chunk :=
  let splits := split_text splitter (Ingest.text doc) in
  emit doc (length splits) c 0 splits.

(** The chunks of [docs], Document by Document, ids starting at [c]. *)
Fixpoint groups_from (splitter : TextSplitter) (c : Z)
    (docs : list Ingest.Document) : list (list Chunk) :=
  match docs with
  | [] => []
  | d :: ds =>
      doc_chunks splitter c d
      :: groups_from splitter
           (c + Z.of_nat (length (split_text splitter (Ingest.text d)))) ds
  end.

Lemma inner_loop doc splits xs i acc c :
  fold_left (chunk_step doc splits) (combine (seq i (length xs)) xs) (acc, c)
  = (acc ++ emit doc (length splits) c i xs, (c + Z.of_nat (length xs))%Z).
Proof.
  revert i acc c. induction xs as [|t xs IH]; intros i acc c; simpl.
  - rewrite app_nil_r. f_equal. lia.
  - rewrite IH. rewrite <- app_assoc. simpl. f_equal. lia.
Qed.

Lemma outer_loop splitter docs acc c :
  (fold_left (doc_step splitter) docs (acc, c)).1
  = acc ++ concat (groups_from splitter c docs).
Proof.
  revert acc c. induction docs as [|d ds IH]; intros acc c; simpl.
  - by rewrite app_nil_r.
  - unfold doc_step at 2, Ingest.enumerate. rewrite inner_loop, IH.
    by rewrite <- app_assoc.
Qed.

Lemma chunk_documents_groups splitter docs :
  chunk_documents splitter docs = concat (groups_from splitter 0 docs).
Proof. unfold chunk_documents. by rewrite outer_loop. Qed.

(** What [emit] writes into the chunks. *)
Lemma emit_length doc total c i xs : length (emit doc total c i xs) = length xs.
Proof. revert c i. induction xs; intros; simpl; auto. Qed.

Lemma emit_ids doc total c i xs :
  map chunk_id (emit doc total c i xs)
  = map (fun j => (c + Z.of_nat j)%Z) (seq 0 (length xs)).
Proof.
  revert c i. induction xs as [|t xs IH]; intros c i; simpl; [done|].
  f_equal; [lia|]. rewrite IH, <- seq_shift, map_map.
  apply map_ext. intros; lia.
Qed.

Lemma emit_indices doc total c i xs :
  map chunk_index (emit doc total c i xs)
  = map Z.of_nat (seq i (length xs)).
Proof.
  revert c i. induction xs as [|t xs IH]; intros c i; simpl; [done|].
  by rewrite IH.
Qed.

Lemma emit_texts doc total c i xs : map text (emit doc total c i xs) = xs.
Proof.
  revert c i. induction xs as [|t xs IH]; intros c i; simpl; [done|].
  by rewrite IH.
Qed.

Lemma emit_fields doc total c i xs :
  Forall (fun ch => total_chunks ch = Z.of_nat total
                    /\ film ch = Ingest.film doc
                    /\ scene_id ch = Ingest.scene_id doc
                    /\ heading ch = Ingest.heading doc)
         (emit doc total c i xs).
Proof.
  revert c i. induction xs as [|t xs IH]; intros c i; simpl;
    constructor; auto.
Qed.

(** Ids run on from one Document to the next. *)
Lemma groups_ids splitter c docs :
  map chunk_id (concat (groups_from splitter c docs))
  = map (fun j => (c + Z.of_nat j)%Z)
        (seq 0 (length (concat (groups_from splitter c docs)))).
Proof.
  revert c. induction docs as [|d ds IH]; intros c; simpl; [done|].
  rewrite map_app, length_app, seq_app, map_app. unfold doc_chunks.
  rewrite emit_ids, emit_length. f_equal. rewrite IH.
  set (k := length (split_text splitter (Ingest.text d))).
  set (n := length (concat (groups_from splitter (c + Z.of_nat k) ds))).
  replace (seq (0 + k) n) with (Nat.add k <$> seq 0 n)
    by (rewrite fmap_add_seq; f_equal; lia).
  change (Nat.add k <$> seq 0 n) with (map (Nat.add k) (seq 0 n)).
  rewrite map_map. apply map_ext. intros; lia.
Qed.

(** The ids that [chunk_documents] hands out are 0, 1, 2, ... *)
Lemma chunk_documents_ids splitter docs :
  map chunk_id (chunk_documents splitter docs)
  = map Z.of_nat (seq 0 (length (chunk_documents splitter docs))).
Proof.
  rewrite chunk_documents_groups, groups_ids. apply map_ext. intros; lia.
Qed.

Lemma chunk_documents_ids_nodup splitter docs :
  NoDup (map chunk_id (chunk_documents splitter docs)).
Proof.
  rewrite chunk_documents_ids.
  change (map Z.of_nat ?l) with (Z.of_nat <$> l).
  apply (NoDup_fmap_2 Z.of_nat), NoDup_seq.
Qed.

(** What ties a Document to the group of chunks it produced. *)
Definition group_of (splitter : TextSplitter) (doc : Ingest.Document)
    (g : list Chunk) : Prop :=
  map text g = split_text splitter (Ingest.text doc)
  /\ map chunk_index g = map Z.of_nat (seq 0 (length g))
  /\ Forall (fun ch => total_chunks ch = Z.of_nat (length g)
                       /\ film ch = Ingest.film doc
                       /\ scene_id ch = Ingest.scene_id doc
                       /\ heading ch = Ingest.heading doc) g.

Lemma groups_per_document splitter c docs :
  Forall2 (group_of splitter) docs (groups_from splitter c docs).
Proof.
  revert c. induction docs as [|d ds IH]; intros c; simpl; constructor; [|apply IH].
  unfold group_of, doc_chunks.
  rewrite emit_texts, emit_indices, emit_length.
  repeat split; try done. apply emit_fields.
Qed.

(** Every chunk belongs to a Document of the list and carries its
    film, its scene id and its number of chunks. *)
Lemma chunk_parent splitter c docs ch :
  In ch (concat (groups_from splitter c docs)) ->
  exists i d, docs !! i = Some d
    /\ film ch = Ingest.film d /\ scene_id ch = Ingest.scene_id d
    /\ total_chunks ch
       = Z.of_nat (length (split_text splitter (Ingest.text d))).
Proof.
  revert c. induction docs as [|d ds IH]; intros c; simpl; [tauto|].
  rewrite in_app_iff. intros [H|H].
  - exists 0, d. split; [done|]. unfold doc_chunks in H.
    pose proof (emit_fields d (length (split_text splitter (Ingest.text d)))
                  c 0 (split_text splitter (Ingest.text d))) as F.
    rewrite List.Forall_forall in F. destruct (F ch H) as (? & ? & ? & ?).
    auto.
  - apply IH in H as (i & d' & ? & ?). by exists (S i), d'.
Qed.

(** The (film, scene_id) pair of a Document. *)
Definition doc_key (d : Ingest.Document) : string * Z :=
  (Ingest.film d, Ingest.scene_id d).

(** The third part of the claim as stated: chunks that share the
    (film, scene_id) pair share [total_chunks]. *)
Definition same_pair_same_total (chunks : list Chunk) : Prop :=
  forall c1 c2, In c1 chunks -> In c2 chunks ->
    film c1 = film c2 -> scene_id c1 = scene_id c2 ->
    total_chunks c1 = total_chunks c2.

Lemma distinct_pairs_same_total splitter docs :
  NoDup (map doc_key docs) ->
  same_pair_same_total (chunk_documents splitter docs).
Proof.
  intros Hnd c1 c2 H1 H2 Hf Hs. rewrite chunk_documents_groups in H1, H2.
  apply chunk_parent in H1 as (i1 & d1 & Hd1 & Hf1 & Hs1 & ->).
  apply chunk_parent in H2 as (i2 & d2 & Hd2 & Hf2 & Hs2 & ->).
  assert (i1 = i2) as <-.
  { apply (NoDup_lookup (map doc_key docs) i1 i2 (doc_key d1)); [done| |].
    - change (map doc_key docs) with (doc_key <$> docs).
      by rewrite list_lookup_fmap, Hd1.
    - change (map doc_key docs) with (doc_key <$> docs).
      rewrite list_lookup_fmap, Hd2. simpl. unfold doc_key. congruence. }
  congruence.
Qed.

(** Two Documents with one (film, scene_id) pair and different numbers
    of pieces break it, whatever the splitter. *)
Lemma shared_pair_breaks_total splitter d1 d2 t1 t2 rest1 rest2 :
  doc_key d1 = doc_key d2 ->
  split_text splitter (Ingest.text d1) = t1 :: rest1 ->
  split_text splitter (Ingest.text d2) = t2 :: rest2 ->
  length rest1 <> length rest2 ->
  ~ same_pair_same_total (chunk_documents splitter [d1; d2]).
Proof.
  intros [= Hf Hs] E1 E2 Hlen H. rewrite chunk_documents_groups in H.
  simpl in H. unfold doc_chunks in H. rewrite E1, E2, app_nil_r in H. simpl in H.
  match type of H with
  | same_pair_same_total (?a :: ?l1 ++ ?b :: ?l2) =>
      specialize (H a b (or_introl eq_refl))
  end.
  simpl in H. rewrite in_app_iff in H. simpl in H.
  specialize (H (or_intror (or_intror (or_introl eq_refl))) Hf Hs).
  lia.
Qed.

(** The splitter on a text without separators or whitespace: windows
    of [CHUNK_SIZE] characters, each starting [CHUNK_OVERLAP]
    characters before the end of the previous one. *)
Fixpoint windows (fuel : nat) (s : string) : list string :=
  match fuel with
  | O => []
  | S fuel' =>
      if Py.len s <=? CHUNK_SIZE then [s]
      else Py.take CHUNK_SIZE s
           :: windows fuel' (Py.drop (CHUNK_SIZE - CHUNK_OVERLAP) s)
  end.

Definition window_splitter : TextSplitter :=
  {| split_text := fun s =>
       match s with
       | EmptyString => []
       | _ => windows (Py.len s) s
       end |}.

Fixpoint replicate_char (n : nat) (c : ascii) : string :=
  match n with
  | O => EmptyString
  | S n' => String c (replicate_char n' c)
  end.

(** Two scripts of one scene each, free of whitespace; the scene of
    the second is 604 characters long. *)
Definition first_script : string := "INT.Luke_stares_at_the_twin_suns.".
Definition second_script : string := ("EXT." +:+ replicate_char 600 "a")%string.

(** What ingestion yields for the files ['a new hope.txt'] and
    ['a-new-hope.txt'] holding these scripts: both names derive the
    title ['A New Hope'], and each script's only scene gets id 1. *)
Definition clashing_docs : list Ingest.Document :=
  Ingest.extract_scenes first_script (Ingest.derive_film_title "a new hope.txt")
  ++ Ingest.extract_scenes second_script
       (Ingest.derive_film_title "a-new-hope.txt").

Lemma clashing_docs_value :
  clashing_docs =
  [ {| Ingest.film := "A New Hope"; Ingest.scene_id := 1;
       Ingest.heading := first_script; Ingest.text := first_script |};
    {| Ingest.film := "A New Hope"; Ingest.scene_id := 1;
       Ingest.heading := second_script; Ingest.text := second_script |} ].
Proof. vm_compute. reflexivity. Qed.

(** C10 as stated fails on lists in which two Documents share a
    (film, scene_id) pair: the chunk of the first Document carries
    [total_chunks = 1], the two chunks of the second carry 2. *)
Lemma shared_pair_different_totals :
  let chunks := chunk_documents window_splitter clashing_docs in
  map (fun c => (film c, scene_id c, total_chunks c)) chunks
  = [ ("A New Hope"%string, 1%Z, 1%Z); ("A New Hope"%string, 1%Z, 2%Z);
      ("A New Hope"%string, 1%Z, 2%Z) ]
  /\ ~ same_pair_same_total chunks.
Proof.
  split.
  - vm_compute. reflexivity.
  - rewrite clashing_docs_value. eapply shared_pair_breaks_total.
    + reflexivity.
    + vm_compute. reflexivity.
    + vm_compute. reflexivity.
    + simpl. lia.
Qed.

(** C10 (amended): chunk ids are 0, 1, 2, ... in emission order, hence
    strictly increasing and unique over the whole corpus; the chunks
    fall into one group per Document, in order, and within a group
    [chunk_index] runs 0, 1, 2, ... and every chunk carries the
    Document's film, scene id and heading and a [total_chunks] equal
    to the size of the group; chunks that share a (film, scene_id) pair
    share [total_chunks] provided no two Documents of the list share
    that pair. *)
Theorem chunk_numbering splitter docs :
  let chunks := chunk_documents splitter docs in
  map chunk_id chunks = map Z.of_nat (seq 0 (length chunks))
  /\ StronglySorted Z.lt (map chunk_id chunks)
  /\ NoDup (map chunk_id chunks)
  /\ (exists groups, chunks = concat groups
                     /\ Forall2 (group_of splitter) docs groups)
  /\ (NoDup (map doc_key docs) -> same_pair_same_total chunks).
Proof.
  intros chunks.
  assert (map chunk_id chunks = map Z.of_nat (seq 0 (length chunks))) as Hids
    by apply chunk_documents_ids.
  assert (StronglySorted Z.lt (map chunk_id chunks)) as Hsorted.
  { rewrite Hids. generalize 0 as k. generalize (length chunks) as n.
    induction n as [|n IH]; intros k; simpl; constructor; [apply IH|].
    apply List.Forall_forall. intros z Hz.
    apply in_map_iff in Hz as (j & <- & Hj). apply in_seq in Hj. lia. }
  repeat split; try done.
  - by apply IngestProps.sorted_lt_nodup.
  - exists (groups_from splitter 0 docs). split.
    + apply chunk_documents_groups.
    + apply groups_per_document.
  - apply distinct_pairs_same_total.
Qed.

(** One Document per pair: the hypothesis of the last part holds and
    the theorem applies. *)
Definition distinct_docs : list Ingest.Document :=
  [ {| Ingest.film := "A New Hope"; Ingest.scene_id := 1;
       Ingest.heading := first_script; Ingest.text := first_script |};
    {| Ingest.film := "A New Hope"; Ingest.scene_id := 2;
       Ingest.heading := second_script; Ingest.text := second_script |} ].

Lemma chunk_numbering_witness :
  NoDup (map doc_key distinct_docs)
  /\ same_pair_same_total (chunk_documents window_splitter distinct_docs).
Proof.
  assert (NoDup (map doc_key distinct_docs)) as H.
  { simpl. repeat constructor; set_solver. }
  split; [exact H|].
  exact (proj2 (proj2 (proj2 (proj2
    (chunk_numbering window_splitter distinct_docs)))) H).
Defined.

End ChunkerProps.

(** ** Rebuilding the index *)

Module IndexProps.

Import Index.

(** The id under which a chunk is stored. *)
Definition chunk_key (c : Chunker.Chunk) : string :=
  Py.str_of_int (Chunker.chunk_id c).

Lemma str_of_int_inj (a b : Z) : Py.str_of_int a = Py.str_of_int b -> a = b.
Proof.
  unfold Py.str_of_int. intros H.
  apply (f_equal NilZero.int_of_string) in H.
  assert (forall z, Z.to_int z <> Decimal.Pos Decimal.Nil
                    /\ Z.to_int z <> Decimal.Neg Decimal.Nil) as Hnn.
  { intros [|p|p]; simpl; split; try discriminate;
      intros [= Hp]; by apply (DecimalPos.Unsigned.to_uint_nonnil p). }
  rewrite !NilZero.isi in H by apply Hnn.
  injection H as H. by apply DecimalZ.to_int_inj.
Qed.

Lemma chunk_keys_nodup (chunks : list Chunker.Chunk) :
  NoDup (map Chunker.chunk_id chunks) -> NoDup (map chunk_key chunks).
Proof.
  intros H. unfold chunk_key. rewrite <- (map_map Chunker.chunk_id Py.str_of_int).
  apply (NoDup_fmap_2_strong Py.str_of_int); [|exact H].
  intros x y _ _. apply str_of_int_inj.
Qed.

(** *** Batches *)

(** Cutting a list into slices of [b] elements loses nothing. *)
Lemma slices_concat {A} (b n : nat) (xs : list A) :
  length xs <= n * b ->
  concat (map (fun i => list_slice xs (i * b) ((i + 1) * b)) (seq 0 n)) = xs.
Proof.
  revert xs. induction n as [|n IH]; intros xs Hlen.
  - destruct xs; [done | simpl in Hlen; lia].
  - rewrite <- cons_seq, <- fmap_S_seq. simpl.
    change (S <$> seq 0 n) with (map S (seq 0 n)). rewrite map_map.
    transitivity (take b xs ++ drop b xs); [|apply take_drop]. f_equal.
    + unfold list_slice. simpl. f_equal. lia.
    + rewrite <- (IH (drop b xs)) by (rewrite length_drop; simpl in Hlen; lia).
      f_equal. apply map_ext. intros i. unfold list_slice.
      rewrite drop_drop. f_equal; lia.
Qed.

Lemma total_batches_cover (len b : nat) :
  0 < b -> len <= (len + b - 1) / b * b.
Proof.
  intros Hb. pose proof (Nat.div_mod_eq (len + b - 1) b) as E.
  pose proof (Nat.mod_upper_bound (len + b - 1) b) as U. nia.
Qed.

Lemma batch_in_range (len b i : nat) :
  0 < b -> i < (len + b - 1) / b -> i * b < len.
Proof.
  intros Hb Hi.
  pose proof (Nat.Div0.mul_div_le (len + b - 1) b) as U. nia.
Qed.

(** The slice of batch [i]. *)
Definition batch_of (chunks : list Chunker.Chunk) (i : nat)
  : list Chunker.Chunk :=
  list_slice chunks (i * BATCH_SIZE) ((i + 1) * BATCH_SIZE).

(** The records that batch [i] hands to [collection.add]. *)
Definition batch_records (chunks : list Chunker.Chunk)
    (model : SentenceTransformer) (i : nat) : list (string * Entry) :=
  let batch := batch_of chunks i in
  zip_records (map chunk_key batch) (map Chunker.text batch)
              (encode_batch model (map Chunker.text batch))
              (map chunk_metadata batch).

Lemma batch_sublist chunks i : batch_of chunks i `sublist_of` chunks.
Proof.
  unfold batch_of, list_slice.
  etrans; [apply sublist_take | apply sublist_drop].
Qed.

Lemma batch_nonempty chunks i :
  i < (length chunks + BATCH_SIZE - 1) / BATCH_SIZE -> batch_of chunks i <> [].
Proof.
  intros Hi. apply batch_in_range in Hi; [|unfold BATCH_SIZE; lia].
  intros E. apply (f_equal length) in E. unfold batch_of, list_slice in E.
  rewrite length_take, length_drop in E. simpl in E.
  unfold BATCH_SIZE in *. lia.
Qed.

Lemma batches_concat chunks :
  concat (map (batch_of chunks)
              (seq 0 ((length chunks + BATCH_SIZE - 1) / BATCH_SIZE)))
  = chunks.
Proof.
  apply (slices_concat BATCH_SIZE). apply total_batches_cover.
  unfold BATCH_SIZE; lia.
Qed.

(** *** The collection after [add] *)

Lemma zip_records_ids ids docs embs metas :
  length docs = length ids -> length embs = length ids ->
  length metas = length ids ->
  map fst (zip_records ids docs embs metas) = ids.
Proof.
  revert docs embs metas.
  induction ids as [|i ids IH]; intros [|d docs] [|e embs] [|m metas];
    simpl; intros Hd He Hm; try discriminate; [done|].
  f_equal. apply IH; congruence.
Qed.

Lemma add_records_dom (rs : list (string * Entry)) (es : gmap string Entry) :
  dom (fold_left add_record rs es) = dom es ∪ list_to_set (map fst rs).
Proof.
  revert es. induction rs as [|r rs IH]; intros es; simpl.
  - set_solver.
  - rewrite IH. unfold add_record. destruct (es !! r.1) eqn:E.
    + apply elem_of_dom_2 in E. set_solver.
    + rewrite dom_insert_L. set_solver.
Qed.

Lemma collection_add_ok name ids docs embs metas (st : Store) c :
  st !! name = Some c ->
  ids <> [] -> NoDup ids ->
  length docs = length ids -> length embs = length ids ->
  length metas = length ids ->
  collection_add name ids docs embs metas st
  = Some (<[name := {| coll_metadata := coll_metadata c;
                       entries := fold_left add_record
                                    (zip_records ids docs embs metas)
                                    (entries c) |}]> st).
Proof.
  intros Hc ? ? ? ? ?. unfold collection_add. rewrite Hc. simpl.
  by rewrite bool_decide_true.
Qed.

(** The batch loop never removes the collection. *)
Lemma loop_keeps_collection chunks model (bs : list nat) (st st' : Store) :
  is_Some (st !! COLLECTION_NAME) ->
  for_each (batch_step chunks model) bs st = Some st' ->
  is_Some (st' !! COLLECTION_NAME).
Proof.
  revert st. induction bs as [|i bs IH]; intros st Hs; simpl.
  - by intros [= <-].
  - destruct (batch_step chunks model st i) as [st1|] eqn:E; [|done]. simpl.
    apply IH. unfold batch_step, collection_add in E.
    destruct (st !! COLLECTION_NAME) as [c|]; [|done]. simpl in E.
    case_bool_decide; [|done]. injection E as <-.
    rewrite lookup_insert_eq. by eexists.
Qed.

(** *** What the client lists *)

Lemma name_in_names (st : Store) name :
  name_in name (list_collections ListsNames st) = true
  <-> is_Some (st !! name).
Proof.
  unfold name_in, list_collections. rewrite existsb_exists. split.
  - intros (x & Hx & Hn). apply in_map_iff in Hx as (n & <- & Hin).
    apply String.eqb_eq in Hn as <-.
    rewrite <- list_elem_of_In in Hin.
    by apply elem_of_elements, elem_of_dom in Hin.
  - intros Hs. exists (ListedName name). split; [|apply String.eqb_refl].
    apply in_map. rewrite <- list_elem_of_In.
    by apply elem_of_elements, elem_of_dom.
Qed.

Lemma name_in_collections (st : Store) name :
  name_in name (list_collections ListsCollections st) = false.
Proof.
  unfold name_in, list_collections.
  induction (elements (dom st)) as [|n ns IH]; [done|]. exact IH.
Qed.

Section Batches.

Variable chunks : list Chunker.Chunk.
Variable model : SentenceTransformer.
Hypothesis keys_nodup : NoDup (map chunk_key chunks).
Hypothesis encode_length :
  forall texts, length (encode_batch model texts) = length texts.

Lemma batch_step_ok (st : Store) md es i :
  st !! COLLECTION_NAME = Some {| coll_metadata := md; entries := es |} ->
  i < (length chunks + BATCH_SIZE - 1) / BATCH_SIZE ->
  batch_step chunks model st i
  = Some (<[COLLECTION_NAME :=
              {| coll_metadata := md;
                 entries := fold_left add_record
                              (batch_records chunks model i) es |}]> st).
Proof.
  intros Hst Hi. unfold batch_step. fold (batch_of chunks i).
  fold chunk_key.
  change (map (fun c => Py.str_of_int (Chunker.chunk_id c)) (batch_of chunks i))
    with (map chunk_key (batch_of chunks i)).
  rewrite (collection_add_ok _ _ _ _ _ _ _ Hst); [done|..].
  - intros E. apply map_eq_nil in E. by apply batch_nonempty in Hi.
  - apply (sublist_NoDup _ (map chunk_key chunks)); [exact keys_nodup|].
    apply (fmap_sublist chunk_key), batch_sublist.
  - by rewrite !length_map.
  - by rewrite encode_length, !length_map.
  - by rewrite !length_map.
Qed.

Lemma batches_loop (bs : list nat) :
  forall (st : Store) md es,
    st !! COLLECTION_NAME = Some {| coll_metadata := md; entries := es |} ->
    Forall (fun i => i < (length chunks + BATCH_SIZE - 1) / BATCH_SIZE) bs ->
    for_each (batch_step chunks model) bs st
    = Some (<[COLLECTION_NAME :=
                {| coll_metadata := md;
                   entries := fold_left add_record
                                (concat (map (batch_records chunks model) bs))
                                es |}]> st).
Proof.
  induction bs as [|i bs IH]; intros st md es Hst Hbs; simpl.
  - by rewrite insert_id.
  - apply Forall_cons in Hbs as [Hi Hbs].
    rewrite (batch_step_ok st md es i Hst Hi). simpl.
    rewrite (IH _ md (fold_left add_record (batch_records chunks model i) es));
      [|by rewrite lookup_insert_eq | done].
    by rewrite insert_insert_eq, fold_left_app.
Qed.

Lemma all_record_ids :
  map fst (concat (map (batch_records chunks model)
                       (seq 0 ((length chunks + BATCH_SIZE - 1) / BATCH_SIZE))))
  = map chunk_key chunks.
Proof.
  rewrite <- (batches_concat chunks) at 3.
  generalize (seq 0 ((length chunks + BATCH_SIZE - 1) / BATCH_SIZE)) as bs.
  induction bs as [|i bs IH]; simpl; [done|].
  rewrite !map_app, IH. f_equal. unfold batch_records.
  apply zip_records_ids.
  - by rewrite !length_map.
  - by rewrite encode_length, !length_map.
  - by rewrite !length_map.
Qed.

(** Creating the collection in a store that has none of that name, and
    filling it. *)
Lemma create_and_fill (st0 : Store) :
  st0 !! COLLECTION_NAME = None ->
  exists es,
    (st2 ← create_collection COLLECTION_NAME
             [("hnsw:space"%string, "cosine"%string)] st0;
     st3 ← for_each (batch_step chunks model)
             (seq 0 ((length chunks + BATCH_SIZE - 1) / BATCH_SIZE)) st2;
     Some (st3, COLLECTION_NAME))
    = Some (<[COLLECTION_NAME :=
                {| coll_metadata := [("hnsw:space"%string, "cosine"%string)];
                   entries := es |}]> st0, COLLECTION_NAME)
    /\ es = fold_left add_record
              (concat (map (batch_records chunks model)
                 (seq 0 ((length chunks + BATCH_SIZE - 1) / BATCH_SIZE)))) ∅
    /\ dom es = list_to_set (map chunk_key chunks)
    /\ size es = length chunks.
Proof.
  intros Hn. eexists. split; [|split; [reflexivity|]].
  - unfold create_collection. rewrite Hn. cbn -[Nat.div].
    rewrite (batches_loop _ _ [("hnsw:space"%string, "cosine"%string)] ∅);
      [|by rewrite lookup_insert_eq
       |apply List.Forall_forall; intros i Hi; apply in_seq in Hi;
        destruct Hi as [_ Hi]; exact Hi].
    cbn -[Nat.div]. by rewrite insert_insert_eq.
  - assert (dom (fold_left add_record
              (concat (map (batch_records chunks model)
                 (seq 0 ((length chunks + BATCH_SIZE - 1) / BATCH_SIZE)))) ∅)
            = (list_to_set (map chunk_key chunks) : gset string)) as Hdom.
    { rewrite add_records_dom, all_record_ids, dom_empty_L. set_solver. }
    split; [exact Hdom|].
    rewrite <- size_dom, Hdom, size_list_to_set by exact keys_nodup.
    apply length_map.
Qed.

(** One run of [build_chroma_collection] with a client that lists
    names, from any store. *)
Lemma build_result (st : Store) :
  exists es,
    build_chroma_collection ListsNames chunks model st
    = Some (<[COLLECTION_NAME :=
                {| coll_metadata := [("hnsw:space"%string, "cosine"%string)];
                   entries := es |}]> st, COLLECTION_NAME)
    /\ es = fold_left add_record
              (concat (map (batch_records chunks model)
                 (seq 0 ((length chunks + BATCH_SIZE - 1) / BATCH_SIZE)))) ∅
    /\ dom es = list_to_set (map chunk_key chunks)
    /\ size es = length chunks.
Proof.
  unfold build_chroma_collection.
  destruct (name_in COLLECTION_NAME (list_collections ListsNames st)) eqn:Hin.
  - apply name_in_names in Hin as [c Hc].
    unfold delete_collection. rewrite Hc. cbn -[Nat.div].
    destruct (create_and_fill (delete COLLECTION_NAME st))
      as (es & E & Hes & Hdom & Hsize); [apply lookup_delete_eq|].
    exists es. rewrite E, insert_delete_eq. done.
  - assert (st !! COLLECTION_NAME = None) as Hn.
    { destruct (st !! COLLECTION_NAME) as [c|] eqn:Hc; [|done].
      assert (name_in COLLECTION_NAME (list_collections ListsNames st) = true)
        as Hyes by (apply name_in_names; by exists c).
      congruence. }
    cbn -[Nat.div]. destruct (create_and_fill st Hn) as (es & E & H).
    exists es. by rewrite E.
Qed.

(** A successful run of [build_chroma_collection], whatever the client
    lists. *)
Lemma build_success api (st st1 : Store) h :
  build_chroma_collection api chunks model st = Some (st1, h) ->
  exists es,
    st1 = <[COLLECTION_NAME :=
              {| coll_metadata := [("hnsw:space"%string, "cosine"%string)];
                 entries := es |}]> st
    /\ h = COLLECTION_NAME
    /\ es = fold_left add_record
              (concat (map (batch_records chunks model)
                 (seq 0 ((length chunks + BATCH_SIZE - 1) / BATCH_SIZE)))) ∅
    /\ dom es = list_to_set (map chunk_key chunks)
    /\ size es = length chunks.
Proof.
  destruct api.
  - destruct (build_result st) as (es & E & H). rewrite E.
    intros [= <- <-]. by exists es.
  - unfold build_chroma_collection. rewrite name_in_collections.
    cbn -[Nat.div].
    destruct (st !! COLLECTION_NAME) as [c|] eqn:Hc.
    + unfold create_collection. by rewrite Hc.
    + destruct (create_and_fill st Hc) as (es & E & H). rewrite E.
      intros [= <- <-]. by exists es.
Qed.

End Batches.

(** [load_chunks] keeps the chunks that pass the length filter, in
    order. *)
Lemma load_chunks_filter (file : list Chunker.Chunk) :
  load_chunks file
  = List.filter (fun c => MIN_CHUNK_LENGTH <=? Py.len (Chunker.text c)) file.
Proof.
  unfold load_chunks. induction file as [|c file IH]; [done|].
  rewrite filter_cons. cbn [List.filter]. rewrite <- IH.
  destruct (Nat.leb_spec MIN_CHUNK_LENGTH (Py.len (Chunker.text c))).
  - by rewrite decide_True.
  - by rewrite decide_False by lia.
Qed.

Lemma load_chunks_ids_nodup (file : list Chunker.Chunk) :
  NoDup (map Chunker.chunk_id file) ->
  NoDup (map Chunker.chunk_id (load_chunks file)).
Proof.
  intros H. apply (sublist_NoDup _ (map Chunker.chunk_id file)); [done|].
  apply (fmap_sublist Chunker.chunk_id). unfold load_chunks.
  apply sublist_filter.
Qed.

(** The ids of the chunks that survive the length filter. *)
Definition surviving_ids (file : list Chunker.Chunk) : gset string :=
  list_to_set (map chunk_key (load_chunks file)).


(** With a client whose [list_collections] returns Collection objects
    the test [COLLECTION_NAME in existing] never holds: nothing is
    deleted, and a build from a store that holds a collection of that
    name raises in [create_collection]; so does a second run on the
    store that a first run left. *)
Lemma stale_collection_blocks_rebuild (chunks : list Chunker.Chunk)
    (model : SentenceTransformer) (st : Store) :
  (is_Some (st !! COLLECTION_NAME) ->
   build_chroma_collection ListsCollections chunks model st = None)
  /\ forall st1 h,
       build_chroma_collection ListsCollections chunks model st = Some (st1, h) ->
       build_chroma_collection ListsCollections chunks model st1 = None.
Proof.
  assert (forall st0 : Store,
            is_Some (st0 !! COLLECTION_NAME) ->
            build_chroma_collection ListsCollections chunks model st0 = None)
    as Hblocked.
  { intros st0 [c Hc]. unfold build_chroma_collection.
    rewrite name_in_collections. cbn -[Nat.div].
    unfold create_collection. by rewrite Hc. }
  split; [apply Hblocked|]. intros st1 h Hrun. apply Hblocked.
  unfold build_chroma_collection in Hrun.
  rewrite name_in_collections in Hrun. cbn -[Nat.div] in Hrun.
  unfold create_collection in Hrun.
  destruct (st !! COLLECTION_NAME); [done|]. cbn -[Nat.div] in Hrun.
  destruct (for_each _ _ _) as [st3|] eqn:Eloop; [|done].
  cbn -[Nat.div] in Hrun. injection Hrun as <- _.
  eapply loop_keeps_collection; [|exact Eloop].
  by rewrite lookup_insert_eq.
Qed.

(** The offline pipeline end to end: what the Chunker writes always
    meets the hypothesis on the chunk ids, so indexing its output
    leaves exactly one entry per chunk that survives the filter. *)
Corollary index_after_chunking (splitter : Chunker.TextSplitter)
    (docs : list Ingest.Document) (model : SentenceTransformer) (st : Store) :
  (forall texts, length (encode_batch model texts) = length texts) ->
  let file := Chunker.chunk_documents splitter docs in
  exists st1 c,
    build_chroma_collection ListsNames (load_chunks file) model st
      = Some (st1, COLLECTION_NAME)
    /\ st1 !! COLLECTION_NAME = Some c
    /\ dom (entries c) = surviving_ids file
    /\ size (entries c) = length (load_chunks file).
Proof.
  intros Henc file.
  assert (NoDup (map chunk_key (load_chunks file))) as Hkeys.
  { apply chunk_keys_nodup, load_chunks_ids_nodup.
    apply ChunkerProps.chunk_documents_ids_nodup. }
  destruct (build_result (load_chunks file) model Hkeys Henc st)
    as (es & Hrun & _ & Hdom & Hsize).
  eexists _, _. split; [exact Hrun|]. rewrite lookup_insert_eq.
  by repeat split.
Qed.

(** A chunk file of three chunks, the second too short to be indexed. *)
Definition demo_chunk (id : Z) (t : string) : Chunker.Chunk :=
  {| Chunker.chunk_id := id; Chunker.film := "A New Hope";
     Chunker.scene_id := 1; Chunker.heading := "INT. DEATH STAR";
     Chunker.chunk_index := id; Chunker.total_chunks := 3;
     Chunker.text := t |}.

Definition demo_file : list Chunker.Chunk :=
  [ demo_chunk 0 "That's no moon."; demo_chunk 1 "No.";
    demo_chunk 2 "It's a space station." ].

Definition unit_model : SentenceTransformer :=
  {| encode := fun _ => [0%float];
     encode_batch := map (fun _ => [0%float]) |}.

(** A store that already holds a collection called [COLLECTION_NAME],
    with an entry whose id no chunk of [demo_file] has. *)
Definition stale_store : Store :=
  {[ COLLECTION_NAME :=
       {| coll_metadata := [];
          entries := {[ "99"%string :=
                          {| document := "stale"; embedding := [];
                             metadata := chunk_metadata (demo_chunk 99 "stale") |} ]} |} ]}.


End IndexProps.

(* ===================================================================== *)
(** * Part III: further properties of the scripts *)
(* ===================================================================== *)

(** ** [02_chunk.py]: what chunking keeps, and the statistics *)

Module ChunkerExtras.

Import Chunker ChunkerProps.

(** The pieces of every Document, in order. *)
Definition all_splits (splitter : TextSplitter) (docs : list Ingest.Document)
  : list string :=
  concat (map (fun d => split_text splitter (Ingest.text d)) docs).

Lemma groups_texts splitter c docs :
  map text (concat (groups_from splitter c docs)) = all_splits splitter docs.
Proof.
  revert c. induction docs as [|d ds IH]; intros c; [done|].
  unfold all_splits in *. simpl. rewrite map_app, IH. f_equal.
  apply emit_texts.
Qed.

(** X1: the chunk texts are exactly the pieces the splitter returned,
    Document after Document, none lost, added or reordered; so there
    are as many chunks as pieces. *)
Theorem chunk_texts_are_the_splits splitter docs :
  map text (chunk_documents splitter docs) = all_splits splitter docs
  /\ length (chunk_documents splitter docs)
     = length (all_splits splitter docs).
Proof.
  assert (map text (chunk_documents splitter docs) = all_splits splitter docs)
    as H by (rewrite chunk_documents_groups; apply groups_texts).
  split; [exact H|]. by rewrite <- H, length_map.
Qed.

Lemma emit_bounds doc total c i xs :
  i + length xs <= total ->
  Forall (fun ch => (Z.of_nat i <= chunk_index ch < total_chunks ch)%Z
                    /\ (chunk_id ch - chunk_index ch = c - Z.of_nat i)%Z)
         (emit doc total c i xs).
Proof.
  revert c i. induction xs as [|t xs IH]; intros c i Hle; simpl in *;
    constructor.
  - simpl. lia.
  - eapply Forall_impl; [apply (IH (c + 1)%Z (S i)); lia|].
    simpl. intros; lia.
Qed.

Lemma groups_bounds splitter c docs :
  (0 <= c)%Z ->
  Forall (fun ch => (0 <= chunk_index ch < total_chunks ch)%Z
                    /\ (chunk_index ch <= chunk_id ch)%Z)
         (concat (groups_from splitter c docs)).
Proof.
  revert c. induction docs as [|d ds IH]; intros c Hc; simpl; [constructor|].
  apply Forall_app. split; [|apply IH; lia].
  unfold doc_chunks. eapply Forall_impl; [apply emit_bounds; simpl; lia|].
  simpl. intros; lia.
Qed.

(** X2: every chunk has [0 <= chunk_index < total_chunks] (so
    [total_chunks >= 1]) and a [chunk_id] that is not below its
    [chunk_index]. *)
Theorem chunk_index_in_range splitter docs :
  Forall (fun ch => (0 <= chunk_index ch < total_chunks ch)%Z
                    /\ (chunk_index ch <= chunk_id ch)%Z)
         (chunk_documents splitter docs).
Proof. rewrite chunk_documents_groups. by apply groups_bounds. Qed.

(** The chunk [ch] with its id moved up by [k]. *)
Definition renumber (k : Z) (ch : Chunk) : Chunk :=
  {| chunk_id := chunk_id ch + k; film := film ch; scene_id := scene_id ch;
     heading := heading ch; chunk_index := chunk_index ch;
     total_chunks := total_chunks ch; text := text ch |}.

Lemma emit_renumber doc total c k i xs :
  emit doc total (c + k) i xs = map (renumber k) (emit doc total c i xs).
Proof.
  revert c i. induction xs as [|t xs IH]; intros c i; simpl; [done|].
  f_equal. replace (c + k + 1)%Z with (c + 1 + k)%Z by lia. apply IH.
Qed.

Lemma groups_renumber splitter c k docs :
  concat (groups_from splitter (c + k) docs)
  = map (renumber k) (concat (groups_from splitter c docs)).
Proof.
  revert c. induction docs as [|d ds IH]; intros c; simpl; [done|].
  rewrite map_app. unfold doc_chunks. rewrite emit_renumber. f_equal.
  rewrite <- IH. do 2 f_equal. lia.
Qed.

Lemma groups_app splitter c ds1 ds2 :
  concat (groups_from splitter c (ds1 ++ ds2))
  = concat (groups_from splitter c ds1)
    ++ concat (groups_from splitter
         (c + Z.of_nat (length (concat (groups_from splitter c ds1)))) ds2).
Proof.
  revert c. induction ds1 as [|d ds IH]; intros c; simpl.
  - do 2 f_equal. lia.
  - rewrite IH, <- app_assoc, length_app.
    unfold doc_chunks at 3. rewrite emit_length.
    by rewrite Nat2Z.inj_add, Z.add_assoc.
Qed.

(** X3: chunking two lists of Documents one after the other is
    chunking each on its own, except that the ids of the second part
    are moved up by the number of chunks of the first. *)
Theorem chunk_documents_app splitter ds1 ds2 :
  chunk_documents splitter (ds1 ++ ds2)
  = chunk_documents splitter ds1
    ++ map (renumber (Z.of_nat (length (chunk_documents splitter ds1))))
           (chunk_documents splitter ds2).
Proof.
  rewrite !chunk_documents_groups, groups_app. f_equal.
  rewrite <- groups_renumber. reflexivity.
Qed.

(** *** Statistics *)

Lemma py_sum_from (xs : list nat) (a : nat) :
  fold_left Nat.add xs a = a + py_sum xs.
Proof.
  unfold py_sum. revert a. induction xs as [|x xs IH]; intros a; simpl; [lia|].
  rewrite IH, (IH x). lia.
Qed.

Lemma py_sum_cons (x : nat) (xs : list nat) : py_sum (x :: xs) = x + py_sum xs.
Proof. unfold py_sum at 1. simpl. apply py_sum_from. Qed.

Lemma fold_min_spec (rest : list nat) (x : nat) :
  fold_left Nat.min rest x <= x
  /\ Forall (fun y => fold_left Nat.min rest x <= y) rest
  /\ In (fold_left Nat.min rest x) (x :: rest).
Proof.
  revert x. induction rest as [|y rest IH]; intros x; simpl.
  - split; [lia|]. split; [constructor | by left].
  - destruct (IH (Nat.min x y)) as (H1 & H2 & H3). split; [lia|]. split.
    + constructor; [lia | exact H2].
    + destruct H3 as [H3|H3]; [|by right; right].
      rewrite <- H3.
      destruct (Nat.min_spec x y) as [[_ E]|[_ E]]; rewrite E; auto.
Qed.

Lemma fold_max_spec (rest : list nat) (x : nat) :
  x <= fold_left Nat.max rest x
  /\ Forall (fun y => y <= fold_left Nat.max rest x) rest
  /\ In (fold_left Nat.max rest x) (x :: rest).
Proof.
  revert x. induction rest as [|y rest IH]; intros x; simpl.
  - split; [lia|]. split; [constructor | by left].
  - destruct (IH (Nat.max x y)) as (H1 & H2 & H3). split; [lia|]. split.
    + constructor; [lia | exact H2].
    + destruct H3 as [H3|H3]; [|by right; right].
      rewrite <- H3.
      destruct (Nat.max_spec x y) as [[_ E]|[_ E]]; rewrite E; auto.
Qed.

Lemma py_min_spec (xs : list nat) (m : nat) :
  py_min xs = Some m -> Forall (fun x => m <= x) xs /\ In m xs.
Proof.
  destruct xs as [|x rest]; [done|]. intros [= <-].
  destruct (fold_min_spec rest x) as (H1 & H2 & H3). split; [|done].
  by constructor.
Qed.

Lemma py_max_spec (xs : list nat) (m : nat) :
  py_max xs = Some m -> Forall (fun x => x <= m) xs /\ In m xs.
Proof.
  destruct xs as [|x rest]; [done|]. intros [= <-].
  destruct (fold_max_spec rest x) as (H1 & H2 & H3). split; [|done].
  by constructor.
Qed.

Lemma sum_between (xs : list nat) (lo hi : nat) :
  Forall (fun x => lo <= x <= hi) xs ->
  lo * length xs <= py_sum xs <= hi * length xs.
Proof.
  induction 1 as [|x xs Hx _ IH]; [unfold py_sum; simpl; lia|].
  rewrite py_sum_cons. simpl. lia.
Qed.

(** A floor average lies between any bounds of the values. *)
Lemma floordiv_between (xs : list nat) (lo hi avg : nat) :
  Forall (fun x => lo <= x <= hi) xs ->
  floordiv (py_sum xs) (length xs) = Some avg -> lo <= avg <= hi.
Proof.
  intros Hb. unfold floordiv. destruct (Nat.eqb_spec (length xs) 0); [done|].
  intros [= <-]. apply sum_between in Hb. split.
  - apply Nat.div_le_lower_bound; lia.
  - apply Nat.Div0.div_le_upper_bound. lia.
Qed.

(** The lengths of the chunks of film [f], in order. *)
Definition lens_of (f : string) (chunks : list Chunk) : list nat :=
  map (fun c => Py.len (text c))
      (List.filter (fun c => String.eqb (film c) f) chunks).

(** What the [setdefault] loop leaves under each film. *)
Lemma by_film_lookup (chunks : list Chunk) (m : gmap string (list nat)) f :
  fold_left setdefault_append chunks m !! f =
  match lens_of f chunks with
  | [] => m !! f
  | l => Some (default [] (m !! f) ++ l)
  end.
Proof.
  revert m. induction chunks as [|c cs IH]; intros m; [done|].
  simpl. rewrite IH. unfold lens_of, setdefault_append. simpl.
  destruct (String.eqb_spec (film c) f) as [->|Hne]; simpl.
  - rewrite lookup_insert_eq. simpl.
    destruct (map _ (List.filter _ cs)); simpl; [done|].
    by rewrite <- app_assoc.
  - by rewrite lookup_insert_ne.
Qed.

Lemma by_film_empty (chunks : list Chunk) f :
  fold_left setdefault_append chunks ∅ !! f =
  match lens_of f chunks with
  | [] => None
  | l => Some l
  end.
Proof. rewrite by_film_lookup, lookup_empty. by destruct (lens_of f chunks). Qed.

Lemma sorted_items_elem (m : gmap string (list nat)) f lens :
  In (f, lens) (sorted_items m) <-> m !! f = Some lens.
Proof.
  unfold sorted_items. rewrite <- list_elem_of_In, merge_sort_Permutation.
  apply elem_of_map_to_list.
Qed.

Lemma items_nonempty (chunks : list Chunk) f lens :
  In (f, lens) (sorted_items (fold_left setdefault_append chunks ∅)) ->
  lens = lens_of f chunks /\ lens <> [].
Proof.
  rewrite sorted_items_elem, by_film_empty.
  destruct (lens_of f chunks); [done|]. by intros [= <-].
Qed.

Lemma film_line_ok (chunks : list Chunk) item :
  In item (sorted_items (fold_left setdefault_append chunks ∅)) ->
  film_line item
  = Some {| line_film := item.1;
            line_chunks := length (lens_of item.1 chunks);
            line_avg := py_sum (lens_of item.1 chunks)
                        / length (lens_of item.1 chunks) |}
  /\ 0 < length (lens_of item.1 chunks).
Proof.
  destruct item as [f lens]. intros [-> Hne]%items_nonempty. simpl.
  unfold floordiv. destruct (lens_of f chunks) as [|x l]; [done|].
  simpl. split; [done | lia].
Qed.

(** X4: [print_stats] raises exactly on the empty chunk list (its
    average divides by the number of chunks); so the script writes
    its output file when at least one chunk was produced and stops
    before writing it otherwise. *)
Theorem stats_stop_on_no_chunks splitter docs :
  (forall chunks, print_stats chunks = None <-> chunks = [])
  /\ main splitter docs
     = match chunk_documents splitter docs with
       | [] => None
       | chunks => Some chunks
       end.
Proof.
  assert (forall chunks, print_stats chunks = None <-> chunks = []) as H.
  { intros chunks. split; [|by intros ->].
    destruct chunks as [|c cs]; [done|]. intros Hnone. exfalso.
    unfold print_stats in Hnone. set (chunks := c :: cs) in *.
    destruct (mapM_is_Some_2 film_line
                (sorted_items (fold_left setdefault_append chunks ∅)))
      as [lines Hlines].
    { apply List.Forall_forall. intros item Hin.
      destruct (film_line_ok chunks item Hin) as [E _].
      unfold compose. rewrite E. by eexists. }
    rewrite Hlines in Hnone. simpl in Hnone. done. }
  split; [exact H|]. unfold main.
  destruct (chunk_documents splitter docs) as [|c cs] eqn:E; [done|].
  destruct (print_stats (c :: cs)) eqn:Es; [done|].
  by apply H in Es.
Qed.

Lemma mapM_total {A B} (f : A -> option B) (g : A -> B) (l : list A) k :
  mapM f l = Some k -> (forall x, In x l -> f x = Some (g x)) -> k = map g l.
Proof.
  rewrite mapM_Some. induction 1 as [|x y l k Hxy _ IH]; intros Hg; [done|].
  simpl. f_equal.
  - rewrite (Hg x (or_introl eq_refl)) in Hxy. by injection Hxy.
  - apply IH. intros z Hz. apply Hg. by right.
Qed.

Lemma sorted_items_films (m : gmap string (list nat)) :
  Sorted (fun a b => String.leb a b = true) (map fst (sorted_items m))
  /\ NoDup (map fst (sorted_items m)).
Proof.
  split.
  - assert (Total (fun a b : string * list nat => String.leb a.1 b.1 : Prop))
      as Htotal.
    { intros a b. destruct (String.leb_total a.1 b.1) as [->| ->]; simpl; auto. }
    pose proof (Sorted_merge_sort
                  (fun a b : string * list nat => String.leb a.1 b.1 : Prop)
                  (map_to_list m)) as Hs.
    fold (sorted_items m) in Hs.
    induction Hs as [|a l _ IH Hhd]; simpl; constructor; [exact IH|].
    destruct Hhd as [|b l Hab]; simpl; constructor.
    by apply Is_true_true.
  - unfold sorted_items.
    change (map fst ?l) with (l.*1).
    rewrite merge_sort_Permutation. apply NoDup_fst_map_to_list.
Qed.

Lemma film_has_lens (chunks : list Chunk) c :
  In c chunks -> lens_of (film c) chunks <> [].
Proof.
  intros Hin. unfold lens_of. intros E. apply map_eq_nil in E.
  assert (In c (List.filter (fun c' => String.eqb (film c') (film c)) chunks))
    as H by (apply filter_In; split; [done | apply String.eqb_refl]).
  rewrite E in H. done.
Qed.

(** X5: when [print_stats] prints, the total is the number of chunks;
    the minimum and the maximum are lengths of actual chunks and bound
    every chunk's length and the average; the per-film lines are
    ordered by film name without repetition, every film of a chunk
    has its line, and each line gives the number of that film's chunks
    and the floor average of their lengths. *)
Theorem stats_describe_chunks chunks st :
  print_stats chunks = Some st ->
  stats_total st = length chunks
  /\ stats_min st <= stats_avg st <= stats_max st
  /\ Forall (fun c => stats_min st <= Py.len (text c) <= stats_max st) chunks
  /\ (exists c, In c chunks /\ Py.len (text c) = stats_min st)
  /\ (exists c, In c chunks /\ Py.len (text c) = stats_max st)
  /\ Sorted (fun a b => String.leb a b = true)
            (map line_film (stats_by_film st))
  /\ NoDup (map line_film (stats_by_film st))
  /\ (forall c, In c chunks -> In (film c) (map line_film (stats_by_film st)))
  /\ Forall (fun l =>
               0 < line_chunks l
               /\ line_chunks l = length (lens_of (line_film l) chunks)
               /\ line_avg l
                  = py_sum (lens_of (line_film l) chunks) / line_chunks l)
            (stats_by_film st).
Proof.
  unfold print_stats.
  set (lengths := map (fun c => Py.len (text c)) chunks).
  set (by_film := fold_left setdefault_append chunks ∅).
  destruct (floordiv (py_sum lengths) (length lengths)) as [avg|] eqn:Eavg;
    [|done].
  destruct (py_min lengths) as [mn|] eqn:Emin; [|done].
  destruct (py_max lengths) as [mx|] eqn:Emax; [|done].
  destruct (mapM film_line (sorted_items by_film)) as [lines|] eqn:Elines;
    [|done].
  simpl. intros [= <-]. simpl.
  apply py_min_spec in Emin as [Hmin Hmin_in].
  apply py_max_spec in Emax as [Hmax Hmax_in].
  assert (Forall (fun x => mn <= x <= mx) lengths) as Hboth.
  { apply List.Forall_forall. intros x Hx.
    rewrite List.Forall_forall in Hmin, Hmax. split; auto. }
  set (describe := fun item : string * list nat =>
         {| line_film := item.1;
            line_chunks := length (lens_of item.1 chunks);
            line_avg := py_sum (lens_of item.1 chunks)
                        / length (lens_of item.1 chunks) |}).
  assert (lines = map describe (sorted_items by_film)) as ->.
  { apply (mapM_total _ _ _ _ Elines). intros item Hin.
    by destruct (film_line_ok chunks item Hin) as [-> _]. }
  assert (map line_film (map describe (sorted_items by_film))
          = map fst (sorted_items by_film)) as Hfilms
    by (rewrite map_map; reflexivity).
  destruct (sorted_items_films by_film) as [Hsorted Hnodup].
  split; [done|]. split; [by apply (floordiv_between lengths)|].
  split; [unfold lengths in Hboth; by rewrite List.Forall_map in Hboth|].
  split; [apply in_map_iff in Hmin_in as (c & ? & ?); by exists c|].
  split; [apply in_map_iff in Hmax_in as (c & ? & ?); by exists c|].
  rewrite Hfilms. split; [done|]. split; [done|]. split.
  - intros c Hc. apply film_has_lens in Hc as Hne.
    apply in_map_iff. exists (film c, lens_of (film c) chunks). split; [done|].
    apply sorted_items_elem. unfold by_film. rewrite by_film_empty.
    by destruct (lens_of (film c) chunks).
  - apply List.Forall_forall. intros l Hl.
    apply in_map_iff in Hl as (item & <- & Hin).
    destruct (film_line_ok chunks item Hin) as [_ Hpos]. simpl. auto.
Qed.

Definition stats_chunk (f t : string) : Chunk :=
  {| chunk_id := 0; film := f; scene_id := 1; heading := "INT. X";
     chunk_index := 0; total_chunks := 1; text := t |}.

Definition stats_chunks : list Chunk :=
  [ stats_chunk "Return Of The Jedi" "It's a trap!";
    stats_chunk "A New Hope" "That's no moon.";
    stats_chunk "Return Of The Jedi" "I am a Jedi, like my father before me." ].

Lemma stats_describe_chunks_witness :
  exists st,
    print_stats stats_chunks = Some st
    /\ stats_total st = 3
    /\ stats_min st <= stats_avg st <= stats_max st
    /\ map line_film (stats_by_film st)
       = ["A New Hope"; "Return Of The Jedi"]%string
    /\ map line_chunks (stats_by_film st) = [1; 2].
Proof.
  destruct (print_stats stats_chunks) as [st|] eqn:E; [|by vm_compute in E].
  exists st. split; [done|].
  destruct (stats_describe_chunks stats_chunks st E) as (Ht & Havg & _).
  split; [exact Ht|]. split; [exact Havg|].
  vm_compute in E. injection E as <-. by vm_compute.
Defined.

End ChunkerExtras.

(** ** [03_embed_index.py]: filtering, batches and the stored entries *)

Module IndexExtras.

Import Index IndexProps.

(** The chunks that [load_chunks] filters out, in file order. *)
Definition short_chunks (file : list Chunker.Chunk) : list Chunker.Chunk :=
  List.filter (fun c => Py.len (Chunker.text c) <? MIN_CHUNK_LENGTH) file.

Definition reported (c : Chunker.Chunk) : ShortChunk :=
  {| short_chunk_id := Chunker.chunk_id c; short_film := Chunker.film c;
     short_heading := Chunker.heading c; short_text := Chunker.text c |}.

Lemma short_chunks_filter (file : list Chunker.Chunk) :
  filter (fun c => Py.len (Chunker.text c) < MIN_CHUNK_LENGTH) file
  = short_chunks file.
Proof.
  unfold short_chunks. induction file as [|c file IH]; [done|].
  rewrite filter_cons. cbn [List.filter]. rewrite <- IH.
  destruct (Nat.ltb_spec (Py.len (Chunker.text c)) MIN_CHUNK_LENGTH).
  - by rewrite decide_True.
  - by rewrite decide_False by lia.
Qed.

Lemma kept_or_short (file : list Chunker.Chunk) :
  length (load_chunks file) + length (short_chunks file) = length file
  /\ forall c, In c file <-> In c (load_chunks file) \/ In c (short_chunks file).
Proof.
  rewrite load_chunks_filter. unfold short_chunks. split.
  - induction file as [|c file IH]; [done|]. cbn [List.filter].
    destruct (Nat.leb_spec MIN_CHUNK_LENGTH (Py.len (Chunker.text c)));
      destruct (Nat.ltb_spec (Py.len (Chunker.text c)) MIN_CHUNK_LENGTH);
      cbn [length]; lia.
  - intros c. rewrite !filter_In.
    destruct (Nat.leb_spec MIN_CHUNK_LENGTH (Py.len (Chunker.text c)));
      destruct (Nat.ltb_spec (Py.len (Chunker.text c)) MIN_CHUNK_LENGTH);
      try lia; tauto.
Qed.

(** X6: [load_chunks] returns, in file order, exactly the chunks whose
    text has at least [MIN_CHUNK_LENGTH] characters; every other chunk
    of the file is printed (id, film, heading, text), in file order,
    after a line giving their number, and nothing is printed when no
    chunk is filtered out.  No chunk is both loaded and printed, and
    none is lost. *)
Theorem load_chunks_keeps_or_reports (file : list Chunker.Chunk) :
  load_chunks file `sublist_of` file
  /\ Forall (fun c => MIN_CHUNK_LENGTH <= Py.len (Chunker.text c))
            (load_chunks file)
  /\ Forall (fun c => Py.len (Chunker.text c) < MIN_CHUNK_LENGTH)
            (short_chunks file)
  /\ length (load_chunks file) + length (short_chunks file) = length file
  /\ (forall c, In c file
                <-> In c (load_chunks file) \/ In c (short_chunks file))
  /\ load_chunks_report file
     = match short_chunks file with
       | [] => None
       | short => Some (length short, map reported short)
       end.
Proof.
  destruct (kept_or_short file) as [Hlen Hin].
  split; [unfold load_chunks; apply sublist_filter|].
  split.
  { rewrite load_chunks_filter. apply List.Forall_forall. intros c Hc.
    apply filter_In in Hc as [_ Hc]. by apply Nat.leb_le. }
  split.
  { apply List.Forall_forall. intros c Hc. unfold short_chunks in Hc.
    apply filter_In in Hc as [_ Hc]. by apply Nat.ltb_lt. }
  split; [exact Hlen|]. split; [exact Hin|].
  unfold load_chunks_report. rewrite short_chunks_filter.
  by destruct (short_chunks file).
Qed.

(** *** Batches *)

(** One [collection.add] call of the batch loop, for the batch it is
    given: the ids, texts and metadata of the batch's chunks, and the
    embeddings that the model returns for the batch's texts. *)
Definition add_batch (model : SentenceTransformer) (st : Store)
    (batch : list Chunker.Chunk) : option Store :=
  collection_add COLLECTION_NAME
    (map (fun c => Py.str_of_int (Chunker.chunk_id c)) batch)
    (map Chunker.text batch)
    (encode_batch model (map Chunker.text batch))
    (map chunk_metadata batch) st.

Lemma for_each_map {A B S} (body : S -> B -> option S) (g : A -> B)
    (xs : list A) (st : S) :
  for_each (fun st x => body st (g x)) xs st = for_each body (map g xs) st.
Proof.
  revert st. induction xs as [|x xs IH]; intros st; simpl; [done|].
  destruct (body st (g x)) as [st'|]; simpl; [apply IH | done].
Qed.

(** X7: the batch loop of [build_chroma_collection], the [for] over
    [range(total_batches)] with [batch_step] as its body, is one
    [collection.add] call per batch, in order, for batches that cut
    the chunk list into [(len(chunks) + BATCH_SIZE - 1) // BATCH_SIZE]
    pieces, none empty and none longer than [BATCH_SIZE], that put end
    to end give the list back: from any store the loop does what
    adding these batches one after the other does, so every chunk is
    embedded and handed to [collection.add] exactly once.  There is no
    batch exactly when there is no chunk. *)
Theorem batches_cover_chunks (chunks : list Chunker.Chunk)
    (model : SentenceTransformer) :
  let total_batches := (length chunks + BATCH_SIZE - 1) / BATCH_SIZE in
  exists batches : list (list Chunker.Chunk),
    concat batches = chunks
    /\ length batches = total_batches
    /\ Forall (fun batch => 0 < length batch <= BATCH_SIZE) batches
    /\ (forall st : Store,
          for_each (batch_step chunks model) (seq 0 total_batches) st
          = for_each (add_batch model) batches st)
    /\ (total_batches = 0 <-> chunks = []).
Proof.
  intros total_batches.
  exists (map (batch_of chunks) (seq 0 total_batches)).
  split; [apply batches_concat|].
  split; [by rewrite length_map, length_seq|].
  split; [|split].
  - apply Forall_map, List.Forall_forall. intros i Hi.
    apply in_seq in Hi as [_ Hi]. simpl in Hi. split.
    + pose proof (batch_nonempty chunks i Hi) as Hne.
      destruct (batch_of chunks i); [done | simpl; lia].
    + unfold batch_of, list_slice. rewrite length_take. lia.
  - intros st. rewrite <- for_each_map. reflexivity.
  - subst total_batches. split.
    + intros H0. pose proof (total_batches_cover (length chunks) BATCH_SIZE) as Hc.
      rewrite H0 in Hc. destruct chunks; [done|].
      simpl in Hc. unfold BATCH_SIZE in Hc. lia.
    + by intros ->.
Qed.

(** *** What a successful rebuild leaves in the store *)

Lemma batch_step_inv chunks model (st st' : Store) i :
  batch_step chunks model st i = Some st' ->
  exists c,
    st !! COLLECTION_NAME = Some c
    /\ st' = <[COLLECTION_NAME :=
                 {| coll_metadata := coll_metadata c;
                    entries := fold_left add_record
                                 (batch_records chunks model i) (entries c) |}]> st
    /\ map fst (batch_records chunks model i)
       = map chunk_key (batch_of chunks i).
Proof.
  unfold batch_step, collection_add. fold (batch_of chunks i).
  destruct (st !! COLLECTION_NAME) as [c|] eqn:Ec; [|done]. simpl.
  case_bool_decide as Hok; [|done]. intros [= <-].
  destruct Hok as (_ & _ & Hd & He & Hm).
  exists c. split; [done|]. split; [done|].
  unfold batch_records. by apply zip_records_ids.
Qed.

Lemma batches_loop_inv chunks model (bs : list nat) :
  forall (st st' : Store) c,
    st !! COLLECTION_NAME = Some c ->
    for_each (batch_step chunks model) bs st = Some st' ->
    exists es,
      st' = <[COLLECTION_NAME :=
                {| coll_metadata := coll_metadata c; entries := es |}]> st
      /\ dom es
         = dom (entries c)
           ∪ list_to_set (concat (map (fun i => map chunk_key (batch_of chunks i))
                                      bs)).
Proof.
  induction bs as [|i bs IH]; intros st st' c Hc; simpl.
  - intros [= <-]. exists (entries c). split; [|set_solver].
    destruct c. by rewrite insert_id.
  - destruct (batch_step chunks model st i) as [st1|] eqn:E; [|done]. simpl.
    apply batch_step_inv in E as (c' & Hc' & -> & Hids).
    assert (c' = c) as -> by congruence.
    intros Hrest. eapply IH in Hrest as (es & -> & Hdom);
      [|by rewrite lookup_insert_eq].
    exists es. split; [by rewrite insert_insert_eq|].
    rewrite Hdom. simpl. rewrite add_records_dom, Hids, list_to_set_app_L.
    set_solver.
Qed.

Lemma keys_of_batches chunks (bs : list nat) :
  concat (map (fun i => map chunk_key (batch_of chunks i)) bs)
  = map chunk_key (concat (map (batch_of chunks) bs)).
Proof.
  induction bs as [|i bs IH]; [done|]. simpl. by rewrite map_app, IH.
Qed.

(** X8: whenever [build_chroma_collection] succeeds, whatever the
    client's [list_collections] returns, the handle it returns is
    [COLLECTION_NAME], every collection of another name is left as it
    was, and the collection under [COLLECTION_NAME] holds entries under
    the ids of the given chunks and under no other id: nothing of a
    previous collection of that name survives. *)
Theorem build_replaces_only_its_collection api chunks model (st st1 : Store) h :
  build_chroma_collection api chunks model st = Some (st1, h) ->
  h = COLLECTION_NAME
  /\ (forall name, name <> COLLECTION_NAME -> st1 !! name = st !! name)
  /\ exists c, st1 !! COLLECTION_NAME = Some c
               /\ dom (entries c) = list_to_set (map chunk_key chunks).
Proof.
  unfold build_chroma_collection.
  set (st0 := if name_in COLLECTION_NAME (list_collections api st)
              then delete_collection COLLECTION_NAME st else Some st).
  assert (forall stx, st0 = Some stx ->
            forall name, name <> COLLECTION_NAME -> stx !! name = st !! name)
    as Hst0.
  { intros stx. unfold st0. destruct (name_in _ _).
    - unfold delete_collection.
      destruct (st !! COLLECTION_NAME); [|done]. intros [= <-].
      intros name Hne. by rewrite lookup_delete_ne.
    - by intros [= <-]. }
  destruct st0 as [stx|]; [|done]. cbn -[Nat.div].
  pose proof (Hst0 stx eq_refl) as Hother.
  unfold create_collection.
  destruct (stx !! COLLECTION_NAME) eqn:Hnone; [done|]. cbn -[Nat.div].
  destruct (for_each _ _ _) as [st3|] eqn:Eloop; [|done]. cbn -[Nat.div].
  intros [= <- <-]. split; [done|].
  eapply batches_loop_inv in Eloop as (es & -> & Hdom);
    [|by rewrite lookup_insert_eq].
  split.
  - intros name Hne. rewrite !lookup_insert_ne by done. by apply Hother.
  - eexists. rewrite lookup_insert_eq. split; [done|]. cbn [entries].
    rewrite Hdom. cbn [entries].
    rewrite keys_of_batches, batches_concat, dom_empty_L. set_solver.
Qed.

Lemma build_replaces_only_its_collection_witness :
  exists st1,
    build_chroma_collection ListsNames (load_chunks demo_file) unit_model
      stale_store
      = Some (st1, COLLECTION_NAME)
    /\ exists c, st1 !! COLLECTION_NAME = Some c
                 /\ dom (entries c)
                    = list_to_set (map chunk_key (load_chunks demo_file)).
Proof.
  assert (NoDup (map chunk_key (load_chunks demo_file))) as Hkeys.
  { apply chunk_keys_nodup, load_chunks_ids_nodup. simpl.
    repeat constructor; set_solver. }
  assert (forall texts, length (encode_batch unit_model texts) = length texts)
    as Henc by (intros texts; simpl; apply length_map).
  destruct (build_result (load_chunks demo_file) unit_model Hkeys Henc
              stale_store) as (es & E & _).
  destruct (build_replaces_only_its_collection _ _ _ _ _ _ E) as (_ & _ & Hc).
  eexists. split; [exact E | exact Hc].
Defined.

(** *** Looking a chunk up in the rebuilt collection *)

Lemma zip_records_lookup ids docs embs metas k i d e m :
  ids !! k = Some i -> docs !! k = Some d ->
  embs !! k = Some e -> metas !! k = Some m ->
  zip_records ids docs embs metas !! k
  = Some (i, {| document := d; embedding := e; metadata := m |}).
Proof.
  revert ids docs embs metas.
  induction k as [|k IH]; intros [|? ids] [|? docs] [|? embs] [|? metas];
    simpl; try done.
  - by intros [= ->] [= ->] [= ->] [= ->].
  - apply IH.
Qed.

Lemma add_records_skip (rs : list (string * Entry)) (es : gmap string Entry) k :
  ~ In k (map fst rs) -> fold_left add_record rs es !! k = es !! k.
Proof.
  revert es. induction rs as [|r rs IH]; intros es Hk; [done|].
  simpl in *. rewrite IH by tauto. unfold add_record.
  destruct (es !! r.1); [done|]. rewrite lookup_insert_ne; [done|]. tauto.
Qed.

Lemma add_records_lookup (rs : list (string * Entry)) (es : gmap string Entry)
    k v :
  NoDup (map fst rs) -> In (k, v) rs -> es !! k = None ->
  fold_left add_record rs es !! k = Some v.
Proof.
  revert es. induction rs as [|r rs IH]; intros es Hnd Hin Hk; [done|].
  apply NoDup_cons in Hnd as [Hr Hnd]. rewrite list_elem_of_In in Hr.
  simpl. destruct Hin as [->|Hin].
  - rewrite add_records_skip by done. unfold add_record. simpl.
    rewrite Hk. apply lookup_insert_eq.
  - apply IH; [done | done |].
    assert (r.1 <> k) as Hne.
    { intros <-. apply Hr. apply in_map_iff. by exists (r.1, v). }
    unfold add_record. destruct (es !! r.1); [done|].
    by rewrite lookup_insert_ne.
Qed.

Lemma batch_lookup (chunks : list Chunker.Chunk) j :
  batch_of chunks (j / BATCH_SIZE) !! (j mod BATCH_SIZE) = chunks !! j.
Proof.
  unfold batch_of, list_slice.
  assert (j mod BATCH_SIZE < BATCH_SIZE) as Hlt
    by (apply Nat.mod_upper_bound; unfold BATCH_SIZE; lia).
  rewrite lookup_take_lt by lia. rewrite lookup_drop. f_equal.
  pose proof (Nat.div_mod_eq j BATCH_SIZE). lia.
Qed.

(** X9: after a successful rebuild, whatever the client's
    [list_collections] returns, on chunks with distinct ids (and a
    model that returns one embedding per text), the entry stored under
    the id of the chunk at position [j] holds that chunk's text as
    document, the chunk's film, scene id, heading, chunk index and
    total as metadata, and as embedding the vector that the model
    returned for this text within its batch (batch [j // BATCH_SIZE],
    position [j % BATCH_SIZE]). *)
Theorem stored_entry_of_chunk api chunks model (st st1 : Store) h j c :
  NoDup (map Chunker.chunk_id chunks) ->
  (forall texts, length (encode_batch model texts) = length texts) ->
  chunks !! j = Some c ->
  build_chroma_collection api chunks model st = Some (st1, h) ->
  exists coll e,
    st1 !! COLLECTION_NAME = Some coll
    /\ entries coll !! Py.str_of_int (Chunker.chunk_id c) = Some e
    /\ document e = Chunker.text c
    /\ metadata e = chunk_metadata c
    /\ encode_batch model
         (map Chunker.text
            (list_slice chunks (j / BATCH_SIZE * BATCH_SIZE)
                               ((j / BATCH_SIZE + 1) * BATCH_SIZE)))
       !! (j mod BATCH_SIZE) = Some (embedding e).
Proof.
  intros Hids Henc Hj Hrun.
  assert (NoDup (map chunk_key chunks)) as Hkeys by by apply chunk_keys_nodup.
  destruct (build_success chunks model Hkeys Henc api st st1 h Hrun)
    as (es & -> & _ & -> & _).
  set (i := j / BATCH_SIZE). set (k := j mod BATCH_SIZE).
  fold (batch_of chunks i).
  assert (batch_of chunks i !! k = Some c) as Hb
    by exact (eq_trans (batch_lookup chunks j) Hj).
  destruct (encode_batch model (map Chunker.text (batch_of chunks i)) !! k)
    as [emb|] eqn:Eemb.
  2:{ apply lookup_ge_None in Eemb. rewrite Henc, length_map in Eemb.
      apply lookup_lt_Some in Hb. lia. }
  set (e := {| document := Chunker.text c; embedding := emb;
               metadata := chunk_metadata c |}).
  assert (In (chunk_key c, e) (batch_records chunks model i)) as Hrec.
  { rewrite <- list_elem_of_In. apply list_elem_of_lookup. exists k.
    unfold batch_records. apply zip_records_lookup; try done.
    - change (map chunk_key ?l) with (chunk_key <$> l).
      by rewrite list_lookup_fmap, Hb.
    - change (map Chunker.text ?l) with (Chunker.text <$> l).
      by rewrite list_lookup_fmap, Hb.
    - change (map chunk_metadata ?l) with (chunk_metadata <$> l).
      by rewrite list_lookup_fmap, Hb. }
  assert (i < (length chunks + BATCH_SIZE - 1) / BATCH_SIZE) as Hi.
  { apply lookup_lt_Some in Hj.
    pose proof (total_batches_cover (length chunks) BATCH_SIZE) as Hc.
    pose proof (Nat.Div0.mul_div_le j BATCH_SIZE) as Hle. fold i in Hle.
    unfold BATCH_SIZE in *. nia. }
  eexists _, e. rewrite lookup_insert_eq.
  split; [done|]. split; [|done]. cbn [entries].
  apply add_records_lookup; [| |apply lookup_empty].
  - by rewrite all_record_ids.
  - apply in_concat. exists (batch_records chunks model i). split; [|done].
    apply in_map, in_seq. lia.
Qed.

Lemma stored_entry_of_chunk_witness :
  exists st1 coll e,
    build_chroma_collection ListsNames (load_chunks demo_file) unit_model
      stale_store
      = Some (st1, COLLECTION_NAME)
    /\ st1 !! COLLECTION_NAME = Some coll
    /\ entries coll !! "2"%string = Some e
    /\ document e = "It's a space station."%string.
Proof.
  assert (NoDup (map Chunker.chunk_id (load_chunks demo_file))) as Hids.
  { apply load_chunks_ids_nodup. simpl. repeat constructor; set_solver. }
  assert (forall texts, length (encode_batch unit_model texts) = length texts)
    as Henc by (intros texts; simpl; apply length_map).
  assert (load_chunks demo_file !! 1
          = Some (demo_chunk 2 "It's a space station.")) as Hj
    by (vm_compute; reflexivity).
  destruct (build_result (load_chunks demo_file) unit_model
              (chunk_keys_nodup _ Hids) Henc stale_store) as (es & Hrun & _).
  destruct (stored_entry_of_chunk ListsNames (load_chunks demo_file) unit_model
              stale_store _ _ 1 (demo_chunk 2 "It's a space station.")
              Hids Henc Hj Hrun)
    as (coll & e & Hcoll & He & Hdoc & _).
  eexists _, coll, e.
  split; [exact Hrun|]. split; [exact Hcoll|]. split; [exact He | exact Hdoc].
Defined.

End IndexExtras.

(** ** [04_query.py]: retrieval order, the decision to answer, sessions *)

Module QueryExtras.

Import Index Query QueryProps.

(** X10: [retrieve] returns, in the order in which the index returned
    them, exactly the neighbours whose similarity [1 - distance] is at
    least [MIN_SIMILARITY], each with its document text and the film
    and heading of its metadata; it never returns more results than
    the index returned distances. *)
Theorem retrieve_keeps_order q model collection :
  let results := query collection (encode model q) TOP_K in
  let rows := Py.zip3 (documents results) (metadatas results)
                      (distances results) in
  retrieve q model collection
  = map (fun row => {| text := row.1.1; film := meta_film row.1.2;
                       heading := meta_heading row.1.2;
                       similarity := (1 - row.2)%float |})
        (List.filter (fun row => (MIN_SIMILARITY <=? 1 - row.2)%float) rows)
  /\ length (retrieve q model collection) <= length (distances results).
Proof.
  intros results rows. split; [apply retrieve_filter|].
  rewrite retrieve_filter, length_map.
  etransitivity; [apply List.filter_length_le|]. unfold rows_of. fold results.
  generalize (documents results) (metadatas results) (distances results).
  intros ds. induction ds as [|d ds IH]; intros [|m ms] [|x xs]; simpl; try lia.
  specialize (IH ms xs). lia.
Qed.

(** Whether some returned neighbour clears the threshold. *)
Definition some_clears (q : string) (model : SentenceTransformer)
    (collection : Collection) : bool :=
  existsb (fun dist => (MIN_SIMILARITY <=? 1 - dist)%float)
          (distances (query collection (encode model q) TOP_K)).

Lemma filter_nil_existsb {A} (p : A -> bool) (l : list A) :
  List.filter p l = [] <-> existsb p l = false.
Proof.
  induction l as [|x l IH]; simpl; [done|].
  destruct (p x); simpl; [split; discriminate | exact IH].
Qed.

Lemma gate_on_retrieve q model collection :
  is_context_sufficient (retrieve q model collection)
  = match retrieve q model collection with
    | [] => (false, rejected_no_chunks)
    | _ => (true, answered)
    end.
Proof.
  pose proof (retrieve_kept q model collection) as H.
  destruct (retrieve q model collection) as [|c rest]; [done|]. simpl.
  destruct (H c (or_introl eq_refl)) as (dist & _ & -> & Hk).
  by rewrite (FloatFacts.leb_not_ltb _ _ Hk).
Qed.

(** X11: when the three lists of the index's answer have the same
    length, [ask] answers exactly when some returned neighbour has a
    similarity [1 - distance] of at least [MIN_SIMILARITY]: then the
    entry it logs has outcome [answered] and the concatenated stream as
    answer; otherwise the outcome is [rejected_no_chunks] and the
    answer is null. *)
Theorem ask_answers_iff_a_neighbour_clears q model collection llm fmt2 w :
  let results := query collection (encode model q) TOP_K in
  length (documents results) = length (distances results) ->
  length (metadatas results) = length (distances results) ->
  exists e,
    log_file (ask q model collection llm fmt2 w) = log_file w ++ [e]
    /\ outcome e = (if some_clears q model collection
                    then answered else rejected_no_chunks)
    /\ answer e
       = (if some_clears q model collection
          then Some (Py.join (chat llm OLLAMA_MODEL
                                (ask_messages fmt2 q
                                   (retrieve q model collection))))
          else None).
Proof.
  intros results Hd Hm.
  assert (some_clears q model collection
          = match retrieve q model collection with [] => false | _ => true end)
    as Hsome.
  { unfold some_clears. fold results. rewrite retrieve_filter.
    unfold rows_of. fold results. unfold keeps.
    revert Hd Hm.
    generalize (documents results) (metadatas results) (distances results).
    intros ds ms xs. revert ds ms.
    induction xs as [|x xs IH]; intros [|d ds] [|m ms]; simpl; try done.
    intros [= Hd] [= Hm]. destruct (MIN_SIMILARITY <=? 1 - x)%float; simpl;
      [done | by apply IH]. }
  unfold ask. rewrite gate_on_retrieve, Hsome.
  destruct (retrieve q model collection) as [|c rest]; simpl.
  - eexists. split; [reflexivity|]. by split.
  - eexists. split; [reflexivity|]. split; [done|]. simpl.
    by rewrite collect_tokens.
Qed.

Lemma ask_answers_iff_a_neighbour_clears_witness :
  exists e,
    log_file (ask "Is it a moon?" demo_model (one_neighbour 0.2%float)
                  demo_llm demo_fmt2 demo_world) = [e]
    /\ outcome e = answered
    /\ answer e = Some "It is a space station."%string.
Proof.
  destruct (ask_answers_iff_a_neighbour_clears "Is it a moon?" demo_model
              (one_neighbour 0.2%float) demo_llm demo_fmt2 demo_world
              eq_refl eq_refl) as (e & Hlog & Hout & Hans).
  exists e. split; [exact Hlog|]. split; [exact Hout | exact Hans].
Defined.

(** X12: a query for which [retrieve] keeps nothing never reaches the
    language model: whatever the model object and the float format,
    [ask] leaves the same world, with one entry whose answer is
    null. *)
Theorem rejected_query_skips_generation q model collection
    llm1 llm2 fmt1 fmt2 w :
  retrieve q model collection = [] ->
  ask q model collection llm1 fmt1 w = ask q model collection llm2 fmt2 w
  /\ exists e, log_file (ask q model collection llm1 fmt1 w)
               = log_file w ++ [e]
               /\ answer e = None /\ chunks_retrieved e = []
               /\ top_similarity e = None.
Proof.
  intros E. unfold ask. rewrite E. simpl. split; [done|].
  eexists. split; [reflexivity|]. by repeat split.
Qed.

Lemma rejected_query_skips_generation_witness :
  retrieve "Who is Rey?" demo_model (one_neighbour 0.70%float) = []
  /\ ask "Who is Rey?" demo_model (one_neighbour 0.70%float)
         demo_llm demo_fmt2 demo_world
     = ask "Who is Rey?" demo_model (one_neighbour 0.70%float)
         {| chat := fun _ _ => [] |} (fun _ => EmptyString) demo_world.
Proof.
  assert (retrieve "Who is Rey?" demo_model (one_neighbour 0.70%float) = [])
    as E by (vm_compute; reflexivity).
  split; [exact E|].
  exact (proj1 (rejected_query_skips_generation _ _ _ demo_llm
                  {| chat := fun _ _ => [] |} demo_fmt2
                  (fun _ => EmptyString) demo_world E)).
Defined.

(** *** Sessions *)
















End QueryExtras.

(** ** [01_ingest.py]: titles, scenes and the corpus *)

Module IngestExtras.

Import Regex Ingest IngestProps.

(** *** Film titles *)

(** Whether [c] occurs in [s]. *)
Fixpoint occurs (c : ascii) (s : string) : bool :=
  match s with
  | EmptyString => false
  | String a s' => Ascii.eqb a c || occurs c s'
  end.

(** Whether every character of [s] is [c]. *)
Fixpoint all_are (c : ascii) (s : string) : bool :=
  match s with
  | EmptyString => true
  | String a s' => Ascii.eqb a c && all_are c s'
  end.

(** Whether every character of [s] is in the class [p]. *)
Fixpoint every (p : ascii -> bool) (s : string) : bool :=
  match s with
  | EmptyString => true
  | String c s' => p c && every p s'
  end.









Lemma all_dots_no_slash stem : all_are "." stem = true -> occurs "/" stem = false.
Proof.
  induction stem as [|x stem IH]; [done|]. simpl.
  destruct (Ascii.eqb_spec x ".") as [->|]; [|done]. simpl. exact IH.
Qed.

















(** *** Trimming *)

Lemma lstrip_len s : Py.len (Py.lstrip s) <= Py.len s.
Proof.
  unfold Py.len. induction s as [|c s IH]; simpl; [lia|].
  destruct (Py.isspace c); simpl; lia.
Qed.

Lemma rstrip_len s : Py.len (Py.rstrip s) <= Py.len s.
Proof.
  unfold Py.len. induction s as [|c s IH]; simpl; [lia|].
  destruct (Py.rstrip s); [destruct (Py.isspace c)|]; simpl in *; lia.
Qed.

(** A string that [lstrip] leaves alone does not start with whitespace. *)
Lemma lstrip_fixed c s :
  Py.lstrip (String c s) = String c s <-> Py.isspace c = false.
Proof.
  simpl. destruct (Py.isspace c) eqn:E; [|done]. split; [|done].
  intros H. pose proof (lstrip_len s) as Hl. rewrite H in Hl.
  unfold Py.len in Hl. simpl in Hl. lia.
Qed.

Lemma rstrip_cons c s :
  Py.rstrip (String c s)
  = if String.eqb (Py.rstrip s) "" then
      if Py.isspace c then EmptyString else String c EmptyString
    else String c (Py.rstrip s).
Proof. simpl. by destruct (Py.rstrip s). Qed.

Lemma rstrip_app a b :
  Py.rstrip (a +:+ b)
  = if String.eqb (Py.rstrip b) "" then Py.rstrip a
    else (a +:+ Py.rstrip b)%string.
Proof.
  induction a as [|c a IH].
  - change (("" +:+ b)%string) with b.
    by destruct (String.eqb_spec (Py.rstrip b) "") as [->|].
  - rewrite !append_cons, !rstrip_cons, IH.
    destruct (String.eqb_spec (Py.rstrip b) "") as [Hb|Hb]; [done|].
    destruct (String.eqb_spec (a +:+ Py.rstrip b) "") as [Hab|Hab]; [|done].
    destruct a; [destruct (Hb Hab) | by rewrite append_cons in Hab].
Qed.

Lemma rstrip_idem s : Py.rstrip (Py.rstrip s) = Py.rstrip s.
Proof.
  induction s as [|c s IH]; [done|]. rewrite rstrip_cons.
  destruct (String.eqb_spec (Py.rstrip s) "") as [E|E].
  - destruct (Py.isspace c) eqn:Ec; [done|]. simpl. by rewrite Ec.
  - rewrite rstrip_cons, IH. by destruct (String.eqb_spec (Py.rstrip s) "").
Qed.

Lemma lstrip_idem s : Py.lstrip (Py.lstrip s) = Py.lstrip s.
Proof.
  induction s as [|c s IH]; [done|]. simpl.
  destruct (Py.isspace c) eqn:Ec; [done|]. simpl. by rewrite Ec.
Qed.

(** Trimming one side does not disturb the other. *)
Lemma lstrip_rstrip s :
  Py.lstrip s = s -> Py.lstrip (Py.rstrip s) = Py.rstrip s.
Proof.
  destruct s as [|c s]; [done|]. intros Hc%lstrip_fixed.
  rewrite rstrip_cons. destruct (String.eqb _ _); rewrite ?Hc; simpl;
    by rewrite Hc.
Qed.

Lemma rstrip_lstrip s :
  Py.rstrip s = s -> Py.rstrip (Py.lstrip s) = Py.lstrip s.
Proof.
  induction s as [|c s IH]; [done|]. intros H. simpl.
  destruct (Py.isspace c) eqn:Ec; [|done]. apply IH.
  rewrite rstrip_cons in H.
  destruct (String.eqb_spec (Py.rstrip s) "") as [E|E].
  - rewrite Ec in H. done.
  - by injection H.
Qed.

Lemma strip_idem s : Py.strip (Py.strip s) = Py.strip s.
Proof.
  unfold Py.strip. rewrite lstrip_rstrip by apply lstrip_idem.
  apply rstrip_idem.
Qed.

(** A string is trimmed when [strip] leaves it alone. *)
Definition trimmed (s : string) : Prop := Py.strip s = s.

Lemma trimmed_sides s : trimmed s -> Py.lstrip s = s /\ Py.rstrip s = s.
Proof.
  unfold trimmed, Py.strip. intros H.
  assert (Py.lstrip s = s) as Hl.
  { rewrite <- H at 1. rewrite lstrip_rstrip by apply lstrip_idem. exact H. }
  split; [exact Hl|]. by rewrite Hl in H.
Qed.

Lemma trimmed_lstrip_rstrip s : trimmed (Py.lstrip (Py.rstrip s)).
Proof.
  unfold trimmed, Py.strip. rewrite lstrip_idem.
  apply rstrip_lstrip, rstrip_idem.
Qed.

(** *** The lines of a cleaned script *)

(** A string that holds no line boundary. *)
Definition single_line (l : string) : Prop :=
  every (fun c => negb (Py.is_linebreak c)) l = true.

Lemma splitlines_single s : Forall single_line (Py.splitlines s).
Proof.
  remember (Py.len s) as n eqn:Hn. assert (Py.len s <= n) as Hle by lia.
  clear Hn. revert s Hle. unfold Py.len.
  induction n as [|n IH]; intros s Hle.
  - destruct s; [constructor | simpl in Hle; lia].
  - destruct s as [|c s]; [constructor|]. simpl in Hle. simpl.
    destruct (Py.is_linebreak c) eqn:Ec.
    + constructor; [done|].
      destruct (Ascii.eqb c Py.carriage_return); [|apply IH; lia].
      destruct s as [|c' s']; [constructor|]. simpl in Hle.
      destruct (Ascii.eqb c' Py.newline); apply IH; simpl; lia.
    + assert (Forall single_line (Py.splitlines s)) as H by (apply IH; lia).
      destruct (Py.splitlines s) as [|l ls].
      * constructor; [|constructor]. unfold single_line. simpl. by rewrite Ec.
      * inversion H as [|? ? Hl Hls]; subst. constructor; [|done].
        unfold single_line in *. simpl. by rewrite Ec.
Qed.

Lemma lstrip_every p s : every p s = true -> every p (Py.lstrip s) = true.
Proof.
  induction s as [|c s IH]; [done|]. simpl.
  intros [Hc Hs]%andb_true_iff. destruct (Py.isspace c); [by apply IH|].
  simpl. by rewrite Hc, Hs.
Qed.

Lemma rstrip_every p s : every p s = true -> every p (Py.rstrip s) = true.
Proof.
  induction s as [|c s IH]; [done|]. simpl.
  intros [Hc Hs]%andb_true_iff. specialize (IH Hs).
  destruct (Py.rstrip s); [destruct (Py.isspace c)|]; simpl in *;
    by rewrite ?Hc, ?IH.
Qed.

Lemma splitlines_line l t :
  single_line l ->
  Py.splitlines (l +:+ nl +:+ t) = l :: Py.splitlines t.
Proof.
  unfold single_line. induction l as [|c l IH]; intros H.
  - reflexivity.
  - simpl in H. apply andb_true_iff in H as [Hc Hl].
    rewrite append_cons. cbn [Py.splitlines].
    rewrite (IH Hl). by destruct (Py.is_linebreak c).
Qed.

Lemma splitlines_one l :
  single_line l ->
  Py.splitlines l = if String.eqb l "" then [] else [l].
Proof.
  unfold single_line. induction l as [|c l IH]; intros H; [done|].
  simpl in H. apply andb_true_iff in H as [Hc Hl].
  cbn [Py.splitlines]. rewrite (IH Hl).
  destruct (Py.is_linebreak c); [done|].
  clear IH Hl. by destruct l.
Qed.

(** Splitting what was joined with line feeds gives back lines that
    were joined. *)
Lemma splitlines_join (P : string -> Prop) lines :
  Forall single_line lines -> Forall P lines ->
  Forall P (Py.splitlines (Py.join_with nl lines)).
Proof.
  induction lines as [|l rest IH]; intros Hs HP; [constructor|].
  inversion Hs as [|? ? Hl Hrest]; subst.
  inversion HP as [|? ? Pl Prest]; subst.
  destruct rest as [|r rs].
  - simpl. rewrite splitlines_one by done.
    destruct (String.eqb l ""); repeat constructor. done.
  - change (Py.join_with nl (l :: r :: rs))
      with (l +:+ nl +:+ Py.join_with nl (r :: rs))%string.
    rewrite splitlines_line by done. constructor; [done|]. by apply IH.
Qed.

(** A trimmed line without a line boundary. *)
Definition clean_line (l : string) : Prop := trimmed l /\ single_line l.

Lemma stripped_lines text :
  Forall clean_line
    (map Py.lstrip
       (Py.splitlines (Py.join_with nl (map Py.rstrip (Py.splitlines text))))).
Proof.
  apply Forall_map.
  eapply Forall_impl;
    [apply (splitlines_join (fun x => Py.rstrip x = x /\ single_line x))|].
  - apply Forall_map. eapply Forall_impl; [apply splitlines_single|].
    intros l Hl. by apply rstrip_every.
  - apply Forall_map. eapply Forall_impl; [apply splitlines_single|].
    intros l Hl. split; [apply rstrip_idem | by apply rstrip_every].
  - intros x [Hx Hs]. split; [|by apply lstrip_every].
    unfold trimmed, Py.strip. rewrite lstrip_idem. by apply rstrip_lstrip.
Qed.

Lemma lstrip_join lines :
  Forall clean_line lines ->
  exists lines', Forall clean_line lines'
                 /\ Py.lstrip (Py.join_with nl lines) = Py.join_with nl lines'.
Proof.
  induction lines as [|l rest IH]; intros H; [by exists []|].
  inversion H as [|? ? Hl Hrest]; subst.
  destruct l as [|c l].
  - destruct rest as [|r rs]; [by exists []|].
    destruct (IH Hrest) as (lines' & Hgood & E). exists lines'.
    split; [done|]. exact E.
  - exists (String c l :: rest). split; [done|].
    destruct Hl as [[Hc%lstrip_fixed _]%trimmed_sides _].
    destruct rest as [|r rs]; simpl; by rewrite Hc.
Qed.

Lemma str_app_assoc (a b c : string) :
  (a +:+ b +:+ c)%string = ((a +:+ b) +:+ c)%string.
Proof. induction a as [|x a IH]; [done|]. by rewrite !append_cons, IH. Qed.

Lemma join_with_snoc lines l :
  lines <> [] ->
  Py.join_with nl (lines ++ [l]) = (Py.join_with nl lines +:+ nl +:+ l)%string.
Proof.
  induction lines as [|x rest IH]; [done|]. intros _.
  destruct rest as [|r rs]; [done|].
  change (Py.join_with nl ((x :: r :: rs) ++ [l]))
    with (x +:+ nl +:+ Py.join_with nl ((r :: rs) ++ [l]))%string.
  rewrite IH by done.
  change (Py.join_with nl (x :: r :: rs))
    with (x +:+ nl +:+ Py.join_with nl (r :: rs))%string.
  by rewrite <- !str_app_assoc.
Qed.

Lemma rstrip_join lines :
  Forall clean_line lines ->
  exists lines', Forall clean_line lines'
                 /\ Py.rstrip (Py.join_with nl lines) = Py.join_with nl lines'.
Proof.
  induction lines as [|l rest IH] using rev_ind; intros H; [by exists []|].
  apply Forall_app in H as [Hrest Hl].
  pose proof (Forall_inv Hl) as [[_ Hr]%trimmed_sides _].
  destruct rest as [|r rs].
  - exists [l]. split; [exact Hl | exact Hr].
  - rewrite join_with_snoc by done. rewrite rstrip_app.
    destruct l as [|c l].
    + destruct (IH Hrest) as (lines' & Hgood & E). exists lines'.
      split; [done|]. exact E.
    + exists ((r :: rs) ++ [String c l]). split.
      * apply Forall_app. by split.
      * rewrite join_with_snoc by done.
        change (nl +:+ String c l)%string with (String Py.newline (String c l)).
        rewrite rstrip_cons, Hr. done.
Qed.

(** X16: whatever the raw text, the cleaned script is a sequence of
    lines joined by single line feeds, in which every line is trimmed
    of leading and trailing whitespace and holds no line boundary of
    any kind (CR, VT, FF, FS, GS, RS, NEL): line feeds are the only
    line boundaries left; and the cleaned script as a whole is
    trimmed. *)
Theorem clean_script_lines raw_text :
  Py.strip (clean_script raw_text) = clean_script raw_text
  /\ exists lines,
       clean_script raw_text = Py.join_with nl lines
       /\ Forall (fun l => Py.strip l = l
                           /\ every (fun c => negb (Py.is_linebreak c)) l = true)
                 lines.
Proof.
  unfold clean_script. split; [apply strip_idem|].
  match goal with
  | |- context [Py.join_with nl (map Py.lstrip (Py.splitlines (Py.join_with nl
                  (map Py.rstrip (Py.splitlines ?t))))) ] =>
      pose proof (stripped_lines t) as H
  end.
  apply lstrip_join in H as (lines1 & H1 & E1).
  apply rstrip_join in H1 as (lines2 & H2 & E2).
  exists lines2. split; [|exact H2].
  unfold Py.strip. rewrite E1. exact E2.
Qed.

(** *** Cleaning only deletes *)

(** What [splitlines] followed by a join with line feeds makes of a
    character. *)
Definition to_line_feed (c : ascii) : ascii :=
  if Py.is_linebreak c then Py.newline else c.

Lemma chars_app a b : list_ascii_of_string (a +:+ b) = list_ascii_of_string a ++ list_ascii_of_string b.
Proof. induction a as [|x a IH]; [done|]. rewrite append_cons. simpl. by f_equal. Qed.

Lemma chars_take n s : list_ascii_of_string (Py.take n s) = take n (list_ascii_of_string s).
Proof. revert s. induction n as [|n IH]; intros [|c s]; simpl; by rewrite ?IH. Qed.

Lemma chars_drop n s : list_ascii_of_string (Py.drop n s) = drop n (list_ascii_of_string s).
Proof. revert s. induction n as [|n IH]; intros [|c s]; simpl; by rewrite ?IH. Qed.

Lemma chars_len s : length (list_ascii_of_string s) = Py.len s.
Proof. unfold Py.len. induction s as [|c s IH]; simpl; by rewrite ?IH. Qed.

Lemma drop_next ps text a s :
  Py.drop ps text = String a s -> Py.drop (S ps) text = s.
Proof.
  revert text. induction ps as [|ps IH]; intros [|c text]; simpl; try done.
  - by intros [= _ ->].
  - apply IH.
Qed.

(** One replacement: the text before the match, the replacement, and
    what is made of the text after the match. *)
Lemma splice_one (l repl after : list ascii) i ps e :
  i <= ps -> ps <= e ->
  sublist repl (take (e - ps) (drop ps l)) ->
  sublist after (drop e l) ->
  sublist (take (ps - i) (drop i l) ++ repl ++ after) (drop i l).
Proof.
  intros Hi He Hrepl Hafter.
  assert (drop i l
          = take (ps - i) (drop i l) ++ take (e - ps) (drop ps l) ++ drop e l)
    as E.
  { rewrite <- (take_drop (ps - i) (drop i l)) at 1. f_equal.
    rewrite drop_drop. replace (i + (ps - i)) with ps by lia.
    rewrite <- (take_drop (e - ps) (drop ps l)) at 1. f_equal.
    rewrite drop_drop. by replace (ps + (e - ps)) with e by lia. }
  enough (forall d, d = take (ps - i) (drop i l)
                        ++ take (e - ps) (drop ps l) ++ drop e l ->
                    sublist (take (ps - i) (drop i l) ++ repl ++ after) d)
    as Hgen by (apply Hgen, E).
  intros d ->. apply sublist_app; [done|]. by apply sublist_app.
Qed.

(** A pattern whose matches run forward and contain the replacement as
    a subsequence. *)
Definition shrinking (r : regex) (repl : string) : Prop :=
  forall ps pv s st,
    match_at r ps pv s = Some st ->
    ps <= pos st /\ sublist (list_ascii_of_string repl) (take (pos st - ps) (list_ascii_of_string s)).

Lemma splice_finditer r repl text :
  shrinking r repl ->
  forall s skip ps pv i,
    s = Py.drop ps text -> i <= ps + skip ->
    sublist (list_ascii_of_string (splice repl text i (finditer_from r skip ps pv s)))
            (drop i (list_ascii_of_string text)).
Proof.
  intros Hr s.
  assert (forall ps pv s st i after,
            s = Py.drop ps text -> i <= ps ->
            match_at r ps pv s = Some st ->
            sublist (list_ascii_of_string after) (drop (pos st) (list_ascii_of_string text)) ->
            sublist (list_ascii_of_string (Py.slice text i ps +:+ repl +:+ after))
                    (drop i (list_ascii_of_string text))) as Hone.
  { intros ps pv s0 st i after -> Hi Hm Hafter.
    destruct (Hr _ _ _ _ Hm) as [Hle Hsub].
    rewrite !chars_app. unfold Py.slice. rewrite chars_take, !chars_drop.
    rewrite chars_drop in Hsub. by apply splice_one with (e := pos st). }
  induction s as [|a s IH]; intros skip ps pv i Hs Hi.
  - destruct skip as [|n]; simpl; [|by rewrite chars_drop].
    destruct (match_at r ps pv "") as [st|] eqn:Em; simpl;
      [|by rewrite chars_drop].
    apply (Hone ps pv "" st); try done; [lia|]. by rewrite chars_drop.
  - symmetry in Hs. pose proof (drop_next _ _ _ _ Hs) as Hs'. symmetry in Hs, Hs'.
    destruct skip as [|n]; simpl.
    + destruct (match_at r ps pv (String a s)) as [st|] eqn:Em; simpl.
      * apply (Hone ps pv (String a s) st); try done; [lia|].
        apply IH; [done|]. destruct (Hr _ _ _ _ Em) as [Hle _]. lia.
      * apply IH; [done | lia].
    + apply IH; [done | lia].
Qed.

Lemma sub_shrinks r repl text :
  shrinking r repl -> sublist (list_ascii_of_string (sub r repl text)) (list_ascii_of_string text).
Proof.
  intros Hr. unfold sub, finditer.
  by apply (splice_finditer r repl text Hr text 0 0 None 0).
Qed.

(** Deleting the matches of any pattern. *)
Lemma shrinking_delete r : shrinking r "".
Proof.
  intros ps pv s st Hm. split; [|apply sublist_nil_l].
  apply run_progress in Hm as (st' & [= ->] & H). simpl in H. lia.
Qed.

(** Three or more line feeds give way to two of them. *)
Lemma shrinking_blank_lines : shrinking blank_lines (nl +:+ nl).
Proof.
  intros ps pv s st Hm.
  pose proof Hm as Hlen.
  apply run_progress in Hlen as (st' & [= ->] & Hlen). simpl in Hlen.
  split; [lia|].
  unfold match_at, blank_lines in Hm. simpl in Hm.
  destruct s as [|a [|b s]]; simpl in Hm; try done.
  - by destruct (Ascii.eqb a Py.newline).
  - destruct (Ascii.eqb_spec a Py.newline) as [->|]; [|done]. simpl in Hm.
    destruct (Ascii.eqb_spec b Py.newline) as [->|]; [|done].
    replace (pos st - ps) with (S (S (pos st - ps - 2))) by lia.
    simpl. apply sublist_skip, sublist_skip, sublist_nil_l.
Qed.

Lemma lstrip_sub s : sublist (list_ascii_of_string (Py.lstrip s)) (list_ascii_of_string s).
Proof.
  induction s as [|c s IH]; [done|]. simpl.
  destruct (Py.isspace c); [by apply sublist_cons | done].
Qed.

Lemma rstrip_sub s : sublist (list_ascii_of_string (Py.rstrip s)) (list_ascii_of_string s).
Proof.
  induction s as [|c s IH]; [done|]. rewrite rstrip_cons.
  destruct (String.eqb_spec (Py.rstrip s) "") as [E|E].
  - destruct (Py.isspace c); simpl; [apply sublist_nil_l|].
    apply sublist_skip, sublist_nil_l.
  - simpl. by apply sublist_skip.
Qed.

Lemma join_map_sub (f : string -> string) lines :
  (forall l, sublist (list_ascii_of_string (f l)) (list_ascii_of_string l)) ->
  sublist (list_ascii_of_string (Py.join_with nl (map f lines)))
          (list_ascii_of_string (Py.join_with nl lines)).
Proof.
  intros Hf. induction lines as [|l rest IH]; [done|].
  destruct rest as [|r rs]; [apply Hf|].
  change (Py.join_with nl (map f (l :: r :: rs)))
    with (f l +:+ nl +:+ Py.join_with nl (map f (r :: rs)))%string.
  change (Py.join_with nl (l :: r :: rs))
    with (l +:+ nl +:+ Py.join_with nl (r :: rs))%string.
  rewrite !chars_app. apply sublist_app; [apply Hf|].
  apply sublist_app; [done | exact IH].
Qed.

Lemma join_with_cons_char c l lines :
  Py.join_with nl (String c l :: lines)
  = String c (Py.join_with nl (l :: lines)).
Proof. destruct lines; [done|]. simpl. by rewrite append_cons. Qed.

Lemma join_blank_first lines :
  list_ascii_of_string (Py.join_with nl (EmptyString :: lines))
  = match lines with
    | [] => []
    | _ => Py.newline :: list_ascii_of_string (Py.join_with nl lines)
    end.
Proof. by destruct lines. Qed.

Lemma join_splitlines_sub text :
  sublist (list_ascii_of_string (Py.join_with nl (Py.splitlines text)))
          (map to_line_feed (list_ascii_of_string text)).
Proof.
  remember (Py.len text) as n eqn:Hn. assert (Py.len text <= n) as Hle by lia.
  clear Hn. revert text Hle. unfold Py.len.
  induction n as [|n IH]; intros s Hle.
  - destruct s; [done | simpl in Hle; lia].
  - destruct s as [|c s]; [done|]. simpl in Hle.
    cbn [Py.splitlines list_ascii_of_string map]. unfold to_line_feed at 1.
    destruct (Py.is_linebreak c) eqn:Ec.
    + rewrite join_blank_first.
      destruct (Ascii.eqb c Py.carriage_return).
      * destruct s as [|c' s']; [apply sublist_nil_l|]. simpl in Hle.
        destruct (Ascii.eqb c' Py.newline).
        -- destruct (Py.splitlines s') eqn:E; [apply sublist_nil_l|].
           rewrite <- E. apply sublist_skip. cbn [list_ascii_of_string map].
           apply sublist_cons. apply IH. lia.
        -- destruct (Py.splitlines (String c' s')) eqn:E; [apply sublist_nil_l|].
           rewrite <- E. apply sublist_skip. apply IH. simpl. lia.
      * destruct (Py.splitlines s) eqn:E; [apply sublist_nil_l|].
        rewrite <- E. apply sublist_skip. apply IH. lia.
    + assert (sublist (list_ascii_of_string (Py.join_with nl (Py.splitlines s)))
                      (map to_line_feed (list_ascii_of_string s))) as H by (apply IH; lia).
      destruct (Py.splitlines s) as [|l ls].
      * simpl. apply sublist_skip, sublist_nil_l.
      * rewrite join_with_cons_char. simpl. by apply sublist_skip.
Qed.

Lemma to_line_feed_idem c : to_line_feed (to_line_feed c) = to_line_feed c.
Proof.
  unfold to_line_feed. destruct (Py.is_linebreak c) eqn:E; [done|]. by rewrite E.
Qed.

Lemma line_feed_sub (a l : list ascii) :
  sublist a (map to_line_feed l) ->
  sublist (map to_line_feed a) (map to_line_feed l).
Proof.
  intros H. apply (fmap_sublist to_line_feed) in H.
  change (to_line_feed <$> a) with (map to_line_feed a) in H.
  change (to_line_feed <$> map to_line_feed l)
    with (map to_line_feed (map to_line_feed l)) in H.
  rewrite map_map in H.
  by rewrite (map_ext _ to_line_feed to_line_feed_idem) in H.
Qed.

(** One pass of "split into lines, trim each line, join". *)
Lemma trim_pass_sub (f : string -> string) text (l : list ascii) :
  (forall x, sublist (list_ascii_of_string (f x)) (list_ascii_of_string x)) ->
  sublist (map to_line_feed (list_ascii_of_string text)) l ->
  sublist (list_ascii_of_string (Py.join_with nl (map f (Py.splitlines text)))) l.
Proof.
  intros Hf Ht. etransitivity; [by apply join_map_sub|].
  etransitivity; [apply join_splitlines_sub | exact Ht].
Qed.

(** X17: cleaning only deletes.  The cleaned script is a subsequence of
    the raw text in which every line boundary is read as a line feed:
    its characters are characters of the raw text, in their order, the
    only change to a character being a CR, VT, FF, FS, GS, RS or NEL
    that has become a line feed.  So the cleaned script is never
    longer than the raw text, and holds no character other than a line
    feed that the raw text does not hold. *)
Theorem clean_script_only_deletes raw_text :
  sublist (list_ascii_of_string (clean_script raw_text)) (map to_line_feed (list_ascii_of_string raw_text))
  /\ Py.len (clean_script raw_text) <= Py.len raw_text
  /\ forall c, In c (list_ascii_of_string (clean_script raw_text)) ->
               c = Py.newline \/ In c (list_ascii_of_string raw_text).
Proof.
  assert (sublist (list_ascii_of_string (clean_script raw_text))
                  (map to_line_feed (list_ascii_of_string raw_text))) as H.
  { unfold clean_script, Py.strip. cbv zeta.
    etransitivity; [apply rstrip_sub|]. etransitivity; [apply lstrip_sub|].
    apply trim_pass_sub; [apply lstrip_sub|]. apply line_feed_sub.
    apply trim_pass_sub; [apply rstrip_sub|].
    apply (fmap_sublist to_line_feed).
    etransitivity; [apply sub_shrinks, shrinking_blank_lines|].
    do 7 (etransitivity; [apply sub_shrinks, shrinking_delete|]).
    done. }
  split; [exact H|]. split.
  - apply sublist_length in H. by rewrite length_map, !chars_len in H.
  - intros c Hc. rewrite <- list_elem_of_In in Hc.
    apply (elem_of_sublist _ _ _ Hc) in H as Hc'. clear Hc. rename Hc' into Hc.
    rewrite list_elem_of_In in Hc. apply in_map_iff in Hc as (c0 & <- & Hc0).
    unfold to_line_feed. destruct (Py.is_linebreak c0); auto.
Qed.

(** *** Loading the scripts *)

Definition is_txt (f : string) : bool := Py.endswith f ".txt".

(** The scenes of one script file. *)
Definition file_scenes (fs : FileSystem) (scripts_dir filename : string)
  : option (list Document) :=
  raw_text ← read_text fs (path_join scripts_dir filename);
  Some (extract_scenes (clean_script raw_text) (derive_film_title filename)).

Lemma script_step_scenes fs dir all_docs f :
  script_step fs dir all_docs f
  = (g ← file_scenes fs dir f; Some (all_docs ++ g)).
Proof.
  unfold script_step, file_scenes.
  by destruct (read_text fs (path_join dir f)).
Qed.

Lemma script_loop_groups fs dir files all_docs :
  script_loop fs dir files all_docs
  = (groups ← mapM (file_scenes fs dir) files; Some (all_docs ++ concat groups)).
Proof.
  revert all_docs. induction files as [|f files IH]; intros all_docs.
  - simpl. by rewrite app_nil_r.
  - cbn [script_loop mapM]. rewrite script_step_scenes.
    destruct (file_scenes fs dir f) as [g|]; [|done].
    cbn [mbind option_bind]. rewrite IH.
    destruct (mapM (file_scenes fs dir) files) as [groups|]; [|done].
    simpl. by rewrite <- app_assoc.
Qed.

Lemma sorted_names (names : list string) :
  Permutation (Py.sorted names) names
  /\ Sorted (fun a b => String.leb a b = true) (Py.sorted names).
Proof.
  split; [apply merge_sort_Permutation|].
  assert (Total (fun a b : string => String.leb a b : Prop)) as Htotal.
  { intros a b. destruct (String.leb_total a b) as [->| ->]; simpl; auto. }
  pose proof (Sorted_merge_sort (fun a b : string => String.leb a b : Prop) names)
    as Hs.
  fold (Py.sorted names) in Hs.
  induction Hs as [|a l _ IH Hhd]; constructor; [exact IH|].
  destruct Hhd as [|b l Hab]; constructor. by apply Is_true_true.
Qed.

Lemma load_groups fs dir names :
  listdir fs dir = Some names ->
  load_and_process_scripts fs dir
  = match Py.sorted (List.filter is_txt names) with
    | [] => None
    | files => groups ← mapM (file_scenes fs dir) files; Some (concat groups)
    end.
Proof.
  intros E. unfold load_and_process_scripts. rewrite E. cbn [mbind option_bind].
  fold is_txt. destruct (Py.sorted (List.filter is_txt names)) as [|f files] eqn:Ef;
    [done|].
  by rewrite script_loop_groups.
Qed.

(** The film and the scene ids of the Documents of one script. *)
Lemma extract_scenes_keys cleaned_text film_title :
  Forall (fun d => film d = film_title) (extract_scenes cleaned_text film_title)
  /\ NoDup (map scene_id (extract_scenes cleaned_text film_title)).
Proof.
  destruct (find_headers cleaned_text) as [|h hs] eqn:E.
  - rewrite extract_scenes_fallback by done. split; repeat constructor.
    set_solver.
  - rewrite extract_scenes_headers by (rewrite E; done). rewrite E. split.
    + apply List.Forall_forall. intros d Hd.
      by apply scene_of_header in Hd as [? _].
    + apply sorted_lt_nodup.
      apply (scene_ids_from cleaned_text film_title (h :: hs) 0 (h :: hs)).
Qed.

Lemma file_scenes_keys fs dir f g :
  file_scenes fs dir f = Some g ->
  Forall (fun d => film d = derive_film_title f) g
  /\ NoDup (map scene_id g).
Proof.
  unfold file_scenes. destruct (read_text fs (path_join dir f)); [|done].
  intros [= <-]. apply extract_scenes_keys.
Qed.

Lemma Forall2_In_l {A B} (R : A -> B -> Prop) l k x :
  Forall2 R l k -> In x l -> exists y, In y k /\ R x y.
Proof.
  induction 1 as [|a b l k Hab _ IH]; simpl; [done|].
  intros [<- | Hx]; [exists b; auto|].
  destruct (IH Hx) as (y & ? & ?). exists y. auto.
Qed.

Lemma Forall2_In_r {A B} (R : A -> B -> Prop) l k y :
  Forall2 R l k -> In y k -> exists x, In x l /\ R x y.
Proof.
  induction 1 as [|a b l k Hab _ IH]; simpl; [done|].
  intros [<- | Hy]; [exists a; auto|].
  destruct (IH Hy) as (x & ? & ?). exists x. auto.
Qed.

(** X18: [load_and_process_scripts], when the directory can be listed,
    works on the names that end in [.txt] and on no other, taken in
    code-point order of the names.  It raises exactly when no name ends
    in [.txt] or the file of such a name cannot be read; otherwise it
    returns the scenes of the first file, then those of the second, and
    so on, each file's scenes being [extract_scenes] of its cleaned
    text under the title derived from its name, so that every Document
    carries the derived title of a [.txt] name of the directory. *)
Theorem scripts_are_processed_by_name fs dir names :
  listdir fs dir = Some names ->
  let files := Py.sorted (List.filter is_txt names) in
  Permutation files (List.filter is_txt names)
  /\ Sorted (fun a b => String.leb a b = true) files
  /\ (load_and_process_scripts fs dir = None
      <-> (forall f, In f names -> is_txt f = false)
          \/ exists f, In f names /\ is_txt f = true
                       /\ read_text fs (path_join dir f) = None)
  /\ forall docs,
       load_and_process_scripts fs dir = Some docs ->
       (exists groups,
          docs = concat groups
          /\ Forall2 (fun f g =>
                        exists raw_text,
                          read_text fs (path_join dir f) = Some raw_text
                          /\ g = extract_scenes (clean_script raw_text)
                                   (derive_film_title f))
                     files groups)
       /\ Forall (fun d => exists f, In f names /\ is_txt f = true
                                     /\ film d = derive_film_title f) docs.
Proof.
  intros E files.
  destruct (sorted_names (List.filter is_txt names)) as [Hperm Hsorted].
  fold files in Hperm, Hsorted.
  assert (forall f, In f files <-> In f names /\ is_txt f = true) as Hin.
  { intros f. rewrite <- filter_In, <- !list_elem_of_In. by rewrite Hperm. }
  split; [exact Hperm|]. split; [exact Hsorted|].
  rewrite (load_groups fs dir names E). fold files. split.
  - split.
    + intros Hnone. destruct files as [|f0 rest] eqn:Ef.
      * left. intros f Hf. destruct (is_txt f) eqn:Et; [|done].
        exfalso. by apply (proj2 (Hin f)).
      * right. rewrite <- Ef in *.
        destruct (mapM (file_scenes fs dir) files) as [groups|] eqn:Em; [done|].
        assert (~ Forall (fun f => is_Some (file_scenes fs dir f)) files) as Hno.
        { intros Hall. apply mapM_is_Some_2 in Hall as [? Hall]. congruence. }
        apply not_Forall_Exists in Hno; [|intros f; apply _].
        apply Exists_exists in Hno as (f & Hf & Hnot).
        rewrite list_elem_of_In in Hf. apply Hin in Hf as [Hf Ht].
        exists f. split; [done|]. split; [done|].
        unfold compose, file_scenes in Hnot.
        destruct (read_text fs (path_join dir f)); [|done].
        exfalso. apply Hnot. simpl. by eexists.
    + intros [Hnone | (f & Hf & Ht & Hr)].
      * destruct files as [|f0 rest] eqn:Ef; [done|]. exfalso.
        assert (In f0 (f0 :: rest)) as H0 by (by left).
        apply Hin in H0 as [H0 Ht]. rewrite (Hnone f0 H0) in Ht. done.
      * assert (In f files) as Hfiles by (by apply Hin).
        destruct files as [|f0 rest] eqn:Ef; [done|]. rewrite <- Ef in *.
        destruct (mapM (file_scenes fs dir) files) as [groups|] eqn:Em; [|done].
        exfalso. apply mapM_Some in Em.
        destruct (Forall2_In_l _ _ _ _ Em Hfiles) as (g & _ & Hg).
        unfold file_scenes in Hg. by rewrite Hr in Hg.
  - intros docs Hdocs.
    assert (exists groups, mapM (file_scenes fs dir) files = Some groups
                           /\ docs = concat groups) as (groups & Em & ->).
    { destruct files; [done|].
      destruct (mapM _ _) as [groups|]; [|done]. injection Hdocs as <-.
      by exists groups. }
    apply mapM_Some in Em. split.
    + exists groups. split; [done|].
      eapply Forall2_impl; [exact Em|]. intros f g Hg. unfold file_scenes in Hg.
      destruct (read_text fs (path_join dir f)) as [raw|]; [|done].
      injection Hg as <-. by exists raw.
    + apply List.Forall_forall. intros d Hd. apply in_concat in Hd as (g & Hg & Hd).
      destruct (Forall2_In_r _ _ _ _ Em Hg) as (f & Hf & Hfg).
      apply Hin in Hf as [Hf Ht].
      exists f. split; [done|]. split; [done|].
      apply file_scenes_keys in Hfg as [Hfilm _].
      rewrite List.Forall_forall in Hfilm. by apply Hfilm.
Qed.

(** A directory with two scripts and a file that is not one. *)
Definition demo_names : list string :=
  [ "b-side.txt"; "notes.md"; "a-new-hope.txt" ]%string.

Definition demo_fs : FileSystem :=
  {| listdir := fun d =>
       if String.eqb d "scripts" then Some demo_names else None;
     read_text := fun path =>
       if String.eqb path "scripts/a-new-hope.txt" then Some two_scenes
       else if String.eqb path "scripts/b-side.txt" then Some short_scenes
       else None |}.

Lemma scripts_are_processed_by_name_witness :
  listdir demo_fs "scripts" = Some demo_names
  /\ Permutation (Py.sorted (List.filter is_txt demo_names))
                 (List.filter is_txt demo_names).
Proof.
  split; [reflexivity|].
  exact (proj1 (scripts_are_processed_by_name demo_fs "scripts" demo_names
                  eq_refl)).
Defined.

(** Documents of scripts with different titles differ in their film. *)
Lemma groups_keys_nodup fs dir files groups :
  NoDup (map derive_film_title files) ->
  Forall2 (fun f g => file_scenes fs dir f = Some g) files groups ->
  NoDup (map ChunkerProps.doc_key (concat groups))
  /\ Forall (fun d => In (film d) (map derive_film_title files)) (concat groups).
Proof.
  intros Hnd H. induction H as [|f g files groups Hfg _ IH]; simpl.
  - split; constructor.
  - inversion Hnd as [|? ? Hf Hrest]; subst.
    destruct (IH Hrest) as [IHnd IHin].
    apply file_scenes_keys in Hfg as [Hfilm Hids]. split.
    + rewrite map_app. apply NoDup_app. split; [|split; [|exact IHnd]].
      * clear -Hfilm Hids. induction g as [|d g IHg]; simpl; [constructor|].
        inversion Hfilm as [|? ? Hd Hg]; subst.
        simpl in Hids. apply NoDup_cons in Hids as [Hd' Hids].
        constructor; [|by apply IHg].
        intros Hin. apply Hd'. apply list_elem_of_In in Hin.
        apply list_elem_of_In.
        apply in_map_iff in Hin as (d' & Hk & Hd'').
        apply in_map_iff. exists d'. split; [|done].
        unfold ChunkerProps.doc_key in Hk. by injection Hk.
      * intros k Hk Hk'. rewrite list_elem_of_In in Hk, Hk'.
        apply in_map_iff in Hk as (d & <- & Hd).
        apply in_map_iff in Hk' as (d' & Hk' & Hd').
        rewrite List.Forall_forall in Hfilm, IHin.
        specialize (Hfilm d Hd). specialize (IHin d' Hd').
        unfold ChunkerProps.doc_key in Hk'. injection Hk' as Hfilm' _.
        apply Hf. rewrite ?list_elem_of_In. by rewrite <- Hfilm, <- Hfilm'.
    + apply Forall_app. split.
      * eapply Forall_impl; [exact Hfilm|]. simpl. intros d ->. by left.
      * eapply Forall_impl; [exact IHin|]. simpl. intros d Hd. by right.
Qed.

(** X19: when the [.txt] names of the directory have pairwise different
    derived titles, no two Documents that [load_and_process_scripts]
    returns share their (film, scene_id) pair; so, whatever the
    splitter, chunks cut from them that share that pair share
    [total_chunks]. *)
Theorem distinct_titles_distinct_scenes fs dir names docs :
  listdir fs dir = Some names ->
  NoDup (map derive_film_title (List.filter is_txt names)) ->
  load_and_process_scripts fs dir = Some docs ->
  NoDup (map ChunkerProps.doc_key docs)
  /\ forall splitter,
       ChunkerProps.same_pair_same_total
         (Chunker.chunk_documents splitter docs).
Proof.
  intros E Hnd Hdocs.
  assert (NoDup (map ChunkerProps.doc_key docs)) as H.
  { rewrite (load_groups fs dir names E) in Hdocs.
    destruct (sorted_names (List.filter is_txt names)) as [Hperm _].
    set (files := Py.sorted (List.filter is_txt names)) in *.
    assert (exists groups, mapM (file_scenes fs dir) files = Some groups
                           /\ docs = concat groups) as (groups & Em & ->).
    { destruct files; [done|].
      destruct (mapM _ _) as [groups|]; [|done]. injection Hdocs as <-.
      by exists groups. }
    apply mapM_Some in Em.
    apply (groups_keys_nodup fs dir files groups); [|exact Em].
    change (map derive_film_title files) with (derive_film_title <$> files).
    rewrite Hperm. exact Hnd. }
  split; [exact H|]. intros splitter.
  by apply ChunkerProps.distinct_pairs_same_total.
Qed.

Lemma demo_titles_nodup :
  NoDup (map derive_film_title (List.filter is_txt demo_names)).
Proof.
  assert (map derive_film_title (List.filter is_txt demo_names)
          = ["B Side"; "A New Hope"]%string) as -> by (vm_compute; reflexivity).
  apply NoDup_cons. split; [|apply NoDup_singleton].
  intros H. apply list_elem_of_In in H. simpl in H.
  destruct H as [H|[]]. discriminate.
Qed.

Lemma distinct_titles_distinct_scenes_witness :
  exists docs,
    load_and_process_scripts demo_fs "scripts" = Some docs
    /\ NoDup (map ChunkerProps.doc_key docs).
Proof.
  assert (exists docs, load_and_process_scripts demo_fs "scripts" = Some docs)
    as [docs Hdocs] by (vm_compute; eauto).
  assert (listdir demo_fs "scripts" = Some demo_names) as E by reflexivity.
  exists docs. split; [exact Hdocs|].
  exact (proj1 (distinct_titles_distinct_scenes demo_fs "scripts" demo_names
                  docs E demo_titles_nodup Hdocs)).
Defined.

(** *** A corpus without scenes *)

Lemma filter_nil_Forall {A} (p : A -> bool) (l : list A) :
  List.filter p l = [] <-> Forall (fun x => p x = false) l.
Proof.
  induction l as [|x l IH]; simpl; [by split; [constructor|]|].
  destruct (p x) eqn:E.
  - split; [done|]. intros H. apply Forall_cons in H as [H _]. congruence.
  - rewrite IH. split; [by constructor|]. by intros [_ H]%Forall_cons.
Qed.

(** A script yields no Document exactly when headers are detected in
    it and every span trims to fewer than 30 characters. *)
Lemma extract_scenes_empty cleaned_text film_title :
  extract_scenes cleaned_text film_title = []
  <-> find_headers cleaned_text <> []
      /\ Forall (fun t => Py.len (Py.strip t) < 30) (raw_spans cleaned_text).
Proof.
  destruct (find_headers cleaned_text) as [|h hs] eqn:E.
  - rewrite extract_scenes_fallback by done. split; [done|]. by intros [? _].
  - assert (find_headers cleaned_text <> []) as Hne by (rewrite E; done).
    rewrite <- E. rewrite extract_scenes_headers by done.
    pose proof (kept_texts cleaned_text film_title (find_headers cleaned_text)
                  (enumerate (find_headers cleaned_text))) as Hk.
    fold (raw_spans cleaned_text) in Hk.
    assert (forall A B (f : A -> B) (l : list A), map f l = [] <-> l = [])
      as Hmap by (intros A B f [|? ?]; simpl; split; done).
    rewrite <- (Hmap _ _ text), Hk, filter_nil_Forall, Forall_map.
    split.
    + intros H. split; [done|]. eapply Forall_impl; [exact H|].
      simpl. intros t Ht. apply negb_false_iff, Nat.ltb_lt in Ht. exact Ht.
    + intros [_ H]. eapply Forall_impl; [exact H|].
      simpl. intros t Ht. by apply negb_false_iff, Nat.ltb_lt.
Qed.

Lemma concat_nil {A} (ls : list (list A)) :
  concat ls = [] <-> Forall (fun l => l = []) ls.
Proof.
  induction ls as [|l ls IH]; simpl; [by split; [constructor|]|].
  split.
  - intros [-> H]%app_eq_nil. constructor; [done | by apply IH].
  - intros [-> H]%Forall_cons. simpl. by apply IH.
Qed.

(** X20: the main block writes the Documents before it previews the
    first one.  It writes an empty list, and then stops on the preview
    without reaching its end, exactly when the directory can be
    listed, holds at least one [.txt] name, and every [.txt] file can
    be read, has a detected header, and has only spans that trim to
    fewer than 30 characters.  A chunking run on that empty list stops
    in [print_stats], before it writes its own output. *)
Theorem empty_corpus_stops_both_stages fs splitter :
  (output_file (main fs) = Some []
   <-> exists names,
         listdir fs SCRIPTS_DIR = Some names
         /\ (exists f, In f names /\ is_txt f = true)
         /\ forall f, In f names -> is_txt f = true ->
              exists raw_text,
                read_text fs (path_join SCRIPTS_DIR f) = Some raw_text
                /\ find_headers (clean_script raw_text) <> []
                /\ Forall (fun t => Py.len (Py.strip t) < 30)
                          (raw_spans (clean_script raw_text)))
  /\ (output_file (main fs) = Some [] ->
      completed (main fs) = false
      /\ match output_file (main fs) with
         | Some docs => Chunker.main splitter docs = None
         | None => True
         end).
Proof.
  split.
  - assert (output_file (main fs) = Some []
            <-> load_and_process_scripts fs SCRIPTS_DIR = Some []) as ->.
    { unfold main. destruct (load_and_process_scripts fs SCRIPTS_DIR) as [docs|];
        simpl; [|done]. done. }
    destruct (listdir fs SCRIPTS_DIR) as [names|] eqn:E.
    2:{ split; [|by intros (names & ? & _)].
        unfold load_and_process_scripts. by rewrite E. }
    rewrite (load_groups fs SCRIPTS_DIR names E).
    destruct (sorted_names (List.filter is_txt names)) as [Hperm _].
    set (files := Py.sorted (List.filter is_txt names)) in *.
    assert (forall f, In f files <-> In f names /\ is_txt f = true) as Hin.
    { intros f. rewrite <- filter_In, <- !list_elem_of_In. by rewrite Hperm. }
    split.
    + intros H.
      assert (exists groups, mapM (file_scenes fs SCRIPTS_DIR) files = Some groups
                             /\ concat groups = []
                             /\ files <> []) as (groups & Em & Hnil & Hne).
      { destruct files; [done|].
        destruct (mapM _ _) as [groups|]; [|done]. injection H as H.
        by exists groups. }
      apply mapM_Some in Em. apply concat_nil in Hnil.
      exists names. split; [done|]. split.
      * destruct files as [|f0 rest] eqn:Ef; [done|]. exists f0.
        apply Hin. by left.
      * intros f Hf Ht.
        destruct (Forall2_In_l _ _ _ _ Em (proj2 (Hin f) (conj Hf Ht)))
          as (g & Hg & Hfg).
        rewrite List.Forall_forall in Hnil. rewrite (Hnil g Hg) in Hfg.
        unfold file_scenes in Hfg.
        destruct (read_text fs (path_join SCRIPTS_DIR f)) as [raw|]; [|done].
        exists raw. split; [done|]. injection Hfg as Hfg.
        by apply extract_scenes_empty in Hfg.
    + intros (names' & [= <-] & (f0 & Hf0 & Ht0) & Hall).
      assert (Forall (fun f => file_scenes fs SCRIPTS_DIR f = Some []) files)
        as Hfiles.
      { apply List.Forall_forall. intros f [Hf Ht]%Hin.
        destruct (Hall f Hf Ht) as (raw & Hr & Hh & Hs).
        unfold file_scenes. rewrite Hr. simpl. f_equal.
        by apply extract_scenes_empty. }
      assert (In f0 files) as H0 by (by apply Hin).
      assert (mapM (file_scenes fs SCRIPTS_DIR) files
              = Some (map (fun _ => []) files)) as Em.
      { apply mapM_Some. clear -Hfiles.
        induction Hfiles; constructor; done. }
      destruct files as [|f1 rest] eqn:Ef; [done|].
      rewrite Em. cbn [mbind option_bind]. f_equal.
      apply concat_nil, Forall_map. by apply List.Forall_forall.
  - unfold main.
    destruct (load_and_process_scripts fs SCRIPTS_DIR) as [docs|]; simpl; [|done].
    intros [= ->]. done.
Qed.

(** A script with a header and too little under it. *)
Definition bare_fs : FileSystem :=
  {| listdir := fun _ => Some [ "a-new-hope.txt"%string ];
     read_text := fun _ => Some short_scenes |}.

(** Such a run exists. *)
Lemma bare_corpus_is_empty :
  output_file (main bare_fs) = Some [] /\ completed (main bare_fs) = false.
Proof. vm_compute. by split. Qed.

(** *** Headings *)

(** A matcher state that sits inside [text]: what is left to read is
    the text from the position reached. *)
Definition coherent (text : string) (st : mstate) : Prop :=
  pos st <= Py.len text /\ rest st = Py.drop (pos st) text.

Lemma drop_nonempty n text a s :
  Py.drop n text = String a s -> n < Py.len text.
Proof.
  intros H. pose proof (str_len_drop n text) as Hl. rewrite H in Hl.
  unfold Py.len in *. simpl in Hl. lia.
Qed.

Lemma coherent_step text ps a s g :
  ps <= Py.len text -> String a s = Py.drop ps text ->
  coherent text {| pos := S ps; prev := Some a; rest := s; g1 := g |}.
Proof.
  intros _ H. symmetry in H. split; simpl.
  - apply drop_nonempty in H. lia.
  - symmetry. by apply drop_next in H.
Qed.

Lemma plus_greedy_coherent text p s ps g k x :
  ps <= Py.len text -> s = Py.drop ps text ->
  plus_greedy p s ps g k = Some x ->
  exists st, k st = Some x /\ coherent text st /\ ps + 1 <= pos st.
Proof.
  revert ps. induction s as [|a s IH]; intros ps Hps Hs; simpl; [done|].
  destruct (p a); [|done].
  pose proof (coherent_step text ps a s g Hps Hs) as Hc.
  intros [H|H]%orelse_some.
  - apply IH in H as (st & ? & ? & ?); [|apply Hc..].
    exists st. split; [done|]. split; [done | lia].
  - eexists. split; [exact H|]. split; [exact Hc|]. simpl. lia.
Qed.

Lemma plus_lazy_coherent text p s ps g k x :
  ps <= Py.len text -> s = Py.drop ps text ->
  plus_lazy p s ps g k = Some x ->
  exists st, k st = Some x /\ coherent text st /\ ps + 1 <= pos st.
Proof.
  revert ps. induction s as [|a s IH]; intros ps Hps Hs; simpl; [done|].
  destruct (p a); [|done].
  pose proof (coherent_step text ps a s g Hps Hs) as Hc.
  intros [H|H]%orelse_some.
  - eexists. split; [exact H|]. split; [exact Hc|]. simpl. lia.
  - apply IH in H as (st & ? & ? & ?); [|apply Hc..].
    exists st. split; [done|]. split; [done | lia].
Qed.

(** The matcher never leaves the text: a successful run hands to its
    continuation a state inside the text, at least [min_len r]
    characters further. *)
Lemma run_coherent text r :
  forall st k x,
    coherent text st -> run r st k = Some x ->
    exists st', k st' = Some x /\ coherent text st'
                /\ pos st + min_len r <= pos st'.
Proof.
  induction r as [c|p| | |r1 IH1 r2 IH2|r1 IH1 r2 IH2|r1 IH1|p|p|r1 IH1];
    intros st k x Hc; simpl.
  - destruct (rest st) as [|a s'] eqn:Er; [done|].
    destruct (Ascii.eqb a c); [|done].
    intros H. eexists. split; [exact H|]. destruct Hc as [Hp Hr].
    split; [|simpl; lia]. unfold advance.
    apply coherent_step; [done | congruence].
  - destruct (rest st) as [|a s'] eqn:Er; [done|]. destruct (p a); [|done].
    intros H. eexists. split; [exact H|]. destruct Hc as [Hp Hr].
    split; [|simpl; lia]. unfold advance.
    apply coherent_step; [done | congruence].
  - intros H. exists st. split; [|split; [done | lia]].
    destruct (prev st) as [a|]; [|done]. by destruct (Py.is_newline a).
  - intros H. exists st. split; [|split; [done | lia]].
    destruct (rest st) as [|a ?]; [done|]. by destruct (Py.is_newline a).
  - intros H. apply IH1 in H as (st1 & H & Hc1 & ?); [|done].
    apply IH2 in H as (st2 & H & Hc2 & ?); [|done].
    exists st2. split; [done|]. split; [done | lia].
  - intros [H|H]%orelse_some.
    + apply IH1 in H as (st' & ? & Hc' & ?); [|done].
      exists st'. split; [done|]. split; [done | lia].
    + apply IH2 in H as (st' & ? & Hc' & ?); [|done].
      exists st'. split; [done|]. split; [done | lia].
  - intros [H|H]%orelse_some.
    + apply IH1 in H as (st' & ? & Hc' & ?); [|done].
      exists st'. split; [done|]. split; [done | lia].
    + exists st. split; [done|]. split; [done | lia].
  - intros H. destruct Hc as [Hp Hr].
    apply (plus_greedy_coherent text) in H as (st' & ? & ? & ?); try done.
    by exists st'.
  - intros H. destruct Hc as [Hp Hr].
    apply (plus_lazy_coherent text) in H as (st' & ? & ? & ?); try done.
    by exists st'.
  - intros H. apply IH1 in H as (st' & H & Hc' & ?); [|done].
    eexists. split; [exact H|]. split; [exact Hc'|]. simpl. lia.
Qed.

Lemma str_take_add n m s :
  Py.take (n + m) s = (Py.take n s +:+ Py.take m (Py.drop n s))%string.
Proof.
  revert s. induction n as [|n IH]; intros [|c s]; simpl; try done.
  - by destruct m.
  - by rewrite append_cons, IH.
Qed.

Lemma slice_split t a b c :
  a <= b -> b <= c ->
  Py.slice t a c = (Py.slice t a b +:+ Py.slice t b c)%string.
Proof.
  intros Hab Hbc. unfold Py.slice.
  replace (c - a) with ((b - a) + (c - b)) by lia.
  rewrite str_take_add, str_drop_drop. by replace (a + (b - a)) with b by lia.
Qed.

Lemma slice_cons text ps a s e :
  String a s = Py.drop ps text -> ps < e ->
  Py.slice text ps e = String a (Py.slice text (S ps) e).
Proof.
  intros Hs He. unfold Py.slice. rewrite <- Hs.
  symmetry in Hs. apply drop_next in Hs. rewrite Hs.
  by replace (e - ps) with (S (e - S ps)) by lia.
Qed.

(** What [c+] consumes is in the class. *)
Lemma plus_greedy_class text p s ps g k x :
  ps <= Py.len text -> s = Py.drop ps text ->
  plus_greedy p s ps g k = Some x ->
  exists st, k st = Some x /\ coherent text st /\ ps + 1 <= pos st
             /\ every p (Py.slice text ps (pos st)) = true.
Proof.
  revert ps. induction s as [|a s IH]; intros ps Hps Hs; simpl; [done|].
  destruct (p a) eqn:Ea; [|done].
  pose proof (coherent_step text ps a s g Hps Hs) as Hc.
  intros [H|H]%orelse_some.
  - apply IH in H as (st & ? & ? & ? & Hev); [|apply Hc..].
    exists st. split; [done|]. split; [done|]. split; [lia|].
    rewrite (slice_cons text ps a s) by (done || lia).
    simpl. by rewrite Ea, Hev.
  - eexists. split; [exact H|]. split; [exact Hc|]. simpl. split; [lia|].
    rewrite (slice_cons text ps a s) by (done || lia).
    unfold Py.slice. rewrite Nat.sub_diag. simpl. by rewrite Ea.
Qed.

Lemma every_app p a b :
  every p (a +:+ b) = every p a && every p b.
Proof.
  induction a as [|c a IH]; [done|]. rewrite append_cons. simpl.
  by rewrite IH, andb_assoc.
Qed.

Lemma every_impl (p q : ascii -> bool) s :
  (forall c, p c = true -> q c = true) -> every p s = true -> every q s = true.
Proof.
  intros Hpq. induction s as [|c s IH]; [done|]. simpl.
  intros [Hc Hs]%andb_true_iff. by rewrite (Hpq c Hc), IH.
Qed.

(** A literal word matches only where the text spells it. *)
Lemma word_prefix c w st k x :
  run (word c w) st k = Some x -> String.prefix (String c w) (rest st) = true.
Proof.
  revert c st k. induction w as [|c' w IH]; intros c st k; cbn [word run].
  - destruct (rest st) as [|a s']; [done|].
    destruct (Ascii.eqb_spec a c) as [->|]; [|done]. intros _. simpl.
    destruct (Ascii.ascii_dec c c); [by destruct s' | done].
  - destruct (rest st) as [|a s'] eqn:Er; [done|].
    destruct (Ascii.eqb_spec a c) as [->|]; [|done]. intros H.
    apply IH in H. simpl in H. cbn [String.prefix].
    destruct (Ascii.ascii_dec c c); done.
Qed.

(** The two parts of [scene_pattern] between [^] and [$]. *)
Definition numbering : regex :=
  Opt (Seq (Plus Py.isdecimal) (Plus Py.isspace)).

Definition location : regex :=
  Seq (Alt (word "I" "NT")
      (Alt (word "E" "XT")
      (Alt (word "I" "NT/EXT")
           (word "I" "/E"))))
 (Seq (Class dot_or_space)
      (PlusLazy not_newline)).

(** A string that opens like a scene heading. *)
Definition opens_heading (s : string) : Prop :=
  String.prefix "INT" s = true \/ String.prefix "EXT" s = true
  \/ String.prefix "I/E" s = true.

Lemma prefix_shorter w t s :
  String.prefix (w +:+ t) s = true -> String.prefix w s = true.
Proof.
  revert s. induction w as [|c w IH]; intros s; [by destruct s|].
  rewrite append_cons. destruct s as [|b s]; [done|]. cbn [String.prefix].
  destruct (Ascii.ascii_dec c b); [apply IH | done].
Qed.

Lemma location_opens st k x :
  run location st k = Some x -> opens_heading (rest st).
Proof.
  unfold location. cbn [run].
  intros [H|[H|[H|H]%orelse_some]%orelse_some]%orelse_some;
    apply word_prefix in H; unfold opens_heading; auto.
  left. by apply (prefix_shorter "INT" "/EXT").
Qed.

(** A digit or a whitespace character: what a scene number is made of. *)
Definition digit_or_space (c : ascii) : bool := Py.isdecimal c || Py.isspace c.

(** What the optional scene number consumes. *)
Lemma numbering_class text st k x :
  coherent text st -> run numbering st k = Some x ->
  exists st', k st' = Some x /\ coherent text st' /\ pos st <= pos st'
              /\ every digit_or_space (Py.slice text (pos st) (pos st')) = true.
Proof.
  intros [Hp Hr] H. unfold numbering in H. cbn [run] in H.
  apply orelse_some in H as [H|H].
  - apply (plus_greedy_class text) in H as (st1 & H & [Hp1 Hr1] & H1 & Hev1);
      try done.
    apply (plus_greedy_class text) in H as (st2 & H & Hc2 & H2 & Hev2);
      try done.
    exists st2. split; [done|]. split; [done|]. split; [lia|].
    rewrite (slice_split text (pos st) (pos st1) (pos st2)) by lia.
    rewrite every_app, andb_true_iff. split.
    + eapply every_impl; [|exact Hev1]. unfold digit_or_space.
      by intros c ->.
    + eapply every_impl; [|exact Hev2]. unfold digit_or_space.
      intros c ->. apply orb_true_r.
  - exists st. split; [done|]. split; [done|]. split; [lia|].
    unfold Py.slice. by rewrite Nat.sub_diag.
Qed.

(** A match of [scene_pattern]: group 1 opens like a heading, runs for
    at least five characters and ends where the match ends; before
    it the match holds digits and whitespace only. *)
Lemma scene_match_shape text ps pv st :
  ps <= Py.len text ->
  match_at scene_pattern ps pv (Py.drop ps text) = Some st ->
  exists a, g1 st = Some (a, pos st)
            /\ ps <= a /\ a + 5 <= pos st /\ pos st <= Py.len text
            /\ opens_heading (Py.drop a text)
            /\ every digit_or_space (Py.slice text ps a) = true.
Proof.
  intros Hps H. unfold match_at in H.
  set (st0 := {| pos := ps; prev := pv; rest := Py.drop ps text; g1 := None |})
    in H.
  assert (coherent text st0) as Hc0 by (by split).
  change (run Bol st0
            (fun sa => run numbering sa
               (fun st1 => run location st1
                  (fun st2 => run Eol (set_group (pos st1) st2) Some)))
          = Some st) in H.
  assert (run numbering st0
            (fun st1 => run location st1
               (fun st2 => run Eol (set_group (pos st1) st2) Some))
          = Some st) as H'.
  { cbn [run] in H. destruct (prev st0) as [c|]; [|done].
    by destruct (Py.is_newline c). }
  clear H. rename H' into H.
  apply (numbering_class text) in H as (st1 & H & Hc1 & H1 & Hev); [|done].
  pose proof (location_opens _ _ _ H) as Hopen.
  apply (run_coherent text) in H as (st2 & H & Hc2 & H2); [|done].
  assert (st = set_group (pos st1) st2) as ->.
  { simpl in H. destruct (rest st2) as [|c ?]; [by injection H|].
    destruct (Py.is_newline c); [by injection H | done]. }
  exists (pos st1). simpl in *. destruct Hc1 as [_ Hr1], Hc2 as [Hp2 _].
  rewrite Hr1 in Hopen.
  split; [done|]. split; [done|]. split; [lia|]. split; [done|]. by split.
Qed.

(** What [finditer] reports are matches, none starting before the
    previous one ends. *)
Definition match_of (r : regex) (text : string) (m : Match) : Prop :=
  exists pv st,
    match_at r (m_start m) pv (Py.drop (m_start m) text) = Some st
    /\ m_end m = pos st /\ m_group1 m = g1 st /\ m_start m <= Py.len text.

Lemma finditer_from_sound r text s :
  forall skip ps pv,
    ps <= Py.len text -> s = Py.drop ps text ->
    Forall (fun m => ps + skip <= m_start m /\ match_of r text m)
           (finditer_from r skip ps pv s)
    /\ Sorted (fun m m' => m_end m <= m_start m')
              (finditer_from r skip ps pv s).
Proof.
  induction s as [|a s IH]; intros skip ps pv Hps Hs.
  - destruct skip as [|n]; simpl; [|split; constructor].
    destruct (match_at r ps pv "") as [st|] eqn:Em; [|split; constructor].
    split; repeat constructor; simpl; [lia|].
    exists pv, st. simpl. rewrite <- Hs. done.
  - assert (S ps <= Py.len text) as Hps'.
    { symmetry in Hs. apply drop_nonempty in Hs. lia. }
    assert (s = Py.drop (S ps) text) as Hs'.
    { symmetry in Hs. apply drop_next in Hs. done. }
    assert (forall n pv' k,
              ps + k <= S ps + n ->
              Forall (fun m => ps + k <= m_start m /\ match_of r text m)
                     (finditer_from r n (S ps) pv' s)
              /\ Sorted (fun m m' => m_end m <= m_start m')
                        (finditer_from r n (S ps) pv' s)) as Hrec.
    { intros n pv' k Hk. destruct (IH n (S ps) pv' Hps' Hs') as [Hf Hsorted].
      split; [|done]. eapply Forall_impl; [exact Hf|].
      simpl. intros m [? ?]. split; [lia | done]. }
    destruct skip as [|n]; simpl; [|apply Hrec; lia].
    destruct (match_at r ps pv (String a s)) as [st|] eqn:Em;
      [|apply Hrec; lia].
    destruct (Hrec (pos st - ps - 1) (Some a) 0) as [Hf Hsorted]; [lia|].
    split.
    + constructor; [|done]. simpl. split; [lia|].
      exists pv, st. simpl. rewrite <- Hs. done.
    + constructor; [done|].
      destruct (IH (pos st - ps - 1) (S ps) (Some a) Hps' Hs') as [Hlow _].
      destruct (finditer_from r (pos st - ps - 1) (S ps) (Some a) s)
        as [|m' ms']; constructor.
      apply Forall_cons in Hlow as [[Hlow _] _]. simpl. lia.
Qed.

Lemma Sorted_adjacent {A} (R : A -> A -> Prop) (l : list A) i x y :
  Sorted R l -> l !! i = Some x -> l !! S i = Some y -> R x y.
Proof.
  intros Hs. revert i. induction Hs as [|a l _ IH Hhd]; intros i; [done|].
  destruct i as [|i]; simpl.
  - intros [= ->] Hy. destruct Hhd as [|b l Hab]; [done|].
    simpl in Hy. by injection Hy as <-.
  - apply IH.
Qed.

(** *** Slices and prefixes *)

Lemma prefix_take w s n :
  String.prefix w s = true -> Py.len w <= n ->
  exists tail, Py.take n s = (w +:+ tail)%string.
Proof.
  unfold Py.len. revert s n. induction w as [|c w IH]; intros s n Hp Hn.
  - by exists (Py.take n s).
  - destruct s as [|b s]; [done|]. simpl in Hp.
    destruct (Ascii.ascii_dec c b) as [<-|]; [|done].
    destruct n as [|n]; [simpl in Hn; lia|]. simpl in Hn.
    destruct (IH s n Hp) as [tail E]; [lia|].
    exists tail. simpl. by rewrite E, append_cons.
Qed.

Lemma prefix_split w s :
  String.prefix w s = true -> exists tail, s = (w +:+ tail)%string.
Proof.
  revert s. induction w as [|c w IH]; intros s Hp; [by exists s|].
  destruct s as [|b s]; [done|]. cbn [String.prefix] in Hp.
  destruct (Ascii.ascii_dec c b) as [<-|]; [|done].
  destruct (IH s Hp) as [tail ->]. exists tail. by rewrite append_cons.
Qed.

Lemma prefix_app_self w tail : String.prefix w (w +:+ tail) = true.
Proof.
  induction w as [|c w IH]; [by destruct tail|].
  rewrite append_cons. simpl. by destruct (Ascii.ascii_dec c c).
Qed.

Lemma rstrip_prefix s : exists tail, s = (Py.rstrip s +:+ tail)%string.
Proof.
  induction s as [|c s [tail IH]]; [by exists EmptyString|].
  rewrite rstrip_cons.
  destruct (String.eqb_spec (Py.rstrip s) "") as [E|E].
  - destruct (Py.isspace c); [by exists (String c s)|].
    exists s. done.
  - exists tail. by rewrite append_cons, <- IH.
Qed.

(** Trimming keeps a trimmed, non-empty part of the string whole, and
    what is left before it comes from what was before it. *)
Lemma strip_keeps u h v :
  h <> EmptyString -> trimmed h ->
  exists u' v', Py.strip (u +:+ h +:+ v) = (u' +:+ h +:+ v')%string
                /\ forall p, every p u = true -> every p u' = true.
Proof.
  intros Hne [Hl Hr]%trimmed_sides.
  assert (exists u', Py.lstrip (u +:+ h +:+ v) = (u' +:+ h +:+ v)%string
                     /\ forall p, every p u = true -> every p u' = true)
    as (u' & El & Hu).
  { induction u as [|c u (u' & IH & Hu)].
    - exists EmptyString. split; [|done]. destruct h as [|c h]; [done|].
      apply lstrip_fixed in Hl.
      change (("" +:+ String c h +:+ v)%string) with (String c h +:+ v)%string.
      rewrite append_cons. simpl. by rewrite Hl.
    - rewrite append_cons. simpl. destruct (Py.isspace c).
      + exists u'. split; [done|]. intros p [_ H]%andb_true_iff. by apply Hu.
      + exists (String c u). split; [|done]. by rewrite append_cons. }
  unfold Py.strip. rewrite El.
  assert (exists v', Py.rstrip (h +:+ v) = (h +:+ v')%string
                     /\ (h +:+ v')%string <> EmptyString) as (v' & Er & Hnv).
  { rewrite rstrip_app. destruct (String.eqb (Py.rstrip v) "").
    - exists EmptyString. rewrite append_empty_r. by rewrite Hr.
    - exists (Py.rstrip v). split; [done|].
      destruct h; [done|]. by rewrite append_cons. }
  exists u', v'. split; [|exact Hu]. rewrite rstrip_app, Er.
  destruct (String.eqb_spec (h +:+ v') "") as [E|E]; [by destruct Hnv | done].
Qed.

(** What trimming makes of a string that opens like a heading. *)
Lemma strip_heading x :
  opens_heading x ->
  opens_heading (Py.strip x) /\ Py.strip x <> EmptyString
  /\ exists tail, x = (Py.strip x +:+ tail)%string.
Proof.
  intros Hx.
  assert (exists c w tail, x = (String c w +:+ tail)%string
                           /\ Py.isspace c = false
                           /\ Py.rstrip (String c w) = String c w
                           /\ opens_heading (String c w)
                           /\ forall t, opens_heading (String c w +:+ t))
    as (c & w & tail & -> & Hc & Hw & _ & Hopen).
  { destruct Hx as [H|[H|H]]; apply prefix_split in H as [tail ->].
    - exists "I"%char, "NT"%string, tail. repeat split; try done.
      + by left.
      + intros t. left. apply prefix_app_self.
    - exists "E"%char, "XT"%string, tail. repeat split; try done.
      + right. by left.
      + intros t. right. left. apply prefix_app_self.
    - exists "I"%char, "/E"%string, tail. repeat split; try done.
      + right. by right.
      + intros t. right. right. apply prefix_app_self. }
  assert (Py.lstrip (String c w +:+ tail) = (String c w +:+ tail)%string) as El.
  { rewrite append_cons. simpl. by rewrite Hc. }
  unfold Py.strip. rewrite El, rstrip_app, Hw.
  destruct (String.eqb (Py.rstrip tail) "") eqn:Et.
  - split; [by apply (Hopen EmptyString) || (rewrite <- (append_empty_r (String c w)); apply Hopen)|].
    split; [done|]. by exists tail.
  - split; [apply Hopen|]. split; [by rewrite append_cons|].
    destruct (rstrip_prefix tail) as [t' Et'].
    exists t'. rewrite <- str_app_assoc. by rewrite <- Et'.
Qed.

(** The heading and the text of a kept scene, from its header. *)
Lemma scene_of_parts cleaned_text film_title headers d :
  In d (omap (scene_of cleaned_text film_title headers) (enumerate headers)) ->
  exists i h,
    headers !! i = Some h
    /\ heading d = h.2
    /\ text d = Py.strip (Py.slice cleaned_text h.1
                            (scene_end cleaned_text headers i))
    /\ 30 <= Py.len (text d).
Proof.
  rewrite <- list_elem_of_In, list_elem_of_omap.
  intros ([i h] & Hin & Hd). rewrite list_elem_of_In in Hin.
  apply enumerate_lookup in Hin as [Hh _]. rewrite Nat.sub_0_r in Hh.
  unfold scene_of in Hd. destruct (_ <? 30) eqn:E; [done|]. injection Hd as <-.
  simpl in *. exists i, h. split; [done|]. split; [done|]. split; [done|].
  by apply Nat.ltb_ge in E.
Qed.

(** X21: when a header is detected, every Document's heading opens
    with [INT], [EXT] or [I/E] and is trimmed, and the Document's text
    opens with the heading as it stands, after nothing but digits and
    whitespace (the scene number, if the header has one): the text is
    that number, the heading, and what follows.  The text is trimmed
    and at least 30 characters long. *)
Theorem scene_text_holds_heading cleaned_text film_title :
  find_headers cleaned_text <> [] ->
  Forall (fun d =>
            opens_heading (heading d)
            /\ Py.strip (heading d) = heading d
            /\ (exists number after,
                  text d = (number +:+ heading d +:+ after)%string
                  /\ every digit_or_space number = true)
            /\ 30 <= Py.len (text d)
            /\ Py.strip (text d) = text d)
         (extract_scenes cleaned_text film_title).
Proof.
  intros Hne. rewrite extract_scenes_headers by done.
  apply List.Forall_forall. intros d Hd.
  apply scene_of_parts in Hd as (i & [start hd] & Hh & Hhead & Htext & Hlen).
  simpl in Hhead, Htext.
  destruct (finditer_from_sound scene_pattern cleaned_text cleaned_text
              0 0 None) as [Hms Hsorted]; [lia | done |].
  fold (finditer scene_pattern cleaned_text) in Hms, Hsorted.
  assert (forall j h,
            find_headers cleaned_text !! j = Some h ->
            exists m, finditer scene_pattern cleaned_text !! j = Some m
                      /\ h = (m_start m, Py.strip (group1 cleaned_text m)))
    as Hlookup.
  { intros j h. unfold find_headers.
    change (map ?f ?l) with (f <$> l). rewrite list_lookup_fmap.
    destruct (finditer scene_pattern cleaned_text !! j) as [m|]; [|done].
    intros [= <-]. by exists m. }
  destruct (Hlookup i _ Hh) as (m & Em & [= -> ->]).
  destruct (Forall_lookup_1 _ _ _ _ Hms Em)
    as [_ (pv & st & Hm & Hend & Hg & Hstart)].
  apply scene_match_shape in Hm as (a & Hg1 & Ha & Hb & Hst & Hopen & Hnum);
    [|done].
  assert (m_end m <= scene_end cleaned_text (find_headers cleaned_text) i) as He.
  { unfold scene_end.
    destruct (find_headers cleaned_text !! (i + 1)) as [[start' hd']|] eqn:Eh.
    - destruct (Hlookup _ _ Eh) as (m' & Em' & [= -> ->]).
      rewrite Nat.add_1_r in Em'.
      exact (Sorted_adjacent _ _ _ _ _ Hsorted Em Em').
    - by rewrite Hend. }
  set (e := scene_end cleaned_text (find_headers cleaned_text) i) in *.
  assert (group1 cleaned_text m = Py.slice cleaned_text a (m_end m)) as Hgrp.
  { unfold group1. by rewrite Hg, Hg1, Hend. }
  assert (opens_heading (Py.slice cleaned_text a (m_end m))) as Hx.
  { unfold Py.slice, opens_heading in *.
    destruct Hopen as [H|[H|H]];
      apply prefix_take with (n := m_end m - a) in H as [tail ->];
      try (unfold Py.len; simpl; lia); rewrite prefix_app_self; auto. }
  rewrite Hhead, Hgrp. clear Hhead Hgrp.
  destruct (strip_heading _ Hx) as (Hoh & Hnz & tail & Etail).
  remember (Py.strip (Py.slice cleaned_text a (m_end m))) as h eqn:Eh.
  split; [exact Hoh|]. split; [rewrite Eh; apply strip_idem|].
  split; [|split; [exact Hlen | rewrite Htext; apply strip_idem]].
  rewrite Htext.
  rewrite (slice_split cleaned_text (m_start m) a e) by lia.
  rewrite (slice_split cleaned_text a (m_end m) e) by lia.
  rewrite Etail, <- (str_app_assoc h tail).
  destruct (strip_keeps (Py.slice cleaned_text (m_start m) a) h
              (tail +:+ Py.slice cleaned_text (m_end m) e))
    as (number & after & E & Hu).
  { done. }
  { unfold trimmed. rewrite Eh. apply strip_idem. }
  exists number, after. split; [exact E|]. by apply Hu.
Qed.

Lemma scene_text_holds_heading_witness :
  find_headers two_scenes <> []
  /\ Forall (fun d => opens_heading (heading d))
            (extract_scenes two_scenes "A New Hope").
Proof.
  assert (find_headers two_scenes <> []) as H by (vm_compute; discriminate).
  split; [exact H|].
  eapply Forall_impl; [exact (scene_text_holds_heading two_scenes "A New Hope" H)|].
  simpl. by intros d [? _].
Defined.

End IngestExtras.

(** ** The prompt *)

Module PromptExtras.

Import Query.

Lemma parts_loop {A} (f : A -> string) (its : list A) (parts : list string) :
  fold_left (fun parts it => parts ++ [f it]) its parts = parts ++ map f its.
Proof.
  revert parts. induction its as [|it its IH]; intros parts; simpl.
  - by rewrite app_nil_r.
  - by rewrite IH, <- app_assoc.
Qed.

Lemma enumerate_from_lookup {A} (l : list A) k j x :
  l !! j = Some x -> combine (seq k (length l)) l !! j = Some (k + j, x).
Proof.
  revert k j. induction l as [|y l IH]; intros k j; [done|].
  destruct j as [|j]; simpl.
  - intros [= ->]. by rewrite Nat.add_0_r.
  - intros H. rewrite (IH (S k) j H). do 2 f_equal. lia.
Qed.

(** A joined string holds each of its parts. *)
Lemma join_with_holds sep parts j p :
  parts !! j = Some p ->
  exists before after,
    Py.join_with sep parts = (before +:+ p +:+ after)%string.
Proof.
  revert j. induction parts as [|x rest IH]; intros j; [done|].
  destruct j as [|j]; simpl.
  - intros [= ->]. exists EmptyString. destruct rest as [|r rs].
    + exists EmptyString. by rewrite IngestProps.append_empty_r.
    + by exists (sep +:+ Py.join_with sep (r :: rs))%string.
  - intros H. destruct (IH j H) as (before & after & E).
    destruct rest as [|r rs]; [done|].
    exists (x +:+ sep +:+ before)%string, after. rewrite E.
    by rewrite <- !IngestExtras.str_app_assoc.
Qed.

(** X22: the user message that [ask] sends to the language model holds
    one block per retrieved chunk, numbered from 1 in retrieval order:
    for the chunk at position [j], the label [Source j+1] with its
    film, heading and relevance, a line feed, and the chunk's text as
    it stands; and the message ends with the question.  The system
    message comes first and is [SYSTEM_PROMPT]. *)
Theorem prompt_holds_every_source fmt2 q chunks j c :
  chunks !! j = Some c ->
  exists user,
    ask_messages fmt2 q chunks
    = [ {| role := "system"; content := SYSTEM_PROMPT |};
        {| role := "user"; content := user |} ]
    /\ (exists before after,
          user = (before +:+ format_part fmt2 (S j, c) +:+ after)%string)
    /\ (exists label, format_part fmt2 (S j, c)
                      = (label +:+ nl +:+ text c)%string)
    /\ exists lead, user = (lead +:+ "Question: " +:+ q)%string.
Proof.
  intros Hj. eexists. split; [reflexivity|]. split; [|split].
  - pose proof (enumerate_from_lookup chunks 1 j c Hj) as Hit.
    change (1 + j, c) with (S j, c) in Hit.
    remember (format_part fmt2 (S j, c)) as part eqn:Epart.
    assert (map (format_part fmt2) (combine (seq 1 (length chunks)) chunks) !! j
            = Some part) as Hpart.
    { subst part. change (map ?f ?l) with (f <$> l).
      by rewrite list_lookup_fmap, Hit. }
    destruct (join_with_holds (nl +:+ nl +:+ "---" +:+ nl +:+ nl)%string
                _ _ _ Hpart) as (before & after & E).
    unfold format_context. rewrite parts_loop. simpl. rewrite E.
    exists ("Context from the screenplays:" +:+ nl +:+ nl +:+ before)%string,
           (after +:+ nl +:+ nl +:+ "Question: " +:+ q)%string.
    by rewrite <- !IngestExtras.str_app_assoc.
  - unfold format_part. eexists.
    rewrite !IngestExtras.str_app_assoc. reflexivity.
  - eexists. rewrite !IngestExtras.str_app_assoc. reflexivity.
Qed.

Lemma prompt_holds_every_source_witness :
  exists user before after,
    ask_messages (fun _ => "0.91"%string) "Who is Luke?"
      [ {| text := "LUKE looks at the twin suns."; film := "A New Hope";
           heading := "EXT. TATOOINE - DUSK"; similarity := 0.91%float |} ]
    = [ {| role := "system"; content := SYSTEM_PROMPT |};
        {| role := "user"; content := user |} ]
    /\ user = (before
               +:+ format_part (fun _ => "0.91"%string)
                     (1, {| text := "LUKE looks at the twin suns.";
                            film := "A New Hope";
                            heading := "EXT. TATOOINE - DUSK";
                            similarity := 0.91%float |})
               +:+ after)%string.
Proof.
  destruct (prompt_holds_every_source (fun _ => "0.91"%string) "Who is Luke?"
              [ {| text := "LUKE looks at the twin suns."; film := "A New Hope";
                   heading := "EXT. TATOOINE - DUSK";
                   similarity := 0.91%float |} ] 0 _ eq_refl)
    as (user & E & (before & after & Hu) & _).
  exists user, before, after. by split.
Defined.

End PromptExtras.
